(** * PlasmaPy: Coulomb logarithm, impact parameters and Thomson spectral density

    A shallow embedding of

    - [plasmapy/formulary/collisions.py]: [_replaceNanVwithThermalV],
      [_boilerPlate], [impact_parameter_perp], [impact_parameter] and
      [Coulomb_logarithm], and after them the collision rates and the
      macroscopic properties, from [collision_frequency] to
      [coupling_parameter];
    - [plasmapy/diagnostics/thomson.py]: [spectral_density].

    Conventions of the embedding.

    - A NumPy [float64] is an extended real: the three special values
      [NaN], [+inf], [-inf] and the finite values, which are exact reals.
      Rounding and the sign of zero are not modelled; the propagation of
      the special values through the arithmetic and the comparisons is.
      The range of [float64] is modelled where the source squares a
      length that the caller sets freely, [bmax ** 2 / bmin ** 2] in
      [Coulomb_logarithm] and [np.linalg.norm] in [spectral_density]:
      there a result beyond the largest [float64] is an infinity and one
      below the smallest is zero ([range64]). Everywhere else a finite
      result stays finite.
    - An astropy [Quantity] is represented by its magnitude in SI base
      units, so [x.to(u.m)], [x.value] and [x * u.dimensionless_unscaled]
      are the identity on the representation.
    - An array-or-scalar argument is an [ndarray]: [Scalar x] or a
      one-dimensional [Array xs]. Binary operations broadcast the way NumPy
      does on these shapes and raise [ValueError] otherwise.
    - Python exceptions are values of [exception]; a computation that may
      raise has type [result A]. Messages built with f-strings keep their
      interpolated fields as message fragments.
    - A Python list that is passed by reference lives in a heap of list
      objects; [spectral_density] is a computation on that heap.
    - The bodies of the functions are embedded. The decorators
      [validate_quantities] and [particle_input] run before them: species
      arrive as [Particle] objects in [collisions.py], and the range checks
      of the decorators are conditions on the arguments: an argument
      declared [can_be_negative: False] holds no negative value
      ([not_negative]), and an argument without [none_shall_pass] is an
      array, never [None]. A call that breaks one of them raises
      [ValueError] in the decorator and does not reach the body. The
      rates take the species as strings and call the decorated functions;
      there the conversion of [particle_input] is a step of the call.
    - An array that a function writes into is its caller's array:
      [_replaceNanVwithThermalV] fills [V] in place in one of its
      branches, and [collision_frequency], which hands its [V] to
      [_boilerPlate] and reads it again afterwards, reads what was
      written ([written_V]).
    - Functions of PlasmaPy, astropy and NumPy that the two modules import
      (Debye length, thermal speed, Wigner-Seitz radius, reduced mass,
      plasma frequency, the Maxwellian susceptibility, [Particle], the
      physical constants, the relativity check) are fields of the classes
      [collisions.Formulary], [transport.Particles] and
      [thomson.Formulary]. *)

From Stdlib Require Import Reals Lra Lia ZArith Bool.
From stdpp Require Import gmap strings list.

Set Default Proof Using "Type".

(* ================================================================== *)
(** * NumPy scalars *)

Inductive float64 : Type :=
| NaN
| PInf
| NInf
| Fin (r : R).

Inductive sign : Type := Neg | Zero | Pos.

Definition Rsign (r : R) : sign :=
  match total_order_T r 0 with
  | inleft (left _) => Neg
  | inleft (right _) => Zero
  | inright _ => Pos
  end.

Definition sign_mul (s t : sign) : sign :=
  match s, t with
  | Zero, _ | _, Zero => Zero
  | Pos, Pos | Neg, Neg => Pos
  | Pos, Neg | Neg, Pos => Neg
  end.

(** The infinity of a given sign; [0 * inf] and [0 / 0] are [NaN]. *)
Definition inf_of (s : sign) : float64 :=
  match s with
  | Pos => PInf
  | Neg => NInf
  | Zero => NaN
  end.

(** Sign of a value that is not [NaN] ([NaN] is never passed). *)
Definition fsign (x : float64) : sign :=
  match x with
  | PInf => Pos
  | NInf => Neg
  | Fin r => Rsign r
  | NaN => Zero
  end.

Definition Rltb (a b : R) : bool := if Rlt_dec a b then true else false.
Definition Rleb (a b : R) : bool := if Rle_dec a b then true else false.
Definition Reqb (a b : R) : bool := if Req_dec_T a b then true else false.

Definition fadd (x y : float64) : float64 :=
  match x, y with
  | NaN, _ | _, NaN => NaN
  | Fin a, Fin b => Fin (a + b)
  | PInf, NInf | NInf, PInf => NaN
  | PInf, _ | _, PInf => PInf
  | NInf, _ | _, NInf => NInf
  end.

Definition fneg (x : float64) : float64 :=
  match x with
  | NaN => NaN
  | PInf => NInf
  | NInf => PInf
  | Fin a => Fin (- a)
  end.

Definition fsub (x y : float64) : float64 := fadd x (fneg y).

Definition fmul (x y : float64) : float64 :=
  match x, y with
  | NaN, _ | _, NaN => NaN
  | Fin a, Fin b => Fin (a * b)
  | _, _ => inf_of (sign_mul (fsign x) (fsign y))
  end.

(** [x / 0] is an infinity of the sign of [x] (zero counts as [+0]) and
    [0 / 0] is [NaN]; NumPy does not raise on a zero divisor. *)
Definition fdiv (x y : float64) : float64 :=
  match x, y with
  | NaN, _ | _, NaN => NaN
  | Fin a, Fin b => if Reqb b 0 then inf_of (Rsign a) else Fin (a / b)
  | Fin _, _ => Fin 0
  | _, Fin b => inf_of (sign_mul (fsign x) (if Reqb b 0 then Pos else Rsign b))
  | _, _ => NaN
  end.

Definition fabs (x : float64) : float64 :=
  match x with
  | NaN => NaN
  | PInf | NInf => PInf
  | Fin a => Fin (Rabs a)
  end.

Definition fsqrt (x : float64) : float64 :=
  match x with
  | NaN | NInf => NaN
  | PInf => PInf
  | Fin a => if Rltb a 0 then NaN else Fin (sqrt a)
  end.

Definition flog (x : float64) : float64 :=
  match x with
  | NaN | NInf => NaN
  | PInf => PInf
  | Fin a => if Rltb a 0 then NaN else if Reqb a 0 then NInf else Fin (ln a)
  end.

Definition fexp (x : float64) : float64 :=
  match x with
  | NaN => NaN
  | PInf => PInf
  | NInf => Fin 0
  | Fin a => Fin (exp a)
  end.

Definition fcos (x : float64) : float64 :=
  match x with
  | Fin a => Fin (cos a)
  | _ => NaN
  end.

Definition farccos (x : float64) : float64 :=
  match x with
  | Fin a => if Rleb (-1) a && Rleb a 1 then Fin (acos a) else NaN
  | _ => NaN
  end.

(** [x ** 2] *)
Definition fsquare (x : float64) : float64 := fmul x x.

(** Comparisons: every comparison with [NaN] is [False]. *)
Definition flt (x y : float64) : bool :=
  match x, y with
  | NaN, _ | _, NaN => false
  | Fin a, Fin b => Rltb a b
  | NInf, NInf => false
  | NInf, _ => true
  | _, NInf => false
  | PInf, _ => false
  | Fin _, PInf => true
  end.

Definition fgt (x y : float64) : bool := flt y x.

Definition feq (x y : float64) : bool :=
  match x, y with
  | Fin a, Fin b => Reqb a b
  | PInf, PInf | NInf, NInf => true
  | _, _ => false
  end.

Definition fisnan (x : float64) : bool :=
  match x with
  | NaN => true
  | _ => false
  end.

(** ** The range of [float64]

    Rounding to nearest turns a result of magnitude [2^1024 - 2^970] or
    more into an infinity and one of magnitude [2^-1075] or less into
    zero. [range64] does that to an exact result and keeps every result
    in between as it is. *)
Definition overflow_threshold : R := 2 ^ 1024 - 2 ^ 970.
Definition underflow_threshold : R := / 2 ^ 1075.

Definition range64 (x : float64) : float64 :=
  match x with
  | Fin r =>
      if Rleb overflow_threshold (Rabs r) then inf_of (Rsign r)
      else if Rleb (Rabs r) underflow_threshold then Fin 0
      else Fin r
  | _ => x
  end.

(** [x ** 2] and [x / y] as [float64] holds them. *)
Definition fsquare64 (x : float64) : float64 := range64 (fsquare x).
Definition fdiv64 (x y : float64) : float64 := range64 (fdiv x y).

Declare Scope float64_scope.
Delimit Scope float64_scope with f64.
Bind Scope float64_scope with float64.
Infix "+" := fadd : float64_scope.
Infix "-" := fsub : float64_scope.
Infix "*" := fmul : float64_scope.
Infix "/" := fdiv : float64_scope.
Notation "- x" := (fneg x) : float64_scope.

(** Python number literals. *)
Definition f0 : float64 := Fin 0.
Definition f1 : float64 := Fin 1.
Definition f2 : float64 := Fin 2.
Definition f4 : float64 := Fin 4.
Definition fhalf : float64 := Fin (1 / 2).

(** [complex128], as real and imaginary part. *)
Definition complex128 : Type := float64 * float64.

Definition cadd (a b : complex128) : complex128 :=
  (fadd (fst a) (fst b), fadd (snd a) (snd b)).

Definition csub (a b : complex128) : complex128 :=
  (fsub (fst a) (fst b), fsub (snd a) (snd b)).

Definition cdiv (a b : complex128) : complex128 :=
  let d := fadd (fsquare (fst b)) (fsquare (snd b)) in
  (fdiv (fadd (fmul (fst a) (fst b)) (fmul (snd a) (snd b))) d,
   fdiv (fsub (fmul (snd a) (fst b)) (fmul (fst a) (snd b))) d).

Definition cabs (a : complex128) : float64 :=
  fsqrt (fadd (fsquare (fst a)) (fsquare (snd a))).

Definition creal (a : complex128) : float64 := fst a.
Definition c_of_real (x : float64) : complex128 := (x, f0).
Definition c0 : complex128 := (f0, f0).
Definition c1 : complex128 := (f1, f0).

(* ================================================================== *)
(** * Exceptions and warnings *)

(** A fragment of a message: literal text or an interpolated field. *)
Inductive fragment : Type :=
| Lit (s : string)
| Int (n : nat)
| Str (s : string)
| Floats (xs : list float64).

Definition message : Type := list fragment.

Inductive exception : Type :=
| ValueError (msg : message)
| IndexError (msg : message)
| TypeError (msg : message)
| PhysicsError (msg : message)
| AttributeError (msg : message)
| RelativityError (msg : message)
| InvalidParticleError (msg : message)
| NotImplementedError (msg : message).

Inductive result (A : Type) : Type :=
| Ok (a : A)
| Raise (e : exception).
Arguments Ok {A} a.
Arguments Raise {A} e.

Definition bind {A B : Type} (m : result A) (k : A -> result B) : result B :=
  match m with
  | Ok a => k a
  | Raise e => Raise e
  end.

Notation "x <- m ;; k" := (bind m (fun x => k))
  (at level 100, m at next level, right associativity).

(** [try: m except ValueError: h] *)
Definition try_except_ValueError {A : Type} (m : result A) (h : result A) : result A :=
  match m with
  | Raise (ValueError _) => h
  | _ => m
  end.

(* ================================================================== *)
(** * NumPy arrays *)

Inductive ndarray (A : Type) : Type :=
| Scalar (x : A)
| Array (xs : list A).
Arguments Scalar {A} x.
Arguments Array {A} xs.

Module np.

Definition pi : float64 := Fin PI.

Definition isscalar {A : Type} (a : ndarray A) : bool :=
  match a with
  | Scalar _ => true
  | Array _ => false
  end.

(** [a.size] *)
Definition size {A : Type} (a : ndarray A) : nat :=
  match a with
  | Scalar _ => 1
  | Array xs => length xs
  end.

(** The elements, flattened. *)
Definition elements {A : Type} (a : ndarray A) : list A :=
  match a with
  | Scalar x => [x]
  | Array xs => xs
  end.

Definition map {A B : Type} (f : A -> B) (a : ndarray A) : ndarray B :=
  match a with
  | Scalar x => Scalar (f x)
  | Array xs => Array (List.map f xs)
  end.

Definition msg_broadcast : message :=
  [Lit "operands could not be broadcast together"].

(** An elementwise binary operation, with broadcasting. *)
Definition broadcast {A B C : Type} (f : A -> B -> C)
    (a : ndarray A) (b : ndarray B) : result (ndarray C) :=
  match a, b with
  | Scalar x, Scalar y => Ok (Scalar (f x y))
  | Scalar x, Array ys => Ok (Array (List.map (f x) ys))
  | Array xs, Scalar y => Ok (Array (List.map (fun x => f x y) xs))
  | Array xs, Array ys =>
      if Nat.eqb (length xs) (length ys) then Ok (Array (zip_with f xs ys))
      else
        match xs, ys with
        | [x], _ => Ok (Array (List.map (f x) ys))
        | _, [y] => Ok (Array (List.map (fun x => f x y) xs))
        | _, _ => Raise (ValueError msg_broadcast)
        end
  end.

Definition add := broadcast fadd.
Definition divide := broadcast fdiv.
Definition greater := broadcast fgt.

Definition log : ndarray float64 -> ndarray float64 := map flog.
Definition square : ndarray float64 -> ndarray float64 := map fsquare.
Definition isnan : ndarray float64 -> ndarray bool := map fisnan.

(** [np.any] *)
Definition any (m : ndarray bool) : bool := existsb (fun b : bool => b) (elements m).

(** [bool(m)], as in [if m:]. *)
Definition truth (m : ndarray bool) : result bool :=
  match m with
  | Scalar b => Ok b
  | Array [] => Ok false
  | Array [b] => Ok b
  | Array _ =>
      Raise (ValueError
        [Lit "The truth value of an array with more than one element is ambiguous. Use a.any() or a.all()"])
  end.

(** [np.repeat(x, n)] for a scalar [x]. *)
Definition repeat {A : Type} (x : A) (n : nat) : ndarray A :=
  Array (replicate n x).

(** [xs[mask]] on lists of the same length. *)
Fixpoint select {A : Type} (xs : list A) (mask : list bool) : list A :=
  match xs, mask with
  | x :: xs', b :: mask' => if b then x :: select xs' mask' else select xs' mask'
  | _, _ => []
  end.

(** [xs[mask] = vs]: the selected positions receive the values in order. *)
Fixpoint put {A : Type} (xs : list A) (mask : list bool) (vs : list A) : list A :=
  match xs, mask with
  | x :: xs', true :: mask' =>
      match vs with
      | v :: vs' => v :: put xs' mask' vs'
      | [] => x :: put xs' mask' []
      end
  | x :: xs', false :: mask' => x :: put xs' mask' vs
  | _, _ => xs
  end.

Definition count_true (mask : list bool) : nat :=
  length (List.filter (fun b : bool => b) mask).

Definition msg_boolean_index : message :=
  [Lit "boolean index did not match indexed array"].
Definition msg_shape_mismatch : message :=
  [Lit "shape mismatch: value array could not be broadcast to indexing result"].

(** [a[mask]] for a boolean [mask] of the shape of [a]. On a scalar the
    result has one element or none. *)
Definition getitem {A : Type} (a : ndarray A) (mask : ndarray bool) : result (ndarray A) :=
  match a, mask with
  | Scalar x, Scalar b => Ok (Array (if b then [x] else []))
  | Array xs, Array bs =>
      if Nat.eqb (length xs) (length bs) then Ok (Array (select xs bs))
      else Raise (IndexError msg_boolean_index)
  | _, _ => Raise (IndexError msg_boolean_index)
  end.

(** The values assigned to [cnt] selected positions: [v] itself, or its
    single element repeated. *)
Definition values_for {A : Type} (v : ndarray A) (cnt : nat) : result (list A) :=
  match v with
  | Scalar y => Ok (replicate cnt y)
  | Array ys =>
      if Nat.eqb (length ys) cnt then Ok ys
      else
        match ys with
        | [y] => Ok (replicate cnt y)
        | _ => Raise (ValueError msg_shape_mismatch)
        end
  end.

(** [a[mask] = v] for a boolean [mask] of the shape of [a]. *)
Definition setitem {A : Type} (a : ndarray A) (mask : ndarray bool) (v : ndarray A)
    : result (ndarray A) :=
  match a, mask with
  | Scalar x, Scalar b =>
      vs <- values_for v (if b then 1 else 0) ;;
      Ok (Scalar (match vs with y :: _ => y | [] => x end))
  | Array xs, Array bs =>
      if Nat.eqb (length xs) (length bs) then
        vs <- values_for v (count_true bs) ;;
        Ok (Array (put xs bs vs))
      else Raise (IndexError msg_boolean_index)
  | _, _ => Raise (IndexError msg_boolean_index)
  end.

(** [np.sum] and [np.mean] of a flat list of values. *)
Definition sum (xs : list float64) : float64 := foldl fadd f0 xs.
Definition mean (xs : list float64) : float64 :=
  fdiv (sum xs) (Fin (INR (length xs))).

End np.

(** [x ** (1 / 2)] *)
Definition fpow_half (x : float64) : float64 :=
  match x with
  | NaN => NaN
  | PInf | NInf => PInf
  | Fin a => if Rltb a 0 then NaN else Fin (sqrt a)
  end.

(** What [validate_quantities] asks of an argument that is declared
    [can_be_negative: False]: no element is negative. Not-a-number and
    the infinities pass. *)
Definition not_negative (a : ndarray float64) : Prop :=
  forall x, In x (np.elements a) -> flt x f0 = false.

(** [s in (t1, t2, ...)] for strings. *)
Definition str_in (s : string) (ts : list string) : bool :=
  existsb (String.eqb s) ts.

(** The double-quote character (code 34) inside a message. *)
Definition dquote : string :=
  String (Ascii.Ascii false true false false false true false false) EmptyString.

Definition quoted (s : string) : string := dquote +:+ s +:+ dquote.

(* ================================================================== *)
(** * plasmapy.particles *)

Record Particle : Type := {
  symbol : string;
  mass : float64;
  charge : float64;
  charge_number : Z;
}.

(** An argument that is a string or an already built [Particle]. *)
Inductive particle_like : Type :=
| PStr (s : string)
| PObj (p : Particle).

(** The warnings of [collisions.py] itself; those of the imported checks
    are not part of the embedding. *)
Inductive warning : Type :=
| CouplingWarning (msg : message).

(* ================================================================== *)
(** * plasmapy/formulary/collisions.py *)

Module collisions.

(** What [collisions.py] imports: [astropy.constants.si],
    [plasmapy.formulary.parameters], [plasmapy.formulary.quantum],
    [plasmapy.particles] and [plasmapy.utils.decorators.checks]. The
    functions of [parameters] and [quantum] act elementwise; their field
    is the function on one element. *)
Class Formulary : Type := {
  hbar : float64;
  eps0 : float64;
  Debye_length : float64 -> float64 -> float64;
  Wigner_Seitz_radius : float64 -> float64;
  thermal_speed : float64 -> particle_like -> option float64 -> float64;
  reduced_mass : Particle -> Particle -> float64;
  _check_relativistic : ndarray float64 -> string -> result unit;
}.

Section collisions.
Context `{Formulary}.

Definition linear_methods : list string :=
  ["classical"; "ls"; "ls_min_interp"; "GMS-1"; "ls_full_interp"; "GMS-2"].
Definition clamp_methods : list string :=
  ["ls_clamp_mininterp"; "GMS-3"].
Definition hyperbolic_methods : list string :=
  ["hls_min_interp"; "GMS-4"; "hls_max_interp"; "GMS-5"; "hls_full_interp"; "GMS-6"].
Definition z_mean_methods : list string :=
  ["ls_full_interp"; "GMS-2"; "hls_max_interp"; "GMS-5"; "hls_full_interp"; "GMS-6"].

Definition msg_zero_velocity : message :=
  [Lit "You cannot have a collision for zero velocity!"].

(** [parameters.thermal_speed(T, "e-", mass=m)] *)
Definition thermal_speed_of (m : float64) (T : ndarray float64) : ndarray float64 :=
  np.map (fun t => thermal_speed t (PStr "e-") (Some m)) T.

(** [V == 0]; [None == 0] is [False]. *)
Definition eq_zero (V : option (ndarray float64)) : ndarray bool :=
  match V with
  | None => Scalar false
  | Some v => np.map (fun x => feq x f0) v
  end.

Definition _replaceNanVwithThermalV
    (V : option (ndarray float64)) (T : ndarray float64) (m : float64)
    : result (ndarray float64) :=
  if np.any (eq_zero V) then Raise (PhysicsError msg_zero_velocity)
  else
    match V with
    | None => Ok (thermal_speed_of m T)
    | Some V =>
        if np.any (np.isnan V) then
          if np.isscalar V || np.isscalar T then
            let V1 := if np.isscalar V then thermal_speed_of m T else V in
            if np.isscalar T then
              np.setitem V1 (np.isnan V1) (thermal_speed_of m T)
            else Ok V1
          else
            Tnan <- np.getitem T (np.isnan V) ;;
            np.setitem V (np.isnan V) (thermal_speed_of m Tnan)
        else Ok V
    end.

(** The array object [V] after [_replaceNanVwithThermalV(V, T, m)] has
    returned [filled]. With a scalar [T] and an array [V], line 504,
    [V[np.isnan(V)] = ...], writes into the array it was given, and what
    the function returns is that array. Every other branch rebinds the
    local name, to the thermal speed or to a copy. *)
Definition written_V (V T filled : ndarray float64) : ndarray float64 :=
  if np.isscalar T && negb (np.isscalar V) then filled else V.

(** The tuple [(T, masses, charges, reduced_mass, V)]. *)
Record boilerPlate : Type := {
  bp_T : ndarray float64;
  bp_masses : float64 * float64;
  bp_charges : float64 * float64;
  bp_reduced_mass : float64;
  bp_V : ndarray float64;
}.

Definition _boilerPlate
    (T : ndarray float64) (species : Particle * Particle)
    (V : option (ndarray float64)) : result boilerPlate :=
  let masses := (mass (fst species), mass (snd species)) in
  let charges := (fabs (charge (fst species)), fabs (charge (snd species))) in
  let reduced_mass := reduced_mass (fst species) (snd species) in
  V <- _replaceNanVwithThermalV V T reduced_mass ;;
  _ <- _check_relativistic V "V" ;;
  Ok {| bp_T := T; bp_masses := masses; bp_charges := charges;
        bp_reduced_mass := reduced_mass; bp_V := V |}.

(** [V] is declared without [none_shall_pass]: it is an array. *)
Definition impact_parameter_perp
    (T : ndarray float64) (species : Particle * Particle)
    (V : ndarray float64) : result (ndarray float64) :=
  bp <- _boilerPlate T species (Some V) ;;
  let charges := bp_charges bp in
  let reduced_mass := bp_reduced_mass bp in
  let V := bp_V bp in
  let bPerp :=
    np.map (fun v => (fst charges * snd charges
                      / (f4 * np.pi * eps0 * reduced_mass * fsquare v))%f64) V in
  Ok bPerp.

Definition msg_z_mean : message :=
  [Lit ("Must provide a z_mean for " +:+ quoted "ls_full_interp" +:+ ", "
        +:+ quoted "hls_max_interp" +:+ ", and " +:+ quoted "hls_full_interp"
        +:+ " methods.")].

Definition msg_not_found (method : string) : message :=
  [Lit "Method "; Str method; Lit " not found!"].

(** [(a ** 2 + b ** 2) ** (1 / 2)] *)
Definition quadratic_sum (a b : ndarray float64) : result (ndarray float64) :=
  s <- np.add (np.square a) (np.square b) ;;
  Ok (np.map fpow_half s).

(** [Wigner_Seitz_radius(n_e / z_mean)] *)
Definition ion_sphere_radius (n_e z_mean : ndarray float64) : result (ndarray float64) :=
  n_i <- np.divide n_e z_mean ;;
  Ok (np.map Wigner_Seitz_radius n_i).

(** The branch of [impact_parameter] for ["classical"]: the scalar
    comparison, and the elementwise assignment when the comparison of
    two arrays has no truth value. *)
Definition classical_bmin (bPerp lambdaBroglie : ndarray float64)
    : result (ndarray float64) :=
  try_except_ValueError
    (gt <- np.greater bPerp lambdaBroglie ;;
     b <- np.truth gt ;;
     Ok (if b then bPerp else lambdaBroglie))
    (gt <- np.greater bPerp lambdaBroglie ;;
     sel <- np.getitem bPerp gt ;;
     np.setitem lambdaBroglie gt sel).

Definition impact_parameter
    (T n_e : ndarray float64) (species : Particle * Particle)
    (z_mean : ndarray float64) (V : option (ndarray float64)) (method : string)
    : result (ndarray float64 * ndarray float64) :=
  bp <- _boilerPlate T species V ;;
  let T := bp_T bp in
  let reduced_mass := bp_reduced_mass bp in
  let V := bp_V bp in
  _ <- (if str_in method z_mean_methods then
          b <- np.truth (np.isnan z_mean) ;;
          if b then Raise (ValueError msg_z_mean) else Ok tt
        else Ok tt) ;;
  lambdaDe <- np.broadcast Debye_length T n_e ;;
  let lambdaBroglie := np.map (fun v => (hbar / (f2 * reduced_mass * v))%f64) V in
  bPerp <- impact_parameter_perp T species V ;;
  bb <-
    (if String.eqb method "classical" || String.eqb method "ls" then
       let bmax := lambdaDe in
       bmin <- classical_bmin bPerp lambdaBroglie ;;
       Ok (bmin, bmax)
     else if String.eqb method "ls_min_interp" || String.eqb method "GMS-1" then
       let bmax := lambdaDe in
       bmin <- quadratic_sum lambdaBroglie bPerp ;;
       Ok (bmin, bmax)
     else if String.eqb method "ls_full_interp" || String.eqb method "GMS-2" then
       ionRadius <- ion_sphere_radius n_e z_mean ;;
       bmax <- quadratic_sum lambdaDe ionRadius ;;
       bmin <- quadratic_sum lambdaBroglie bPerp ;;
       Ok (bmin, bmax)
     else if String.eqb method "ls_clamp_mininterp" || String.eqb method "GMS-3" then
       let bmax := lambdaDe in
       bmin <- quadratic_sum lambdaBroglie bPerp ;;
       Ok (bmin, bmax)
     else if String.eqb method "hls_min_interp" || String.eqb method "GMS-4" then
       let bmax := lambdaDe in
       bmin <- quadratic_sum lambdaBroglie bPerp ;;
       Ok (bmin, bmax)
     else if String.eqb method "hls_max_interp" || String.eqb method "GMS-5" then
       ionRadius <- ion_sphere_radius n_e z_mean ;;
       bmax <- quadratic_sum lambdaDe ionRadius ;;
       let bmin := bPerp in
       Ok (bmin, bmax)
     else if String.eqb method "hls_full_interp" || String.eqb method "GMS-6" then
       ionRadius <- ion_sphere_radius n_e z_mean ;;
       bmax <- quadratic_sum lambdaDe ionRadius ;;
       bmin <- quadratic_sum lambdaBroglie bPerp ;;
       Ok (bmin, bmax)
     else Raise (ValueError (msg_not_found method))) ;;
  let bmin := fst bb in
  let bmax := snd bb in
  let bmin :=
    match bmin, bmax with
    | Scalar x, Array ys => np.repeat x (length ys)
    | _, _ => bmin
    end in
  Ok (bmin, bmax).

Definition msg_unknown_method : message :=
  [Lit ("Unknown method. Choose from " +:+ quoted "classical" +:+ ", "
        +:+ quoted "ls_min_interp" +:+ ", " +:+ quoted "ls_full_interp" +:+ ", "
        +:+ quoted "ls_clamp_mininterp" +:+ ", " +:+ quoted "hls_min_interp" +:+ ", "
        +:+ quoted "hls_max_interp" +:+ ", " +:+ quoted "hls_full_interp"
        +:+ ", and their aliases. Please refer to the documentation of this function for more information.")].

Definition msg_weak_coupling (ln_Lambda : ndarray float64) (method : string) : message :=
  [Lit "The Coulomb logarithm is "; Floats (np.elements ln_Lambda);
   Lit (", and the specified method, " +:+ dquote); Str method;
   Lit (dquote +:+ ", depends on weak coupling.")].

Definition msg_strong_coupling (ln_Lambda : ndarray float64) : message :=
  [Lit "The Coulomb logarithm is "; Floats (np.elements ln_Lambda);
   Lit ", so strong coupling effects may exist for the plasma."].

(** [x < c] against a Python number. *)
Definition less_than (c : float64) (a : ndarray float64) : ndarray bool :=
  np.map (fun x => flt x c) a.

(** The clamp of ["ls_clamp_mininterp"]. *)
Definition clamp (ln_Lambda : ndarray float64) : result (ndarray float64) :=
  if np.any (less_than f2 ln_Lambda) then
    if np.isscalar ln_Lambda then Ok (Scalar f2)
    else np.setitem ln_Lambda (less_than f2 ln_Lambda) (Scalar f2)
  else Ok ln_Lambda.

(** The warnings after the result is computed. *)
Definition coupling_warnings (ln_Lambda : ndarray float64) (method : string)
    : list warning :=
  if np.any (less_than f2 ln_Lambda) && str_in method linear_methods then
    [CouplingWarning (msg_weak_coupling ln_Lambda method)]
  else if np.any (less_than f4 ln_Lambda) then
    [CouplingWarning (msg_strong_coupling ln_Lambda)]
  else [].

Definition Coulomb_logarithm
    (T n_e : ndarray float64) (species : Particle * Particle)
    (z_mean : ndarray float64) (V : option (ndarray float64)) (method : string)
    : result (ndarray float64 * list warning) :=
  bb <- impact_parameter T n_e species z_mean V method ;;
  let bmin := fst bb in
  let bmax := snd bb in
  ln_Lambda <-
    (if str_in method linear_methods then
       q <- np.divide bmax bmin ;;
       Ok (np.log q)
     else if str_in method clamp_methods then
       q <- np.divide bmax bmin ;;
       clamp (np.log q)
     else if str_in method hyperbolic_methods then
       q <- np.broadcast fdiv64 (np.map fsquare64 bmax) (np.map fsquare64 bmin) ;;
       Ok (np.map (fun x => (fhalf * flog (f1 + x))%f64) q)
     else Raise (ValueError msg_unknown_method)) ;;
  Ok (ln_Lambda, coupling_warnings ln_Lambda method).

End collisions.
End collisions.

(* ================================================================== *)
(** * plasmapy/diagnostics/thomson.py *)

Module thomson.

(** What [thomson.py] imports: [astropy.constants], [Particle] of
    [plasmapy.particles], [plasma_frequency] and [thermal_speed] of
    [plasmapy.formulary.parameters] and [permittivity_1D_Maxwellian] of
    [plasmapy.formulary.dielectric]; the last three act elementwise. *)
Class Formulary : Type := {
  const_c : float64;
  Particle_new : string -> result Particle;
  thermal_speed : float64 -> particle_like -> option float64 -> float64;
  plasma_frequency : float64 -> particle_like -> float64;
  permittivity_1D_Maxwellian :
    float64 -> float64 -> float64 -> float64 -> particle_like -> option float64
    -> complex128;
}.

(** ** Python lists passed by reference *)

Definition loc : Type := positive.
Abbreviation heap := (gmap positive (list particle_like)).

(** The argument [ion_species]: a string, a [Particle], or a list object. *)
Inductive ion_species_arg : Type :=
  | AStr (s : string)
  | AParticle (p : Particle)
  | AList (l : loc).

(** Computations that read and write list objects and may raise. The heap
    that an exception leaves behind is kept. *)
Definition M (A : Type) : Type := heap -> heap * result A.

Definition ret {A : Type} (a : A) : M A := fun h => (h, Ok a).
Definition raise {A : Type} (e : exception) : M A := fun h => (h, Raise e).
Definition lift {A : Type} (r : result A) : M A := fun h => (h, r).
Definition mbind {A B : Type} (m : M A) (k : A -> M B) : M B :=
  fun h =>
    match m h with
    | (h', Ok a) => k a h'
    | (h', Raise e) => (h', Raise e)
    end.

Notation "x <~ m ;; k" := (mbind m (fun x => k))
  (at level 100, m at next level, right associativity).

Definition msg_not_a_list : message := [Lit "object is not a list"].
Definition msg_list_index : message := [Lit "list assignment index out of range"].

(** [[x]]: a new list object. *)
Definition new_list (xs : list particle_like) : M loc :=
  fun h => let l := fresh (dom h) in (<[l := xs]> h, Ok l).

Definition get_list (l : loc) : M (list particle_like) :=
  fun h =>
    match h !! l with
    | Some xs => (h, Ok xs)
    | None => (h, Raise (TypeError msg_not_a_list))
    end.

(** [l[i] = x] *)
Definition list_setitem (l : loc) (i : nat) (x : particle_like) : M unit :=
  fun h =>
    match h !! l with
    | Some xs =>
        if Nat.ltb i (length xs) then (<[l := <[i := x]> xs]> h, Ok tt)
        else (h, Raise (IndexError msg_list_index))
    | None => (h, Raise (TypeError msg_not_a_list))
    end.

(** ** Vectors of three components *)

Definition vec3 : Type := float64 * float64 * float64.

Definition vx (v : vec3) : float64 := fst (fst v).
Definition vy (v : vec3) : float64 := snd (fst v).
Definition vz (v : vec3) : float64 := snd v.

Definition dot (a b : vec3) : float64 :=
  (vx a * vx b + vy a * vy b + vz a * vz b)%f64.

(** [v.dot(v)] as [float64] holds it: the three squares and the two
    sums. *)
Definition sum_of_squares (v : vec3) : float64 :=
  range64 (range64 (fsquare64 (vx v) + fsquare64 (vy v)) + fsquare64 (vz v))%f64.

(** [np.linalg.norm(v)], which is [sqrt(v.dot(v))]. *)
Definition norm (v : vec3) : float64 := fsqrt (sum_of_squares v).

(** [v / s] *)
Definition vdiv (v : vec3) (s : float64) : vec3 :=
  (vx v / s, vy v / s, vz v / s)%f64.

(** [s * v] *)
Definition vscale (s : float64) (v : vec3) : vec3 :=
  (s * vx v, s * vy v, s * vz v)%f64.

Definition vsub (a b : vec3) : vec3 :=
  (vx a - vx b, vy a - vy b, vz a - vz b)%f64.

(** [v / np.linalg.norm(v)] *)
Definition normalize (v : vec3) : vec3 := vdiv v (norm v).

Definition default_probe_vec : vec3 := (f1, f0, f0).
Definition default_scatter_vec : vec3 := (f0, f1, f0).
Definition zero_vel : vec3 := (f0, f0, f0).

Section thomson.
Context `{Formulary}.

Definition msg_no_species : message :=
  [Lit "At least one ion species needs to be defined."].

Definition msg_Te (Te_size n_efract : nat) : message :=
  [Lit "Got "; Int Te_size; Lit " electron temperatures and expected ";
   Int n_efract; Lit "."].

Definition msg_Ti (Ti_size n_species : nat) : message :=
  [Lit "Got "; Int Ti_size; Lit " ion temperatures and expected ";
   Int n_species; Lit "."].

Definition msg_ion_counts (ifract : list float64) (n_species Ti_size n_ion_vel : nat)
    : message :=
  [Lit "Inconsistent number of species in ifract ("; Floats ifract;
   Lit "), ion_species ("; Int n_species; Lit "), Ti ("; Int Ti_size;
   Lit "), and/or ion_vel ("; Int n_ion_vel; Lit ")."].

Definition msg_electron_counts (efract_size Te_size n_electron_vel : nat) : message :=
  [Lit "Inconsistent number of electron populations in efract (";
   Int efract_size; Lit "), Te ("; Int Te_size; Lit "), or electron velocity (";
   Int n_electron_vel; Lit ")."].

(** The loop [for ii, ion in enumerate(ion_species)] over the list
    object [l]; [idxs] are the indices still to visit. *)
Fixpoint condition_ion_species (l : loc) (idxs : list nat) : M unit :=
  match idxs with
  | [] => ret tt
  | ii :: rest =>
      xs <~ get_list l ;;
      match xs !! ii with
      | None => ret tt
      | Some (PObj _) => condition_ion_species l rest
      | Some (PStr ion) =>
          p <~ lift (Particle_new ion) ;;
          _ <~ list_setitem l ii (PObj p) ;;
          condition_ion_species l rest
      end
  end.

Definition msg_no_attribute : message :=
  [Lit "'str' object has no attribute 'charge_number'"].

(** The entries of the conditioned list, as [Particle] objects. *)
Fixpoint particles_of (xs : list particle_like) : result (list Particle) :=
  match xs with
  | [] => Ok []
  | PObj p :: xs' => ps <- particles_of xs' ;; Ok (p :: ps)
  | PStr _ :: _ => Raise (AttributeError msg_no_attribute)
  end.

(** [Te.size == 1]: one value for all the populations. *)
Definition condition_Te (Te : ndarray float64) (n_efract : nat) : result (list float64) :=
  match np.elements Te with
  | [t] => Ok (replicate n_efract t)
  | ts =>
      if negb (Nat.eqb (length ts) n_efract)
      then Raise (ValueError (msg_Te (length ts) n_efract))
      else Ok ts
  end.

Definition condition_Ti (Ti : ndarray float64) (n_species : nat) : result (list float64) :=
  match np.elements Ti with
  | [t] => Ok (replicate n_species t)
  | ts =>
      if negb (Nat.eqb (length ts) n_species)
      then Raise (ValueError (msg_Ti (length ts) n_species))
      else Ok ts
  end.

(** [np.sum(a, axis=0)] of a matrix with [cols] columns, given by rows. *)
Definition sum_axis0 (cols : nat) (rows : list (list complex128)) : list complex128 :=
  foldl (zip_with cadd) (replicate cols c0) rows.

(** [zbar = np.sum(ifract * ion_z)] *)
Definition mean_charge (ifract ion_z : list float64) : float64 :=
  np.sum (zip_with fmul ifract ion_z).

(** [ne = efract * n] *)
Definition electron_densities (efract : list float64) (n : float64) : list float64 :=
  List.map (fun f => (f * n)%f64) efract.

(** [ni = ifract * n / zbar] *)
Definition ion_densities (ifract : list float64) (n zbar : float64) : list float64 :=
  List.map (fun f => (f * n / zbar)%f64) ifract.

(** [ws = 2 * np.pi * C / wavelengths] *)
Definition angular_frequency (wavelength : float64) : float64 :=
  (f2 * np.pi * const_c / wavelength)%f64.

(** [np.sqrt(w ** 2 - wpe ** 2) / C] *)
Definition plasma_wavenumber (w wpe : float64) : float64 :=
  (fsqrt (fsquare w - fsquare wpe) / const_c)%f64.

(** [np.sqrt(ks ** 2 + kl ** 2 - 2 * ks * kl * np.cos(scattering_angle))] *)
Definition scattering_wavenumber (kl scattering_angle ks : float64) : float64 :=
  fsqrt (fsquare ks + fsquare kl - f2 * ks * kl * fcos scattering_angle)%f64.

(** [w - np.matmul(vel, np.outer(k, k_vec).T)], one row per population. *)
Definition doppler_shifted (w k : list float64) (k_vec : vec3) (vel : list vec3)
    : list (list float64) :=
  List.map (fun v => zip_with (fun wj kj => (wj - dot v (vscale kj k_vec))%f64) w k) vel.

(** [np.sqrt(2) * wpe / np.outer(k, vTe)], one row per wavelength. *)
Definition scattering_parameter (wpe : float64) (k vTe : list float64)
    : list (list float64) :=
  List.map (fun kj => List.map (fun v => (fsqrt f2 * wpe / (kj * v))%f64) vTe) k.

(** [np.outer(1 / vT, 1 / k) * w_pop], one row per population. *)
Definition phase_velocities (vT k : list float64) (w_pop : list (list float64))
    : list (list float64) :=
  zip_with (fun v row => zip_with (fun kj wj => (f1 / v * (f1 / kj) * wj)%f64) k row)
    vT w_pop.

(** [x[i]] for an index within the bounds. *)
Definition at_ (xs : list float64) (i : nat) : float64 := nth i xs NaN.
Definition row_ (xs : list (list float64)) (i : nat) : list float64 := nth i xs [].

(** The rows [chiE[i, :]]. *)
Definition electron_susceptibilities (efract : list float64)
    (w_e : list (list float64)) (k Te ne : list float64) : list (list complex128) :=
  List.map
    (fun i => zip_with
                (fun wj kj => permittivity_1D_Maxwellian wj kj (at_ Te i) (at_ ne i)
                                (PStr "e-") None)
                (row_ w_e i) k)
    (seq 0 (length efract)).

(** The rows [chiI[i, :]]. *)
Definition ion_susceptibilities (ion_species : list Particle)
    (w_i : list (list float64)) (k Ti ni ion_z : list float64) : list (list complex128) :=
  imap
    (fun i ion => zip_with
                (fun wj kj => permittivity_1D_Maxwellian wj kj (at_ Ti i) (at_ ni i)
                                (PObj ion) (Some (at_ ion_z i)))
                (row_ w_i i) k)
    ion_species.

(** The rows [econtr[m, :]]. *)
Definition electron_contributions (efract k vTe : list float64)
    (sum_chiE epsilon : list complex128) (xe : list (list float64))
    : list (list complex128) :=
  List.map
    (fun m =>
       zip_with
         (fun kj '(chi, eps, x) =>
            c_of_real
              (at_ efract m
               * (f2 * fsqrt np.pi / kj / at_ vTe m
                  * fsquare (cabs (csub c1 (cdiv chi eps)))
                  * fexp (- fsquare x)))%f64)
         k (zip (zip sum_chiE epsilon) (row_ xe m)))
    (seq 0 (length efract)).

(** The rows [icontr[m, :]]. *)
Definition ion_contributions (ifract k vTi ion_z : list float64)
    (sum_chiE epsilon : list complex128) (xi : list (list float64))
    : list (list complex128) :=
  List.map
    (fun m =>
       zip_with
         (fun kj '(chi, eps, x) =>
            c_of_real
              (at_ ifract m
               * (f2 * fsqrt np.pi * at_ ion_z m / kj / at_ vTi m
                  * fsquare (cabs (cdiv chi eps))
                  * fexp (- fsquare x)))%f64)
         k (zip (zip sum_chiE epsilon) (row_ xi m)))
    (seq 0 (length ifract)).

(** The part of [spectral_density] after the arguments are conditioned
    and checked: from "Ensure unit vectors are normalized" to the end. *)
Definition spectrum
    (wavelengths : list float64) (probe_wavelength n : float64)
    (Te Ti efract ifract : list float64) (ion_species : list Particle)
    (electron_vel ion_vel : list vec3) (probe_vec scatter_vec : vec3)
    : float64 * list float64 :=
  let probe_vec := normalize probe_vec in
  let scatter_vec := normalize scatter_vec in
  let vTe := List.map (fun T => thermal_speed T (PStr "e-") None) Te in
  let vTi := zip_with (fun T ion => thermal_speed T (PObj ion) None) Ti ion_species in
  let ion_z := List.map (fun ion => Fin (IZR (charge_number ion))) (take (length Ti) ion_species) in
  let zbar := mean_charge ifract ion_z in
  let ne := electron_densities efract n in
  let ni := ion_densities ifract n zbar in
  let wpe := plasma_frequency n (PStr "e-") in
  let ws := List.map angular_frequency wavelengths in
  let wl := angular_frequency probe_wavelength in
  let w := List.map (fun x => (x - wl)%f64) ws in
  let ks := List.map (fun x => plasma_wavenumber x wpe) ws in
  let kl := plasma_wavenumber wl wpe in
  let scattering_angle := farccos (dot probe_vec scatter_vec) in
  let k := List.map (scattering_wavenumber kl scattering_angle) ks in
  let k_vec := vsub scatter_vec probe_vec in
  let w_e := doppler_shifted w k k_vec electron_vel in
  let w_i := doppler_shifted w k k_vec ion_vel in
  let alpha := scattering_parameter wpe k vTe in
  let xe := phase_velocities vTe k w_e in
  let xi := phase_velocities vTi k w_i in
  let chiE := electron_susceptibilities efract w_e k Te ne in
  let chiI := ion_susceptibilities ion_species w_i k Ti ni ion_z in
  let sum_chiE := sum_axis0 (length w) chiE in
  let epsilon := zip_with cadd (List.map (cadd c1) sum_chiE) (sum_axis0 (length w) chiI) in
  let econtr := electron_contributions efract k vTe sum_chiE epsilon xe in
  let icontr := ion_contributions ifract k vTi ion_z sum_chiE epsilon xi in
  let Skw :=
    List.map creal
      (zip_with cadd (sum_axis0 (length w) econtr) (sum_axis0 (length w) icontr)) in
  (np.mean (concat alpha), Skw).

(** [np.ones(1)] when the fractions are [None]. *)
Definition fract_or_ones (fract : option (list float64)) : list float64 :=
  match fract with
  | None => [f1]
  | Some xs => xs
  end.

(** [np.zeros([size, 3])] when the velocities are [None]. *)
Definition vel_or_zeros (vel : option (list vec3)) (size : nat) : list vec3 :=
  match vel with
  | None => replicate size zero_vel
  | Some v => v
  end.

(** [if isinstance(ion_species, (str, Particle)): ion_species = [ion_species]] *)
Definition as_list (ion_species : ion_species_arg) : M loc :=
  match ion_species with
  | AStr s => new_list [PStr s]
  | AParticle p => new_list [PObj p]
  | AList l => ret l
  end.

Definition spectral_density
    (wavelengths : list float64) (probe_wavelength n : float64)
    (Te Ti : ndarray float64) (efract ifract : option (list float64))
    (ion_species : ion_species_arg)
    (electron_vel ion_vel : option (list vec3)) (probe_vec scatter_vec : vec3)
    : M (float64 * list float64) :=
  let efract := fract_or_ones efract in
  let ifract := fract_or_ones ifract in
  let electron_vel := vel_or_zeros electron_vel (length efract) in
  let ion_vel := vel_or_zeros ion_vel (length ifract) in
  ion_species <~ as_list ion_species ;;
  species0 <~ get_list ion_species ;;
  _ <~ (if Nat.eqb (length species0) 0 then raise (ValueError msg_no_species)
        else ret tt) ;;
  _ <~ condition_ion_species ion_species (seq 0 (length species0)) ;;
  species <~ get_list ion_species ;;
  Te <~ lift (condition_Te Te (length efract)) ;;
  Ti <~ lift (condition_Ti Ti (length species)) ;;
  _ <~ (if negb (Nat.eqb (length species) (length ifract))
           || negb (Nat.eqb (length ion_vel) (length ifract))
           || negb (Nat.eqb (length Ti) (length ifract))
        then raise (ValueError
               (msg_ion_counts ifract (length species) (length Ti) (length ion_vel)))
        else ret tt) ;;
  _ <~ (if negb (Nat.eqb (length electron_vel) (length efract))
           || negb (Nat.eqb (length Te) (length efract))
        then raise (ValueError
               (msg_electron_counts (length efract) (length Te) (length electron_vel)))
        else ret tt) ;;
  particles <~ lift (particles_of species) ;;
  ret (spectrum wavelengths probe_wavelength n Te Ti efract ifract particles
         electron_vel ion_vel probe_vec scatter_vec).

End thomson.
End thomson.

(* ================================================================== *)
(** * A concrete formulary

    The imported functions by their textbook formulas, in units where
    [hbar = 1], [eps0 = 1], [k_B = 1], [e = 1] and the electron mass is
    [1]. It serves to run the two modules on concrete arguments. *)

Module natural_units.

Definition electron : Particle :=
  {| symbol := "e-"; mass := f1; charge := Fin (-1); charge_number := (-1)%Z |}.
Definition positron : Particle :=
  {| symbol := "e+"; mass := f1; charge := f1; charge_number := 1%Z |}.
Definition proton : Particle :=
  {| symbol := "p+"; mass := Fin 1836; charge := f1; charge_number := 1%Z |}.
Definition alpha_particle : Particle :=
  {| symbol := "He-4 2+"; mass := Fin 7294; charge := f2; charge_number := 2%Z |}.

(** [Particle(s)] for the symbols this table knows. *)
Definition Particle_new (s : string) : result Particle :=
  if String.eqb s "e-" then Ok electron
  else if String.eqb s "e+" then Ok positron
  else if String.eqb s "p+" || String.eqb s "H+" then Ok proton
  else if String.eqb s "He-4 2+" then Ok alpha_particle
  else Raise (InvalidParticleError [Str s; Lit " does not correspond to a valid particle."]).

Definition mass_of (p : particle_like) (override : option float64) : float64 :=
  match override, p with
  | Some m, _ => m
  | None, PObj p => mass p
  | None, PStr s =>
      match Particle_new s with
      | Ok p => mass p
      | Raise _ => NaN
      end
  end.

Definition c_light : float64 := Fin 137.
Definition eps0 : float64 := f1.

(** [sqrt(eps0 k_B T / (n e^2))] *)
Definition Debye_length (T n : float64) : float64 :=
  fsqrt (eps0 * T / n)%f64.

(** [(3 / (4 pi n)) ** (1 / 3)] *)
Definition Wigner_Seitz_radius (n : float64) : float64 :=
  match (Fin 3 / (f4 * np.pi * n))%f64 with
  | Fin a => if Rltb 0 a then Fin (Rpower a (/ 3)) else if Reqb a 0 then f0 else NaN
  | PInf => PInf
  | _ => NaN
  end.

(** The most probable speed, [sqrt(2 k_B T / m)]. *)
Definition thermal_speed (T : float64) (p : particle_like) (m : option float64) : float64 :=
  fsqrt (f2 * T / mass_of p m)%f64.

Definition reduced_mass (a b : Particle) : float64 :=
  (mass a * mass b / (mass a + mass b))%f64.

(** [sqrt(n e^2 / (eps0 m))] *)
Definition plasma_frequency (n : float64) (p : particle_like) : float64 :=
  fsqrt (n / (eps0 * mass_of p None))%f64.

Definition _check_relativistic (V : ndarray float64) (funcname : string) : result unit :=
  if np.any (np.isnan V) then
    Raise (ValueError [Str funcname; Lit " includes NaN values."])
  else if np.any (np.map (fun v => negb (flt (fabs v) c_light)) V) then
    Raise (RelativityError [Str funcname; Lit " is at or above the speed of light."])
  else Ok tt.

(** The susceptibility of a cold population, [- wp^2 / w^2]. *)
Definition permittivity_1D_Maxwellian (omega kWave T n : float64) (p : particle_like)
    (z_mean : option float64) : complex128 :=
  c_of_real (- (fsquare (plasma_frequency n p) / fsquare omega))%f64.

Definition collisions_formulary : collisions.Formulary :=
  {| collisions.hbar := f1;
     collisions.eps0 := eps0;
     collisions.Debye_length := Debye_length;
     collisions.Wigner_Seitz_radius := Wigner_Seitz_radius;
     collisions.thermal_speed := thermal_speed;
     collisions.reduced_mass := reduced_mass;
     collisions._check_relativistic := _check_relativistic |}.

Definition thomson_formulary : thomson.Formulary :=
  {| thomson.const_c := c_light;
     thomson.Particle_new := Particle_new;
     thomson.thermal_speed := thermal_speed;
     thomson.plasma_frequency := plasma_frequency;
     thomson.permittivity_1D_Maxwellian := permittivity_1D_Maxwellian |}.

End natural_units.

(* ================================================================== *)
(** * Definitions used in the statements *)

(** The value that replaces a not-a-number velocity. *)
Definition or_thermal (y v : float64) : float64 := if fisnan v then y else v.

(** [max(a, b)] the way the code takes it: [a if a > b else b]. *)
Definition fmaximum (a b : float64) : float64 := if fgt a b then a else b.

(** [(a ** 2 + b ** 2) ** (1 / 2)] on one element. *)
Definition interpolate (a b : float64) : float64 := fpow_half (fsquare a + fsquare b)%f64.

(** A scalar [bmin] repeated to the length of an array [bmax]. *)
Definition fit_to (bmax bmin : ndarray float64) : ndarray float64 :=
  match bmin, bmax with
  | Scalar x, Array ys => np.repeat x (length ys)
  | _, _ => bmin
  end.

Module collisions_spec.
Section collisions_spec.
Import collisions.
Context `{Formulary}.

(** de Broglie wavelength [hbar / (2 mu V)]. *)
Definition lambda_B (mu v : float64) : float64 := (hbar / (f2 * mu * v))%f64.

(** Distance of closest approach [q1 q2 / (4 pi eps0 mu V^2)], with
    [q1], [q2] the magnitudes of the two charges. *)
Definition rho_perp (q1 q2 mu v : float64) : float64 :=
  (q1 * q2 / (f4 * np.pi * eps0 * mu * fsquare v))%f64.

(** The two impact parameters of a method, at one velocity, from the
    Debye length and the ion-sphere radius. *)
Definition bmin_classical (q1 q2 mu v : float64) : float64 :=
  fmaximum (rho_perp q1 q2 mu v) (lambda_B mu v).

Definition bmin_interp (q1 q2 mu v : float64) : float64 :=
  interpolate (lambda_B mu v) (rho_perp q1 q2 mu v).

(** The methods by the row of the table they share. *)
Definition classical_names : list string := ["classical"; "ls"].
Definition min_interp_names : list string :=
  ["ls_min_interp"; "GMS-1"; "ls_clamp_mininterp"; "GMS-3"; "hls_min_interp"; "GMS-4"].

(** A computation that does not end in the missing-[z_mean] error. *)
Definition no_z_mean_error {A : Type} (m : result A) : Prop :=
  m <> Raise (ValueError msg_z_mean).

End collisions_spec.
End collisions_spec.

(** [x <= y]; [False] when either side is not a number. *)
Definition fle (x y : float64) : bool :=
  match x, y with
  | NaN, _ | _, NaN => false
  | Fin a, Fin b => Rleb a b
  | NInf, _ => true
  | _, PInf => true
  | _, _ => false
  end.

(** A finite, strictly positive value. *)
Definition positive_finite (x : float64) : Prop :=
  exists r : R, x = Fin r /\ (0 < r)%R.

(** The clamp of ["ls_clamp_mininterp"] on one element. *)
Definition clamp_at_2 (x : float64) : float64 := if flt x f2 then f2 else x.

(** The hyperbolic formula on one ratio [bmax / bmin], over the reals:
    the claim's words for the hyperbolic family. *)
Definition hyperbolic (r : float64) : float64 := (fhalf * flog (f1 + fsquare r))%f64.

(** [0.5 * np.log(1 + x)] on one element. *)
Definition half_log_1p (x : float64) : float64 := (fhalf * flog (f1 + x))%f64.

(** [0.5 * np.log(1 + bmax ** 2 / bmin ** 2)] on one pair of impact
    parameters, the squares and their quotient as [float64] holds
    them. *)
Definition hyperbolic64 (bmax bmin : float64) : float64 :=
  half_log_1p (fdiv64 (fsquare64 bmax) (fsquare64 bmin)).

(** An array whose elements [float64] holds as they are. *)
Definition within_range64 (a : ndarray float64) : Prop := np.map range64 a = a.

(** Arguments of a concrete call in the units of [natural_units]: an
    electron and a positron at relative velocity 1, density 1, and the two
    temperatures 1 and 256. *)
Module run.
Definition nu : collisions.Formulary := natural_units.collisions_formulary.
Definition pair : Particle * Particle :=
  (natural_units.electron, natural_units.positron).
Definition T1 : ndarray float64 := Scalar (Fin 1).
Definition T2 : ndarray float64 := Array [Fin 1; Fin 256].
Definition n1 : ndarray float64 := Scalar (Fin 1).
Definition V1 : option (ndarray float64) := Some (Scalar (Fin 1)).
Definition unset : ndarray float64 := Scalar NaN.

(** What [_boilerPlate] returns on these arguments. *)
Definition bp1 (T : ndarray float64) : collisions.boilerPlate :=
  {| collisions.bp_T := T;
     collisions.bp_masses := (f1, f1);
     collisions.bp_charges := (f1, f1);
     collisions.bp_reduced_mass := fhalf;
     collisions.bp_V := Scalar (Fin 1) |}.

(** The Coulomb logarithm of the classical method at the two
    temperatures. *)
Definition ln_Lambda_T2 : ndarray float64 := Array [Fin 0; Fin (ln 16)].

(** The interpolated [bmin] at temperature 1. *)
Definition bmin_T1 : R := sqrt (1 * 1 + / (2 * PI) * / (2 * PI)).

(** A thin plasma: the density is the smallest normal [float64],
    [2^-1022], and the relative velocity is 4. The Debye length is
    [2^511], whose square [float64] holds; the quotient of the squares
    it does not. *)
Definition n_thin : ndarray float64 := Scalar (Fin (/ 2 ^ 1022)).
Definition V4 : option (ndarray float64) := Some (Scalar (Fin 4)).
Definition bmax_thin : R := 2 ^ 511.
Definition bmin_thin : R := sqrt (/ 4 * / 4 + / (32 * PI) * / (32 * PI)).
Definition bp4 (T : ndarray float64) : collisions.boilerPlate :=
  {| collisions.bp_T := T;
     collisions.bp_masses := (f1, f1);
     collisions.bp_charges := (f1, f1);
     collisions.bp_reduced_mass := fhalf;
     collisions.bp_V := Scalar (Fin 4) |}.
End run.

(** Some element that is a number is below [c]. *)
Definition some_below (c : float64) (a : ndarray float64) : Prop :=
  exists x, In x (np.elements a) /\ fisnan x = false /\ flt x c = true.

(** A vector of three finite components. *)
Definition finite_vec (v : thomson.vec3) : Prop :=
  exists a b c : R, v = (Fin a, Fin b, Fin c).

(** A component whose square [float64] holds as it is: zero, or of a
    magnitude from [2^-537] to [2^511]. *)
Definition ordinary (r : R) : Prop :=
  r = 0%R \/ (/ 2 ^ 537 <= Rabs r <= 2 ^ 511)%R.


(** The sum of a list of reals. *)
Definition Rsum (xs : list R) : R := fold_right Rplus 0%R xs.

Module thomson_spec.
Section thomson_spec.
Import thomson.
Context `{Formulary}.

(** The [Particle] that an entry of [ion_species] stands for. *)
Definition resolves (x : particle_like) (p : Particle) : Prop :=
  match x with
  | PStr s => Particle_new s = Ok p
  | PObj p' => p' = p
  end.

(** The arguments that pass [validate_quantities] (lines 27-33): no
    wavelength, density or temperature is negative. *)
Definition admitted (wavelengths : list float64) (probe_wavelength n : float64)
    (Te Ti : ndarray float64) : Prop :=
  not_negative (Array wavelengths) /\ not_negative (Scalar probe_wavelength)
  /\ not_negative (Scalar n) /\ not_negative Te /\ not_negative Ti.

(** [spectral_density] from "Condition Te" on, once [ion_species] is a
    list of [Particle] objects. *)
Definition checked_spectrum
    (wavelengths : list float64) (probe_wavelength n : float64)
    (Te Ti : ndarray float64) (efract ifract : list float64)
    (particles : list Particle)
    (electron_vel ion_vel : list vec3) (probe_vec scatter_vec : vec3)
    : result (float64 * list float64) :=
  Te <- condition_Te Te (length efract) ;;
  Ti <- condition_Ti Ti (length particles) ;;
  _ <- (if negb (Nat.eqb (length particles) (length ifract))
           || negb (Nat.eqb (length ion_vel) (length ifract))
           || negb (Nat.eqb (length Ti) (length ifract))
        then Raise (ValueError
               (msg_ion_counts ifract (length particles) (length Ti) (length ion_vel)))
        else Ok tt) ;;
  _ <- (if negb (Nat.eqb (length electron_vel) (length efract))
           || negb (Nat.eqb (length Te) (length efract))
        then Raise (ValueError
               (msg_electron_counts (length efract) (length Te) (length electron_vel)))
        else Ok tt) ;;
  Ok (spectrum wavelengths probe_wavelength n Te Ti efract ifract particles
        electron_vel ion_vel probe_vec scatter_vec).

(** The scattering wavenumbers [k], one per wavelength, as [spectrum]
    computes them. *)
Definition wavenumbers (wavelengths : list float64) (probe_wavelength n : float64)
    (probe_vec scatter_vec : vec3) : list float64 :=
  let probe_vec := normalize probe_vec in
  let scatter_vec := normalize scatter_vec in
  let wpe := plasma_frequency n (PStr "e-") in
  let ws := List.map angular_frequency wavelengths in
  let wl := angular_frequency probe_wavelength in
  let ks := List.map (fun x => plasma_wavenumber x wpe) ws in
  let kl := plasma_wavenumber wl wpe in
  let scattering_angle := farccos (dot probe_vec scatter_vec) in
  List.map (scattering_wavenumber kl scattering_angle) ks.

(** The electron thermal speeds [vTe], one per population. *)
Definition electron_thermal_speeds (Te : list float64) : list float64 :=
  List.map (fun T => thermal_speed T (PStr "e-") None) Te.

(** [sqrt(2) * wpe / (k * vTe)] for one wavelength and one population. *)
Definition alpha_entry (wpe kj vTe : float64) : float64 :=
  (fsqrt f2 * wpe / (kj * vTe))%f64.

(** The mean over the wavelengths and over the electron populations. *)
Definition alpha_mean (wpe : float64) (k vTe : list float64) : float64 :=
  np.mean (concat (List.map (fun kj => List.map (alpha_entry wpe kj) vTe) k)).

(** The mean across the wavelengths alone, for one thermal speed: the
    claim's words for [alpha]. *)
Definition alpha_across_wavelengths (wpe : float64) (k : list float64) (vTe : float64)
    : float64 :=
  np.mean (List.map (fun kj => alpha_entry wpe kj vTe) k).

(** The population counts that the checks compare: one temperature or
    one per population, and as many species, ion velocities and ion
    fractions, and as many electron velocities as electron fractions. *)
Definition counts_agree
    (Te Ti : ndarray float64) (efract ifract : list float64)
    (particles : list Particle) (electron_vel ion_vel : list vec3) : Prop :=
  (np.size Te = 1 \/ np.size Te = length efract)
  /\ (np.size Ti = 1 \/ np.size Ti = length particles)
  /\ length particles = length ifract
  /\ length ion_vel = length ifract
  /\ length electron_vel = length efract.

End thomson_spec.
End thomson_spec.

(** A call of [spectral_density] in the units of [natural_units]: one
    wavelength, the probe at the same wavelength, and the list object [l0]
    as [ion_species]. *)
Module thomson_run.
Definition nu : thomson.Formulary := natural_units.thomson_formulary.
Definition l0 : thomson.loc := 1%positive.
Definition heap_H : gmap positive (list particle_like) := {[ l0 := [PStr "H+"] ]}.
Definition lambda0 : float64 := Fin (PI * 137).
Definition half_half : list float64 := [fhalf; fhalf].

(** Two electron populations, of temperatures 1/2 and 2. *)
Definition Te2 : ndarray float64 := Array [fhalf; f2].

(** The scattering wavenumber of this call. *)
Definition kappa0 : R := (sqrt 6 / 137)%R.

(** A scattering direction at an angle to the probe that is not a right
    angle, the scattering wavenumber for it, and a factor whose square is
    beyond the largest [float64]. *)
Definition slanted_scatter_vec : thomson.vec3 := (Fin 3, Fin 4, Fin 0).
Definition kappa_slanted : R := (sqrt (12 / 5) / 137)%R.
Definition big_scale : R := (2 ^ 600)%R.

(** The [alpha] of a call that returns. *)
Definition returned_alpha
    (out : gmap positive (list particle_like) * result (float64 * list float64))
    : option float64 :=
  match snd out with
  | Ok res => Some (fst res)
  | Raise _ => None
  end.
End thomson_run.



(* ================================================================== *)
(** * plasmapy/formulary/collisions.py: collision rates and macroscopic
      properties

    The functions below [impact_parameter] in [collisions.py]. They take
    [species] as a tuple of two strings, the way their docstrings ask for
    it, and hand it to the functions above, whose decorator
    [particle_input] turns the strings into [Particle] objects. *)

Module transport.

(** What this part of [collisions.py] imports besides the fields of
    [collisions.Formulary]: the constants [m_e], [e], [k_B] of
    [astropy.constants.si]; the conversion that [particles.particle_input]
    applies to the argument [species]; [particles.charge_number] and
    [particles.particle_mass]; [thermal_deBroglie_wavelength] and
    [chemical_potential] of [plasmapy.formulary.quantum] and
    [Fermi_integral] of [plasmapy.formulary.mathematics]. The first and
    the last are given on one element; [chemical_potential] is the call
    on the arrays, which may raise. *)
Class Particles : Type := {
  m_e : float64;
  e : float64;
  k_B : float64;
  particle_input : string * string -> result (Particle * Particle);
  charge_number_of : string -> result Z;
  particle_mass : string -> result float64;
  thermal_deBroglie_wavelength : float64 -> float64;
  chemical_potential : ndarray float64 -> ndarray float64 -> result (ndarray float64);
  Fermi_integral : float64 -> float64 -> complex128;
}.

(** ** Output and warnings

    What a call leaves behind besides its value: the lines it prints and
    the warnings it emits, in order. They stay when the call raises. *)
Inductive event : Type :=
| Printed (fields : message)
| Warned (w : warning).

Definition W (A : Type) : Type := list event * result A.

Definition wret {A : Type} (a : A) : W A := ([], Ok a).
Definition wlift {A : Type} (r : result A) : W A := ([], r).
Definition wbind {A B : Type} (m : W A) (k : A -> W B) : W B :=
  match m with
  | (ev, Ok a) => (ev ++ fst (k a), snd (k a))
  | (ev, Raise x) => (ev, Raise x)
  end.

Notation "x <-- m ;; k" := (wbind m (fun x => k))
  (at level 100, m at next level, right associativity).

(** [print(...)] *)
Definition print (fields : message) : W unit := ([Printed fields], Ok tt).

(** A call of [Coulomb_logarithm]: its warnings are emitted, its value
    is kept. *)
Definition warned {A : Type} (r : result (A * list warning)) : W A :=
  match r with
  | Ok (a, ws) => (List.map Warned ws, Ok a)
  | Raise x => ([], Raise x)
  end.

(** ** Arithmetic on arrays *)

Definition multiply := np.broadcast fmul.

(** [x ** 3] *)
Definition fcube (x : float64) : float64 := (x * x * x)%f64.

(** Multiplication of [complex128] values. *)
Definition cmul (a b : complex128) : complex128 :=
  ((fst a * fst b - snd a * snd b)%f64, (fst a * snd b + snd a * fst b)%f64).

(** [np.any(x)] for [x] that is [None] or numbers: some element is not
    zero. [NaN] is not zero. *)
Definition any_nonzero (x : option (ndarray float64)) : bool :=
  match x with
  | None => false
  | Some a => existsb (fun v => negb (feq v f0)) (np.elements a)
  end.

(** [np.all(np.imag(x) == 0)] *)
Definition all_real (x : ndarray complex128) : bool :=
  forallb (fun z => feq (snd z) f0) (np.elements x).

Section transport.
Import collisions.
Context `{Formulary} `{Particles}.

(** A call, with [species] as strings, of a function that
    [particle_input] decorates. *)
Definition with_particles {A : Type} (species : string * string)
    (f : Particle * Particle -> result A) : result A :=
  ps <- particle_input species ;;
  f ps.

(** [s in ("e", "e-")] *)
Definition is_electron (s : string) : bool := str_in s ["e"; "e-"].

(** [pi * (2 * impact_param) ** 2]. The decorator refuses an impact
    parameter with a negative value before the body runs: the function is
    written for one that is [not_negative], which is what the callers of
    this file pass when the masses and [eps0] are positive. *)
Definition Coulomb_cross_section (impact_param : ndarray float64) : ndarray float64 :=
  np.map (fun b => (np.pi * fsquare (f2 * b))%f64) impact_param.

(** The fields of [print(T, n, species, z_mean, method)]. *)
Definition printed_arguments (T n : ndarray float64) (species : string * string)
    (z_mean : ndarray float64) (method : string) : message :=
  [Floats (np.elements T); Floats (np.elements n); Str (fst species);
   Str (snd species); Floats (np.elements z_mean); Str method].

Definition collision_frequency
    (T n : ndarray float64) (species : string * string)
    (z_mean V : ndarray float64) (method : string) : W (ndarray float64) :=
  bp <-- wlift (with_particles species (fun ps => _boilerPlate T ps (Some V))) ;;
  let V := written_V V T (bp_V bp) in
  let T := bp_T bp in
  let reduced_mass := bp_reduced_mass bp in
  let V_reduced := bp_V bp in
  r <--
    (if is_electron (fst species) && is_electron (snd species) then
       V <-- wlift (_replaceNanVwithThermalV (Some V) T reduced_mass) ;;
       bPerp <-- wlift (with_particles species
                          (fun ps => impact_parameter_perp T ps V_reduced)) ;;
       _ <-- print (printed_arguments T n species z_mean method) ;;
       cou_log <-- warned (with_particles species
                             (fun ps => Coulomb_logarithm T n ps z_mean (Some V) method)) ;;
       wret (V, bPerp, cou_log)
     else if is_electron (fst species) || is_electron (snd species) then
       V <-- wlift (_replaceNanVwithThermalV (Some V) T m_e) ;;
       b <-- wlift (with_particles species
                      (fun ps => impact_parameter_perp T ps V)) ;;
       let bPerp := np.map (fun x => (x * reduced_mass / m_e)%f64) b in
       cou_log <-- warned (with_particles species
                             (fun ps => Coulomb_logarithm T n ps z_mean (Some V) method)) ;;
       wret (V, bPerp, cou_log)
     else
       V <-- wlift (_replaceNanVwithThermalV (Some V) T reduced_mass) ;;
       bPerp <-- wlift (with_particles species
                          (fun ps => impact_parameter_perp T ps V)) ;;
       cou_log <-- warned (with_particles species
                             (fun ps => Coulomb_logarithm T n ps z_mean (Some V) method)) ;;
       wret (V, bPerp, cou_log)) ;;
  let V := fst (fst r) in
  let bPerp := snd (fst r) in
  let cou_log := snd r in
  let sigma := Coulomb_cross_section bPerp in
  wlift (a <- multiply n sigma ;;
         b <- multiply a V ;;
         multiply b cou_log).

(** [4 / np.sqrt(np.pi) / 3] *)
Definition electron_coeff : float64 := (f4 / fsqrt np.pi / Fin 3)%f64.

(** [np.sqrt(8 / np.pi) / 3 / 4] *)
Definition ion_coeff : float64 := (fsqrt (Fin 8 / np.pi) / Fin 3 / f4)%f64.

(** The part that the two fundamental frequencies share, from the call of
    [collision_frequency] on. *)
Definition fundamental_freq (coeff : float64)
    (T n : ndarray float64) (species : string * string) (Z_i : Z)
    (coulomb_log : option (ndarray float64)) (V : ndarray float64)
    (coulomb_log_method : string) : W (ndarray float64) :=
  let z_mean := Scalar (Fin (IZR Z_i)) in
  nu <-- collision_frequency T n species z_mean V coulomb_log_method ;;
  if any_nonzero coulomb_log then
    cLog <-- warned (with_particles species
                       (fun ps => Coulomb_logarithm T n ps z_mean (Some V)
                                    coulomb_log_method)) ;;
    nu_mod <-- wlift (a <- multiply nu (default (Scalar NaN) coulomb_log) ;;
                      np.divide a cLog) ;;
    wret (np.map (fmul coeff) nu_mod)
  else wret (np.map (fmul coeff) nu).

Definition fundamental_electron_collision_freq
    (T_e n_e : ndarray float64) (ion : string)
    (coulomb_log V : option (ndarray float64)) (coulomb_log_method : string)
    : W (ndarray float64) :=
  V <-- wlift (_replaceNanVwithThermalV V T_e m_e) ;;
  let species := (ion, "e-") in
  Z_i <-- wlift (charge_number_of ion) ;;
  fundamental_freq electron_coeff T_e n_e species Z_i coulomb_log V coulomb_log_method.

Definition fundamental_ion_collision_freq
    (T_i n_i : ndarray float64) (ion : string)
    (coulomb_log V : option (ndarray float64)) (coulomb_log_method : string)
    : W (ndarray float64) :=
  m_i <-- wlift (particle_mass ion) ;;
  let species := (ion, ion) in
  V <-- wlift (_replaceNanVwithThermalV V T_i m_i) ;;
  Z_i <-- wlift (charge_number_of ion) ;;
  fundamental_freq ion_coeff T_i n_i species Z_i coulomb_log V coulomb_log_method.

Definition mean_free_path
    (T n_e : ndarray float64) (species : string * string)
    (z_mean V : ndarray float64) (method : string) : W (ndarray float64) :=
  freq <-- collision_frequency T n_e species z_mean V method ;;
  bp <-- wlift (with_particles species (fun ps => _boilerPlate T ps (Some V))) ;;
  let V := bp_V bp in
  wlift (np.divide V freq).

Definition Spitzer_resistivity
    (T n : ndarray float64) (species : string * string)
    (z_mean V : ndarray float64) (method : string) : W (ndarray float64) :=
  freq <-- collision_frequency T n species z_mean V method ;;
  bp <-- wlift (with_particles species (fun ps => _boilerPlate T ps (Some V))) ;;
  let charges := bp_charges bp in
  let reduced_mass := bp_reduced_mass bp in
  unset <-- wlift (np.truth (np.isnan z_mean)) ;;
  if (unset : bool) then
    wlift (np.divide (np.map (fun f => (f * reduced_mass)%f64) freq)
             (np.map (fun x => (x * fst charges * snd charges)%f64) n))
  else
    wlift (d <- multiply n (np.map (fun z => fsquare (z * e)%f64) z_mean) ;;
           np.divide (np.map (fun f => (f * reduced_mass)%f64) freq) d).

Definition mobility
    (T n_e : ndarray float64) (species : string * string)
    (z_mean V : ndarray float64) (method : string) : W (ndarray float64) :=
  freq <-- collision_frequency T n_e species z_mean V method ;;
  bp <-- wlift (with_particles species (fun ps => _boilerPlate T ps (Some V))) ;;
  let charges := bp_charges bp in
  let reduced_mass := bp_reduced_mass bp in
  unset <-- wlift (np.truth (np.isnan z_mean)) ;;
  let z_val :=
    if (unset : bool) then Scalar ((fst charges + snd charges) / f2)%f64
    else np.map (fun z => (z * e)%f64) z_mean in
  wlift (np.divide z_val (np.map (fun f => (reduced_mass * f)%f64) freq)).

Definition Knudsen_number
    (characteristic_length T n_e : ndarray float64) (species : string * string)
    (z_mean V : ndarray float64) (method : string) : W (ndarray float64) :=
  path_length <-- mean_free_path T n_e species z_mean V method ;;
  wlift (np.divide path_length characteristic_length).

Definition msg_imaginary : message :=
  [Lit "Kinetic energy should not be imaginary.Something went horribly wrong."].

Definition msg_coupling_method (method : string) : message :=
  [Lit "Keyword 'method' must be either 'classical' or 'quantum', instead of '";
   Str method; Lit "'."].

(** [(Z1 + Z2) / 2] of the magnitudes of the two charge numbers. *)
Definition mean_charge_number (Z1 Z2 : Z) : float64 :=
  (Fin (IZR (Z.abs Z1 + Z.abs Z2)) / f2)%f64.

(** The quantum kinetic energy, [2 k_B T / (n_e lambda^3 F_{3/2}(mu))]. *)
Definition quantum_kinetic_energy (T n_e : ndarray float64) : result (ndarray float64) :=
  let lambda_deBroglie := np.map thermal_deBroglie_wavelength T in
  chem_potential <- chemical_potential n_e T ;;
  let fermi_integral := np.map (fun mu => Fermi_integral mu (Fin (3 / 2))) chem_potential in
  nl <- multiply n_e (np.map fcube lambda_deBroglie) ;;
  denominator <- np.broadcast (fun x z => cmul (c_of_real x) z) nl fermi_integral ;;
  kinetic_energy <-
    np.broadcast (fun x z => cdiv (c_of_real x) z)
      (np.map (fun t => (f2 * k_B * t)%f64) T) denominator ;;
  if all_real kinetic_energy then Ok (np.map creal kinetic_energy)
  else Raise (ValueError msg_imaginary).

Definition coupling_parameter
    (T n_e : ndarray float64) (species : string * string)
    (z_mean V : ndarray float64) (method : string) : result (ndarray float64) :=
  bp <- with_particles species (fun ps => _boilerPlate T ps (Some V)) ;;
  let T := bp_T bp in
  let charges := bp_charges bp in
  unset <- np.truth (np.isnan z_mean) ;;
  radius <-
    (if (unset : bool) then
       Z1 <- charge_number_of (fst species) ;;
       Z2 <- charge_number_of (snd species) ;;
       let Z := mean_charge_number Z1 Z2 in
       let n_i := np.map (fun x => (x / Z)%f64) n_e in
       Ok (np.map Wigner_Seitz_radius n_i)
     else
       n_i <- np.divide n_e z_mean ;;
       Ok (np.map Wigner_Seitz_radius n_i)) ;;
  unset <- np.truth (np.isnan z_mean) ;;
  coulomb_energy <-
    (if (unset : bool) then
       Ok (np.map (fun r => (fst charges * snd charges / (f4 * np.pi * eps0 * r))%f64)
             radius)
     else
       np.divide (np.map (fun z => fsquare (z * e)%f64) z_mean)
         (np.map (fun r => (f4 * np.pi * eps0 * r)%f64) radius)) ;;
  kinetic_energy <-
    (if String.eqb method "classical" then Ok (np.map (fun t => (k_B * t)%f64) T)
     else if String.eqb method "quantum" then quantum_kinetic_energy T n_e
     else Raise (ValueError (msg_coupling_method method))) ;;
  np.divide coulomb_energy kinetic_energy.

End transport.
End transport.

(** ** The imports of the rates in the units of [natural_units]

    [e = 1], [k_B = 1] and the electron mass is [1]; ["e"] and ["p"] are
    accepted besides the symbols of [natural_units.Particle_new]. The
    thermal de Broglie wavelength is [sqrt(2 pi / T)] and the Fermi
    integral is that of the non-degenerate limit, [F_j(x) = exp(x)].
    [chemical_potential] is switched off in [plasmapy.formulary.quantum]:
    every call raises [NotImplementedError], whose text is left out. *)
Module natural_transport.

Definition particle (s : string) : result Particle :=
  if String.eqb s "e" then Ok natural_units.electron
  else if String.eqb s "p" then Ok natural_units.proton
  else natural_units.Particle_new s.

Definition particle_input (species : string * string) : result (Particle * Particle) :=
  p1 <- particle (fst species) ;;
  p2 <- particle (snd species) ;;
  Ok (p1, p2).

Definition charge_number_of (s : string) : result Z :=
  p <- particle s ;; Ok (charge_number p).

Definition particle_mass (s : string) : result float64 :=
  p <- particle s ;; Ok (mass p).

Definition thermal_deBroglie_wavelength (T : float64) : float64 :=
  fsqrt (f2 * np.pi / T)%f64.

Definition chemical_potential (n_e T : ndarray float64) : result (ndarray float64) :=
  Raise (NotImplementedError []).

Definition Fermi_integral (x j : float64) : complex128 := c_of_real (fexp x).

Definition particles : transport.Particles :=
  {| transport.m_e := f1;
     transport.e := f1;
     transport.k_B := f1;
     transport.particle_input := particle_input;
     transport.charge_number_of := charge_number_of;
     transport.particle_mass := particle_mass;
     transport.thermal_deBroglie_wavelength := thermal_deBroglie_wavelength;
     transport.chemical_potential := chemical_potential;
     transport.Fermi_integral := Fermi_integral |}.

End natural_transport.

(* ================================================================== *)
(** * More definitions used in statements *)

(** The value of a call that returns a value and its warnings. *)
Definition value_of {A B : Type} (r : result (A * B)) : result A :=
  p <- r ;; Ok (fst p).

(** The short names of the methods, each with the name it stands for. *)
Definition aliases : list (string * string) :=
  [("ls", "classical"); ("GMS-1", "ls_min_interp"); ("GMS-2", "ls_full_interp");
   ("GMS-3", "ls_clamp_mininterp"); ("GMS-4", "hls_min_interp");
   ("GMS-5", "hls_max_interp"); ("GMS-6", "hls_full_interp")].


(** Every method name that [impact_parameter] and [Coulomb_logarithm]
    know. *)
Definition known_methods : list string :=
  collisions.linear_methods ++ collisions.clamp_methods ++ collisions.hyperbolic_methods.

(** A particle of mass 1 and of charge 1 or -1, as the electron and the
    positron of [natural_units]. *)
Definition unit_particle (p : Particle) : Prop :=
  mass p = f1 /\ fabs (charge p) = f1.

(** Calls of the rates in the units of [natural_units]: temperature 256,
    density 1 and relative velocity 1, for the classical method. *)
Module transport_run.
Definition particles : transport.Particles := natural_transport.particles.
Definition T256 : ndarray float64 := Scalar (Fin 256).
Definition V_one : ndarray float64 := Scalar (Fin 1).

(** The Coulomb logarithm of these calls and its warning. *)
Definition ln_Lambda_256 : ndarray float64 := Scalar (Fin (ln 16)).
Definition strong_16 : list warning :=
  [CouplingWarning (collisions.msg_strong_coupling ln_Lambda_256)].

(** The distance of closest approach with the electron mass, the cross
    section and the collision frequency of an electron on a positron. *)
Definition b_run : R := (1 * 1 / (4 * PI * 1 * 1 * (1 * 1)))%R.
Definition sigma_run : R := (PI * (2 * b_run * (2 * b_run)))%R.
Definition freq_run : R := (1 * sigma_run * 1 * ln 16)%R.
End transport_run.
(* ================================================================== *)
(** * Facts about the NumPy layer *)

Section float64_facts.
Local Open Scope R_scope.

Lemma Rltb_true (a b : R) : a < b -> Rltb a b = true.
Proof. intros Hab. unfold Rltb. destruct (Rlt_dec a b); [reflexivity | contradiction]. Qed.

Lemma Rltb_false (a b : R) : b <= a -> Rltb a b = false.
Proof. intros Hab. unfold Rltb. destruct (Rlt_dec a b); [lra | reflexivity]. Qed.

Lemma Rltb_spec (a b : R) : Rltb a b = true <-> a < b.
Proof. unfold Rltb. destruct (Rlt_dec a b); split; intros; try easy. Qed.

Lemma Rleb_true (a b : R) : a <= b -> Rleb a b = true.
Proof. intros Hab. unfold Rleb. destruct (Rle_dec a b); [reflexivity | contradiction]. Qed.

Lemma Reqb_true (a b : R) : a = b -> Reqb a b = true.
Proof. intros Hab. unfold Reqb. destruct (Req_dec_T a b); [reflexivity | contradiction]. Qed.

Lemma Reqb_false (a b : R) : a <> b -> Reqb a b = false.
Proof. intros Hab. unfold Reqb. destruct (Req_dec_T a b); [contradiction | reflexivity]. Qed.

Lemma Rsign_pos (a : R) : 0 < a -> Rsign a = Pos.
Proof.
  intros Ha. unfold Rsign.
  destruct (total_order_T a 0) as [[Hlt | Heq] | Hgt]; [lra | lra | reflexivity].
Qed.

Lemma Rsign_neg (a : R) : a < 0 -> Rsign a = Neg.
Proof.
  intros Ha. unfold Rsign.
  destruct (total_order_T a 0) as [[Hlt | Heq] | Hgt]; [reflexivity | lra | lra].
Qed.

Lemma Rsign_zero : Rsign 0 = Zero.
Proof.
  unfold Rsign.
  destruct (total_order_T 0 0) as [[Hlt | Heq] | Hgt]; [lra | reflexivity | lra].
Qed.

Lemma Rsign_square (a : R) : a <> 0 -> Rsign (a * a) = Pos.
Proof. intros Ha. apply Rsign_pos. nra. Qed.

Lemma fdiv_Fin (a b : R) : b <> 0 -> fdiv (Fin a) (Fin b) = Fin (a / b).
Proof. intros Hb. simpl. now rewrite Reqb_false. Qed.

Lemma flog_Fin (a : R) : 0 < a -> flog (Fin a) = Fin (ln a).
Proof.
  intros Ha. simpl. rewrite Rltb_false by lra. rewrite Reqb_false by lra. reflexivity.
Qed.

(** [(x / y) ** 2 = x ** 2 / y ** 2], special values included. *)
Lemma fsquare_fdiv (x y : float64) :
  fsquare (fdiv x y) = fdiv (fsquare x) (fsquare y).
Proof.
  destruct x as [| | | a], y as [| | | b]; try reflexivity.
  - (* +inf / b *)
    unfold fsquare. simpl.
    destruct (Req_dec_T b 0) as [-> | Hb].
    + rewrite Reqb_true by reflexivity. rewrite Reqb_true by lra. reflexivity.
    + rewrite (Reqb_false b) by assumption. rewrite (Reqb_false (b * b)) by nra.
      rewrite Rsign_square by assumption.
      destruct (Rsign b) eqn:Hs; try reflexivity.
      exfalso. unfold Rsign in Hs.
      destruct (total_order_T b 0) as [[? | ?] | ?]; congruence.
  - (* -inf / b *)
    unfold fsquare. simpl.
    destruct (Req_dec_T b 0) as [-> | Hb].
    + rewrite Reqb_true by reflexivity. rewrite Reqb_true by lra. reflexivity.
    + rewrite (Reqb_false b) by assumption. rewrite (Reqb_false (b * b)) by nra.
      rewrite Rsign_square by assumption.
      destruct (Rsign b) eqn:Hs; try reflexivity.
      exfalso. unfold Rsign in Hs.
      destruct (total_order_T b 0) as [[? | ?] | ?]; congruence.
  - (* a / +inf *)
    unfold fsquare. simpl. f_equal. lra.
  - (* a / -inf *)
    unfold fsquare. simpl. f_equal. lra.
  - (* a / b *)
    unfold fsquare. simpl.
    destruct (Req_dec_T b 0) as [-> | Hb].
    + rewrite Reqb_true by reflexivity. rewrite Reqb_true by lra.
      destruct (total_order_T a 0) as [[Hlt | ->] | Hgt].
      * rewrite Rsign_neg by assumption. rewrite Rsign_pos by nra. reflexivity.
      * rewrite Rsign_zero. replace (0 * 0) with 0 by lra. rewrite Rsign_zero. reflexivity.
      * rewrite Rsign_pos by assumption. rewrite Rsign_pos by nra. reflexivity.
    + rewrite (Reqb_false b) by assumption. rewrite (Reqb_false (b * b)) by nra.
      simpl. f_equal. field. assumption.
Qed.

(** ** The range of [float64] *)

Lemma thresholds :
  0 < underflow_threshold < / 2 ^ 1000 /\ 2 ^ 1000 < overflow_threshold.
Proof. unfold underflow_threshold, overflow_threshold. lra. Qed.

Lemma range64_Fin (r : R) :
  underflow_threshold < Rabs r < overflow_threshold -> range64 (Fin r) = Fin r.
Proof.
  intros [Hlo Hhi]. unfold range64, Rleb.
  destruct (Rle_dec overflow_threshold (Rabs r)); [lra |].
  destruct (Rle_dec (Rabs r) underflow_threshold); [lra | reflexivity].
Qed.

Lemma range64_zero : range64 (Fin 0) = Fin 0.
Proof.
  pose proof thresholds as [[Hu _] Ho].
  unfold range64, Rleb. rewrite Rabs_R0.
  destruct (Rle_dec overflow_threshold 0); [lra |].
  destruct (Rle_dec 0 underflow_threshold); [reflexivity | lra].
Qed.

Lemma range64_overflow (r : R) :
  overflow_threshold <= r -> range64 (Fin r) = PInf.
Proof.
  intros Hr. pose proof thresholds as [_ Ho].
  unfold range64. rewrite Rabs_pos_eq by lra. rewrite Rleb_true by assumption.
  now rewrite Rsign_pos by lra.
Qed.

(** What [range64] returns on a finite value. *)
Lemma range64_cases (r : R) :
  (overflow_threshold <= Rabs r /\ range64 (Fin r) = inf_of (Rsign r))
  \/ (Rabs r <= underflow_threshold /\ range64 (Fin r) = Fin 0)
  \/ (underflow_threshold < Rabs r < overflow_threshold /\ range64 (Fin r) = Fin r).
Proof.
  unfold range64, Rleb.
  destruct (Rle_dec overflow_threshold (Rabs r)); [left; auto |].
  destruct (Rle_dec (Rabs r) underflow_threshold); [right; left; auto |].
  right; right. split; [lra | reflexivity].
Qed.

(** A square that [float64] holds as it is. *)
Lemma fsquare64_Fin (r : R) :
  underflow_threshold < r * r < overflow_threshold -> fsquare64 (Fin r) = Fin (r * r).
Proof.
  intros Hr. unfold fsquare64, fsquare. cbn [fmul]. apply range64_Fin.
  rewrite Rabs_pos_eq by nra. exact Hr.
Qed.


End float64_facts.
Section ndarray_facts.
Context {A B C D : Type}.

Lemma zip_with_map_same (op : B -> C -> D) (f : A -> B) (g : A -> C) (xs : list A) :
  zip_with op (List.map f xs) (List.map g xs) = List.map (fun x => op (f x) (g x)) xs.
Proof. induction xs as [| x xs IH]; simpl; [reflexivity | now rewrite IH]. Qed.

Lemma broadcast_map_same (op : B -> C -> D) (f : A -> B) (g : A -> C) (a : ndarray A) :
  np.broadcast op (np.map f a) (np.map g a) = Ok (np.map (fun x => op (f x) (g x)) a).
Proof.
  destruct a as [x | xs]; simpl; [reflexivity |].
  rewrite !List.length_map, Nat.eqb_refl. now rewrite zip_with_map_same.
Qed.
End ndarray_facts.

Section masks.
Context {A : Type}.

Lemma select_length (xs : list A) (mask : list bool) :
  length xs = length mask -> length (np.select xs mask) = np.count_true mask.
Proof.
  revert mask. induction xs as [| x xs IH]; intros [| b mask] Hlen; simpl in *; try lia.
  - reflexivity.
  - injection Hlen as Hlen. destruct b; simpl; rewrite IH by assumption; reflexivity.
Qed.

Lemma put_replicate (p : A -> bool) (y : A) (xs : list A) :
  np.put xs (List.map p xs) (replicate (np.count_true (List.map p xs)) y)
  = List.map (fun x => if p x then y else x) xs.
Proof.
  induction xs as [| x xs IH]; simpl; [reflexivity |].
  unfold np.count_true in *. simpl.
  destruct (p x); simpl; now rewrite IH.
Qed.

Lemma put_select_where {B : Type} (f g : B -> A) (gt : A -> A -> bool) (vs : list B) :
  let mask := zip_with gt (List.map f vs) (List.map g vs) in
  np.put (List.map g vs) mask (np.select (List.map f vs) mask)
  = List.map (fun v => if gt (f v) (g v) then f v else g v) vs.
Proof.
  induction vs as [| v vs IH]; simpl; [reflexivity |].
  destruct (gt (f v) (g v)); simpl; now rewrite IH.
Qed.
End masks.

Lemma put_select_isnan (f : float64 -> float64) (vs ts : list float64) :
  length ts = length vs ->
  np.put vs (List.map fisnan vs) (List.map f (np.select ts (List.map fisnan vs)))
  = zip_with (fun v t => if fisnan v then f t else v) vs ts.
Proof.
  revert ts. induction vs as [| v vs IH]; intros [| t ts] Hlen; simpl in *; try lia.
  - reflexivity.
  - injection Hlen as Hlen. destruct (fisnan v); simpl; now rewrite IH.
Qed.

Section formulas_on_numbers.
Local Open Scope R_scope.

(** On finite numbers the elementwise formulas of the statements are the
    usual ones on the reals. *)
Lemma fmaximum_Fin (a b : R) : fmaximum (Fin a) (Fin b) = Fin (Rmax a b).
Proof.
  unfold fmaximum, fgt, flt, Rltb, Rmax.
  destruct (Rlt_dec b a), (Rle_dec a b); try reflexivity; try lra.
Qed.

Lemma interpolate_Fin (a b : R) :
  interpolate (Fin a) (Fin b) = Fin (sqrt (a * a + b * b)).
Proof.
  unfold interpolate, fsquare. simpl. rewrite Rltb_false by nra. reflexivity.
Qed.

Lemma hyperbolic_Fin (r : R) : hyperbolic (Fin r) = Fin (1 / 2 * ln (1 + r * r)).
Proof.
  unfold hyperbolic, fsquare, fhalf, f1. simpl.
  rewrite Rltb_false by nra. rewrite Reqb_false by nra. reflexivity.
Qed.

Lemma clamp_at_2_Fin (r : R) : clamp_at_2 (Fin r) = Fin (Rmax 2 r).
Proof.
  unfold clamp_at_2, f2, flt, Rltb, Rmax.
  destruct (Rlt_dec r 2), (Rle_dec 2 r); try reflexivity; try lra.
Qed.
End formulas_on_numbers.

(* ================================================================== *)
(** * Facts about [collisions.py] *)

Section replace.
Import collisions.
Context `{Formulary}.

Lemma or_thermal_idem (y v : float64) : or_thermal y (or_thermal y v) = or_thermal y v.
Proof.
  unfold or_thermal. destruct (fisnan v) eqn:Hv; [destruct (fisnan y); reflexivity | now rewrite Hv].
Qed.

Lemma setitem_isnan_scalar (y : float64) (vs : list float64) :
  np.setitem (Array vs) (np.isnan (Array vs)) (Scalar y)
  = Ok (Array (List.map (or_thermal y) vs)).
Proof.
  simpl. rewrite List.length_map, Nat.eqb_refl. simpl.
  now rewrite (put_replicate fisnan y vs).
Qed.

Lemma setitem_isnan_arrays (f : float64 -> float64) (vs ts : list float64) :
  length ts = length vs ->
  (Tnan <- np.getitem (Array ts) (np.isnan (Array vs)) ;;
   np.setitem (Array vs) (np.isnan (Array vs)) (np.map f Tnan))
  = Ok (Array (zip_with (fun v t => or_thermal (f t) v) vs ts)).
Proof.
  intros Hlen. simpl. rewrite !List.length_map, Hlen, Nat.eqb_refl. simpl.
  rewrite List.length_map, select_length by now rewrite List.length_map.
  rewrite Nat.eqb_refl. simpl. now rewrite put_select_isnan.
Qed.

Lemma getitem_isnan_length (vs ts : list float64) (r : ndarray float64) :
  np.getitem (Array ts) (np.isnan (Array vs)) = Ok r -> length ts = length vs.
Proof.
  simpl. rewrite List.length_map.
  destruct (Nat.eqb_spec (length ts) (length vs)); [easy | discriminate].
Qed.

Lemma zip_or_thermal_idem (f : float64 -> float64) (vs ts : list float64) :
  zip_with (fun v t => or_thermal (f t) v) (zip_with (fun v t => or_thermal (f t) v) vs ts) ts
  = zip_with (fun v t => or_thermal (f t) v) vs ts.
Proof.
  revert ts. induction vs as [| v vs IH]; intros [| t ts]; simpl; try reflexivity.
  now rewrite or_thermal_idem, IH.
Qed.

Lemma zip_or_thermal_map (f : float64 -> float64) (ts : list float64) :
  zip_with (fun v t => or_thermal (f t) v) (List.map f ts) ts = List.map f ts.
Proof.
  induction ts as [| t ts IH]; simpl; [reflexivity |].
  rewrite IH. f_equal. unfold or_thermal. now destruct (fisnan (f t)).
Qed.

Lemma length_zip_with_same {A B C : Type} (g : A -> B -> C) (xs : list A) (ys : list B) :
  length ys = length xs -> length (zip_with g xs ys) = length xs.
Proof.
  revert ys. induction xs as [| x xs IH]; intros [| y ys] Hlen; simpl in *; try lia.
  now rewrite IH by lia.
Qed.

Lemma replace_again_arrays (m : float64) (ts vs : list float64) :
  let f := fun t => thermal_speed t (PStr "e-") (Some m) in
  let W := Array (zip_with (fun v t => or_thermal (f t) v) vs ts) in
  length ts = length vs ->
  np.any (eq_zero (Some W)) = false ->
  _replaceNanVwithThermalV (Some W) (Array ts) m = Ok W.
Proof.
  intros f W Hlen Hnz. unfold _replaceNanVwithThermalV. rewrite Hnz.
  destruct (np.any (np.isnan W)); [| reflexivity].
  subst W. cbn [np.isscalar orb]. unfold thermal_speed_of.
  rewrite setitem_isnan_arrays by now rewrite length_zip_with_same.
  now rewrite zip_or_thermal_idem.
Qed.

Lemma replace_again_array_scalar (m t : float64) (vs : list float64) :
  let f := fun t => thermal_speed t (PStr "e-") (Some m) in
  let W := Array (List.map (or_thermal (f t)) vs) in
  np.any (eq_zero (Some W)) = false ->
  _replaceNanVwithThermalV (Some W) (Scalar t) m = Ok W.
Proof.
  intros f W Hnz. unfold _replaceNanVwithThermalV. rewrite Hnz.
  destruct (np.any (np.isnan W)); [| reflexivity].
  subst W. cbn [np.isscalar orb]. unfold thermal_speed_of. cbn [np.map]. fold f.
  rewrite setitem_isnan_scalar. rewrite List.map_map.
  do 2 f_equal. apply List.map_ext. intros v. apply or_thermal_idem.
Qed.

Lemma replace_again_scalars (m t v : float64) :
  let f := fun t => thermal_speed t (PStr "e-") (Some m) in
  let W := Scalar (or_thermal (f t) v) in
  np.any (eq_zero (Some W)) = false ->
  _replaceNanVwithThermalV (Some W) (Scalar t) m = Ok W.
Proof.
  intros f W Hnz. unfold _replaceNanVwithThermalV. rewrite Hnz.
  destruct (np.any (np.isnan W)) eqn:Hany; [| reflexivity].
  subst W f. unfold or_thermal in *. destruct (fisnan v) eqn:Hv.
  - simpl. destruct (fisnan (thermal_speed t (PStr "e-") (Some m))); reflexivity.
  - simpl in Hany. rewrite Hv in Hany. discriminate.
Qed.

(** The second pass of [_boilerPlate], inside [impact_parameter_perp],
    finds the velocity of the first pass unchanged. *)
Lemma replaceNan_idem V T m V' :
  _replaceNanVwithThermalV V T m = Ok V' ->
  np.any (eq_zero (Some V')) = false ->
  _replaceNanVwithThermalV (Some V') T m = Ok V'.
Proof.
  intros Hrun Hnz. unfold _replaceNanVwithThermalV in Hrun.
  destruct (np.any (eq_zero V)); [discriminate |].
  set (f := fun t => thermal_speed t (PStr "e-") (Some m)) in *.
  destruct V as [V |].
  - destruct (np.any (np.isnan V)) eqn:Hnan.
    + destruct V as [v | vs], T as [t | ts].
      * (* scalar V, scalar T *)
        simpl in Hrun. fold f in Hrun.
        assert (Hv : fisnan v = true)
          by (simpl in Hnan; destruct (fisnan v); [reflexivity | discriminate]).
        assert (V' = Scalar (or_thermal (f t) v)) as ->.
        { unfold or_thermal. rewrite Hv.
          subst f. cbv beta.
          destruct (fisnan (thermal_speed t (PStr "e-") (Some m)));
            simpl in Hrun; congruence. }
        now apply replace_again_scalars.
      * (* scalar V, array T *)
        simpl in Hrun. fold f in Hrun. injection Hrun as <-.
        rewrite <- (zip_or_thermal_map f ts) in *.
        apply replace_again_arrays; [now rewrite List.length_map | assumption].
      * (* array V, scalar T *)
        cbn [np.isscalar orb] in Hrun. cbv zeta in Hrun.
        unfold thermal_speed_of in Hrun. cbn [np.map] in Hrun. fold f in Hrun.
        rewrite setitem_isnan_scalar in Hrun. injection Hrun as <-.
        now apply replace_again_array_scalar.
      * (* array V, array T *)
        cbn [np.isscalar orb] in Hrun.
        destruct (np.getitem (Array ts) (np.isnan (Array vs))) as [Tnan |] eqn:Hget;
          [| discriminate].
        pose proof (getitem_isnan_length _ _ _ Hget) as Hlen.
        rewrite <- Hget in Hrun. unfold thermal_speed_of in Hrun. fold f in Hrun.
        rewrite setitem_isnan_arrays in Hrun by assumption. injection Hrun as <-.
        now apply replace_again_arrays.
    + injection Hrun as <-. unfold _replaceNanVwithThermalV. now rewrite Hnz, Hnan.
  - injection Hrun as <-. destruct T as [t | ts].
    + apply (replace_again_scalars m t NaN). assumption.
    + unfold thermal_speed_of in *. cbn [np.map] in *. fold f in Hnz |- *.
      rewrite <- (zip_or_thermal_map f ts) in *.
      apply replace_again_arrays; [now rewrite List.length_map | assumption].
Qed.
End replace.

Section table.
Import collisions collisions_spec.
Context `{Formulary}.

Lemma boilerPlate_again T species V bp :
  _boilerPlate T species V = Ok bp ->
  np.any (eq_zero (Some (bp_V bp))) = false ->
  _boilerPlate T species (Some (bp_V bp)) = Ok bp.
Proof.
  unfold _boilerPlate. intros Hbp Hnz.
  destruct (_replaceNanVwithThermalV V T _) as [V' |] eqn:HV; [| discriminate].
  simpl in Hbp.
  destruct (_check_relativistic V' "V") as [[] |] eqn:Hrel; [| discriminate].
  simpl in Hbp. injection Hbp as <-. simpl in *.
  rewrite (replaceNan_idem _ _ _ _ HV Hnz). simpl. rewrite Hrel. reflexivity.
Qed.

Lemma impact_parameter_perp_again T species V bp :
  _boilerPlate T species V = Ok bp ->
  np.any (eq_zero (Some (bp_V bp))) = false ->
  impact_parameter_perp T species (bp_V bp)
  = Ok (np.map (rho_perp (fabs (charge (fst species))) (fabs (charge (snd species)))
                  (bp_reduced_mass bp)) (bp_V bp)).
Proof.
  intros Hbp Hnz. unfold impact_parameter_perp.
  rewrite (boilerPlate_again _ _ _ _ Hbp Hnz). simpl.
  unfold _boilerPlate in Hbp.
  destruct (_replaceNanVwithThermalV V T _); [| discriminate]. simpl in Hbp.
  destruct (_check_relativistic _ _) as [[] |]; [| discriminate].
  injection Hbp as <-. reflexivity.
Qed.

Lemma classical_bmin_map (f g : float64 -> float64) (V : ndarray float64) :
  classical_bmin (np.map f V) (np.map g V)
  = Ok (np.map (fun v => fmaximum (f v) (g v)) V).
Proof.
  unfold classical_bmin, np.greater. rewrite !broadcast_map_same.
  destruct V as [v | vs]; cbn [np.map bind np.truth try_except_ValueError].
  - unfold fmaximum. now destruct (fgt (f v) (g v)).
  - destruct vs as [| v1 [| v2 vs]]; cbn -[np.getitem np.setitem].
    + reflexivity.
    + unfold fmaximum. now destruct (fgt (f v1) (g v1)).
    + change (fgt (f v1) (g v1) :: fgt (f v2) (g v2)
                :: List.map (fun x => fgt (f x) (g x)) vs)
        with (List.map (fun x => fgt (f x) (g x)) (v1 :: v2 :: vs)).
      change (f v1 :: f v2 :: List.map f vs) with (List.map f (v1 :: v2 :: vs)).
      change (g v1 :: g v2 :: List.map g vs) with (List.map g (v1 :: v2 :: vs)).
      change (fmaximum (f v1) (g v1) :: fmaximum (f v2) (g v2)
                :: List.map (fun v => fmaximum (f v) (g v)) vs)
        with (List.map (fun v => fmaximum (f v) (g v)) (v1 :: v2 :: vs)).
      generalize (v1 :: v2 :: vs). clear v1 v2 vs. intros vs.
      unfold np.getitem, np.setitem. rewrite !List.length_map, Nat.eqb_refl.
      cbn [bind np.values_for].
      rewrite select_length by now rewrite !List.length_map.
      rewrite Nat.eqb_refl. cbn [bind].
      rewrite <- (zip_with_map_same fgt f g vs).
      now rewrite (put_select_where f g fgt vs).
Qed.

Lemma quadratic_sum_map (f g : float64 -> float64) (V : ndarray float64) :
  quadratic_sum (np.map f V) (np.map g V)
  = Ok (np.map (fun v => interpolate (f v) (g v)) V).
Proof.
  unfold quadratic_sum, np.add, np.square.
  assert (Hm : forall h : float64 -> float64,
             np.map fsquare (np.map h V) = np.map (fun v => fsquare (h v)) V).
  { intros h. destruct V; simpl; [reflexivity | now rewrite List.map_map]. }
  rewrite !Hm, broadcast_map_same. simpl.
  destruct V; simpl; [reflexivity | now rewrite List.map_map].
Qed.
End table.
Lemma str_in_cons (m a : string) (l : list string) :
  str_in m (a :: l) = true -> m = a \/ str_in m l = true.
Proof.
  unfold str_in. simpl. intros Hin. apply orb_true_iff in Hin as [Heq | Hin].
  - left. now apply String.eqb_eq.
  - now right.
Qed.

Lemma str_in_nil (m : string) : str_in m [] = true -> False.
Proof. discriminate. Qed.

(** Case analysis on [str_in method names = true] for a literal list. *)
Ltac str_cases Hin :=
  repeat (apply str_in_cons in Hin as [-> | Hin]);
  [ .. | exfalso; exact (str_in_nil _ Hin) ].

(** Evaluation of tests on literal method names. *)
Ltac eval_names :=
  repeat match goal with
    | |- context [str_in ?m ?l] =>
        let b := eval vm_compute in (str_in m l) in change (str_in m l) with b
    | |- context [String.eqb ?a ?b] =>
        let v := eval vm_compute in (String.eqb a b) in change (String.eqb a b) with v
    end.

Section table2.
Import collisions collisions_spec.
Context `{Formulary}.

Lemma boilerPlate_T T species V bp :
  _boilerPlate T species V = Ok bp -> bp_T bp = T.
Proof.
  unfold _boilerPlate. intros Hbp.
  destruct (_replaceNanVwithThermalV V T _); [| discriminate]. simpl in Hbp.
  destruct (_check_relativistic _ _) as [[] |]; [| discriminate].
  now injection Hbp as <-.
Qed.

Section rows.
Variables (T n_e : ndarray float64) (species : Particle * Particle).
Variables (z_mean : ndarray float64) (V : option (ndarray float64)).
Variables (bp : boilerPlate) (lambdaDe : ndarray float64).
Hypothesis Hbp : _boilerPlate T species V = Ok bp.
Hypothesis Hnz : np.any (eq_zero (Some (bp_V bp))) = false.
Hypothesis HDe : np.broadcast Debye_length T n_e = Ok lambdaDe.

Let q1 := fabs (charge (fst species)).
Let q2 := fabs (charge (snd species)).
Let mu := bp_reduced_mass bp.

Lemma table_perp :
  impact_parameter_perp T species (bp_V bp)
  = Ok (np.map (rho_perp q1 q2 mu) (bp_V bp)).
Proof using Hbp Hnz. exact (impact_parameter_perp_again _ _ _ _ Hbp Hnz). Qed.

Lemma table_classical (method : string) :
  str_in method classical_names = true ->
  impact_parameter T n_e species z_mean V method
  = Ok (fit_to lambdaDe (np.map (bmin_classical q1 q2 mu) (bp_V bp)), lambdaDe).
Proof using Hbp Hnz HDe.
  intros Hin. pose proof table_perp as Hperp.
  pose proof (classical_bmin_map (rho_perp q1 q2 mu) (lambda_B mu) (bp_V bp)) as Hcl.
  str_cases Hin;
    unfold impact_parameter; rewrite Hbp; cbn [bind]; rewrite (boilerPlate_T _ _ _ _ Hbp);
    eval_names; cbn [bind orb]; rewrite HDe; cbn [bind]; rewrite Hperp; cbn [bind];
    fold mu; fold (lambda_B mu); rewrite Hcl; reflexivity.
Qed.

Lemma table_min_interp (method : string) :
  str_in method min_interp_names = true ->
  impact_parameter T n_e species z_mean V method
  = Ok (fit_to lambdaDe (np.map (bmin_interp q1 q2 mu) (bp_V bp)), lambdaDe).
Proof using Hbp Hnz HDe.
  intros Hin. pose proof table_perp as Hperp.
  pose proof (quadratic_sum_map (lambda_B mu) (rho_perp q1 q2 mu) (bp_V bp)) as Hqs.
  str_cases Hin;
    unfold impact_parameter; rewrite Hbp; cbn [bind]; rewrite (boilerPlate_T _ _ _ _ Hbp);
    eval_names; cbn [bind orb]; rewrite HDe; cbn [bind]; rewrite Hperp; cbn [bind];
    fold mu; fold (lambda_B mu); rewrite Hqs; reflexivity.
Qed.

Variables (n_i s : ndarray float64).
Hypothesis Hz : np.truth (np.isnan z_mean) = Ok false.
Hypothesis Hni : np.divide n_e z_mean = Ok n_i.
Hypothesis Hs :
  np.add (np.square lambdaDe) (np.square (np.map Wigner_Seitz_radius n_i)) = Ok s.


End rows.

End table2.
Section broadcast_facts.
Context {A B C : Type}.

(** An operation that commutes with [g], [g'] and [h] commutes with
    broadcasting. *)
Lemma broadcast_map {A' B' C' : Type} (f : A -> B -> C) (f' : A' -> B' -> C')
    (g : A -> A') (g' : B -> B') (h : C -> C') (a : ndarray A) (b : ndarray B)
    (c : ndarray C) :
  (forall x y, f' (g x) (g' y) = h (f x y)) ->
  np.broadcast f a b = Ok c ->
  np.broadcast f' (np.map g a) (np.map g' b) = Ok (np.map h c).
Proof.
  intros Hcomm. destruct a as [x | xs], b as [y | ys]; simpl.
  - intros [= <-]. simpl. now rewrite Hcomm.
  - intros [= <-]. simpl. rewrite !List.map_map. do 2 f_equal.
    apply List.map_ext. intros. apply Hcomm.
  - intros [= <-]. simpl. rewrite !List.map_map. do 2 f_equal.
    apply List.map_ext. intros. apply Hcomm.
  - rewrite !List.length_map.
    destruct (Nat.eqb (length xs) (length ys)).
    + intros [= <-]. simpl. do 2 f_equal.
      revert ys. induction xs as [| x xs IH]; intros [| y ys]; simpl; try reflexivity.
      now rewrite Hcomm, IH.
    + destruct xs as [| x [| x' xs]].
      * destruct ys as [| y [| y' ys]]; try discriminate.
        intros [= <-]. reflexivity.
      * intros [= <-]. simpl. rewrite !List.map_map. do 2 f_equal.
        apply List.map_ext. intros. apply Hcomm.
      * destruct ys as [| y [| y' ys]]; try discriminate.
        intros [= <-]. simpl. rewrite !Hcomm. do 4 f_equal.
        rewrite !List.map_map. apply List.map_ext. intros. apply Hcomm.
Qed.

(** Every element of a broadcast result comes from an element of each
    operand. *)
Lemma broadcast_elements (f : A -> B -> C) (a : ndarray A) (b : ndarray B)
    (c : ndarray C) (z : C) :
  np.broadcast f a b = Ok c ->
  In z (np.elements c) ->
  exists x y, In x (np.elements a) /\ In y (np.elements b) /\ z = f x y.
Proof.
  assert (Hzip : forall xs ys, In z (zip_with f xs ys) ->
             exists x y, In x xs /\ In y ys /\ z = f x y).
  { induction xs as [| x xs IH]; intros [| y ys]; simpl; try tauto.
    intros [<- | Hin]; [exists x, y; auto |].
    destruct (IH _ Hin) as (x' & y' & ? & ? & ?). exists x', y'. auto. }
  destruct a as [x | xs], b as [y | ys]; simpl.
  - intros [= <-] [<- | []]. exists x, y. auto.
  - intros [= <-] Hin. simpl in Hin. apply List.in_map_iff in Hin as (y & <- & Hy).
    exists x, y. auto.
  - intros [= <-] Hin. simpl in Hin. apply List.in_map_iff in Hin as (x & <- & Hx).
    exists x, y. auto.
  - destruct (Nat.eqb (length xs) (length ys)).
    + intros [= <-] Hin. now apply Hzip.
    + destruct xs as [| x [| x' xs]].
      * destruct ys as [| y [| y' ys]]; try discriminate.
        intros [= <-] [].
      * intros [= <-] Hin. simpl in Hin. apply List.in_map_iff in Hin as (y & <- & Hy).
        exists x, y. simpl. auto.
      * destruct ys as [| y [| y' ys]]; try discriminate.
        intros [= <-] Hin. simpl in Hin.
        change (In z (List.map (fun x => f x y) (x :: x' :: xs))) in Hin.
        apply List.in_map_iff in Hin as (x0 & <- & Hx).
        exists x0, y. simpl. auto.
Qed.
(** Two operations broadcast on the same pairs of shapes. *)
Lemma broadcast_same_shape {C' : Type} (f : A -> B -> C) (f' : A -> B -> C')
    (a : ndarray A) (b : ndarray B) (c : ndarray C) :
  np.broadcast f a b = Ok c -> exists c', np.broadcast f' a b = Ok c'.
Proof.
  destruct a as [x | xs], b as [y | ys]; simpl; try (intros _; eexists; reflexivity).
  destruct (Nat.eqb (length xs) (length ys)); [intros _; eexists; reflexivity |].
  destruct xs as [| x [| x' xs]].
  - destruct ys as [| y [| y' ys]]; try discriminate. intros _; eexists; reflexivity.
  - intros _; eexists; reflexivity.
  - destruct ys as [| y [| y' ys]]; try discriminate. intros _; eexists; reflexivity.
Qed.

(** An operation applied after another one. *)
Lemma broadcast_post {C' : Type} (f : A -> B -> C) (h : C -> C')
    (a : ndarray A) (b : ndarray B) (c : ndarray C) :
  np.broadcast f a b = Ok c ->
  np.broadcast (fun x y => h (f x y)) a b = Ok (np.map h c).
Proof.
  destruct a as [x | xs], b as [y | ys]; simpl.
  - now intros [= <-].
  - intros [= <-]. simpl. now rewrite List.map_map.
  - intros [= <-]. simpl. now rewrite List.map_map.
  - destruct (Nat.eqb (length xs) (length ys)).
    + intros [= <-]. simpl. do 2 f_equal.
      revert ys. induction xs as [| x xs IH]; intros [| y ys]; simpl; try reflexivity.
      now rewrite IH.
    + destruct xs as [| x [| x' xs]].
      * destruct ys as [| y [| y' ys]]; try discriminate.
        now intros [= <-].
      * intros [= <-]. simpl. now rewrite List.map_map.
      * destruct ys as [| y [| y' ys]]; try discriminate.
        intros [= <-]. simpl. now rewrite List.map_map.
Qed.
End broadcast_facts.

Lemma np_map_id {A : Type} (a : ndarray A) : np.map (fun x => x) a = a.
Proof. destruct a; simpl; [reflexivity | now rewrite List.map_id]. Qed.

(** An operation applied to the images of the operands. *)
Lemma broadcast_pre {A B A' B' C : Type} (f : A' -> B' -> C) (g : A -> A') (g' : B -> B')
    (a : ndarray A) (b : ndarray B) (c : ndarray C) :
  np.broadcast (fun x y => f (g x) (g' y)) a b = Ok c ->
  np.broadcast f (np.map g a) (np.map g' b) = Ok c.
Proof.
  intros Hc.
  rewrite (broadcast_map (fun x y => f (g x) (g' y)) f g g' (fun z => z) a b c);
    [now rewrite np_map_id | reflexivity | exact Hc].
Qed.

Section clamp_facts.
Import collisions.
Context `{Formulary}.
Local Open Scope R_scope.

Lemma any_less_than (c : float64) (a : ndarray float64) :
  np.any (less_than c a) = true <-> exists x, In x (np.elements a) /\ flt x c = true.
Proof.
  unfold np.any, less_than. rewrite existsb_exists. split.
  - intros (b & Hin & Hb). subst b.
    destruct a as [x | xs]; simpl in Hin.
    + destruct Hin as [<- | []]. exists x. simpl. auto.
    + apply List.in_map_iff in Hin as (x & Hx & Hin). exists x. auto.
  - intros (x & Hin & Hx). exists true. split; [| reflexivity].
    destruct a as [y | xs]; simpl in *.
    + destruct Hin as [-> | []]. auto.
    + apply List.in_map_iff. exists x. auto.
Qed.

Lemma any_less_than_false (c : float64) (a : ndarray float64) :
  np.any (less_than c a) = false <-> forall x, In x (np.elements a) -> flt x c = false.
Proof.
  split.
  - intros Hany x Hin. destruct (flt x c) eqn:Hx; [| reflexivity].
    rewrite <- Hany. symmetry. apply any_less_than. eauto.
  - intros Hall. destruct (np.any (less_than c a)) eqn:Hany; [| reflexivity].
    apply any_less_than in Hany as (x & Hin & Hx). rewrite (Hall x Hin) in Hx. discriminate.
Qed.

Lemma clamp_map (ln_Lambda : ndarray float64) :
  clamp ln_Lambda = Ok (np.map clamp_at_2 ln_Lambda).
Proof.
  unfold clamp. destruct (np.any (less_than f2 ln_Lambda)) eqn:Hany.
  - destruct ln_Lambda as [x | xs]; cbn [np.isscalar].
    + apply any_less_than in Hany as (y & [<- | []] & Hy).
      simpl. unfold clamp_at_2. now rewrite Hy.
    + unfold less_than. simpl. rewrite List.length_map, Nat.eqb_refl. simpl.
      now rewrite (put_replicate (fun x => flt x f2) f2 xs).
  - f_equal. rewrite any_less_than_false in Hany.
    destruct ln_Lambda as [x | xs]; simpl.
    + unfold clamp_at_2. rewrite Hany; [reflexivity | simpl; auto].
    + f_equal. rewrite <- (List.map_id xs) at 1. apply List.map_ext_in.
      intros x Hin. unfold clamp_at_2. now rewrite (Hany x Hin).
Qed.

Lemma clamp_at_2_not_below (x : float64) : flt (clamp_at_2 x) f2 = false.
Proof.
  unfold clamp_at_2. destruct (flt x f2) eqn:Hx; [| assumption].
  simpl. apply Rltb_false. lra.
Qed.

Lemma not_below_fle (c : R) (y : float64) :
  flt y (Fin c) = false -> fisnan y = false -> fle (Fin c) y = true.
Proof.
  destruct y as [| | | r]; simpl; try discriminate; try reflexivity.
  intros Hlt _. unfold Rltb in Hlt. destruct (Rlt_dec r c); [discriminate |].
  apply Rleb_true. lra.
Qed.
End clamp_facts.
Lemma np_map_map {A B C : Type} (f : A -> B) (g : B -> C) (a : ndarray A) :
  np.map g (np.map f a) = np.map (fun x => g (f x)) a.
Proof. destruct a; simpl; [reflexivity | now rewrite List.map_map]. Qed.

Lemma np_elements_map {A B : Type} (f : A -> B) (a : ndarray A) :
  np.elements (np.map f a) = List.map f (np.elements a).
Proof. now destruct a. Qed.

Section Coulomb_logarithm_facts.
Import collisions collisions_spec.
Context `{Formulary}.
Local Open Scope R_scope.

Lemma clamp_methods_not_linear (method : string) :
  str_in method clamp_methods = true -> str_in method linear_methods = false.
Proof. intros Hm. str_cases Hm; reflexivity. Qed.

Section formulas.
Variables (T n_e : ndarray float64) (species : Particle * Particle).
Variables (z_mean : ndarray float64) (V : option (ndarray float64)) (method : string).
Variables (bmin bmax q : ndarray float64).
Hypothesis Himp : impact_parameter T n_e species z_mean V method = Ok (bmin, bmax).
Hypothesis Hq : np.divide bmax bmin = Ok q.

Lemma Coulomb_logarithm_linear :
  str_in method linear_methods = true ->
  Coulomb_logarithm T n_e species z_mean V method
  = Ok (np.map flog q, coupling_warnings (np.map flog q) method).
Proof using Himp Hq.
  intros Hm. unfold Coulomb_logarithm. rewrite Himp. cbn [bind fst snd].
  rewrite Hm, Hq. reflexivity.
Qed.

(** The hyperbolic methods, as line 432 computes them. *)
Lemma Coulomb_logarithm_hyperbolic64 :
  str_in method hyperbolic_methods = true ->
  exists ln_Lambda,
    np.broadcast hyperbolic64 bmax bmin = Ok ln_Lambda
    /\ Coulomb_logarithm T n_e species z_mean V method
       = Ok (ln_Lambda, coupling_warnings ln_Lambda method).
Proof using Himp Hq.
  intros Hm.
  set (raw := fun x y => fdiv64 (fsquare64 x) (fsquare64 y)).
  destruct (broadcast_same_shape fdiv raw _ _ _ Hq) as (c & Hc).
  exists (np.map half_log_1p c). split.
  - exact (broadcast_post raw half_log_1p _ _ _ Hc).
  - pose proof (broadcast_pre fdiv64 fsquare64 fsquare64 _ _ _ Hc) as Hsq.
    unfold Coulomb_logarithm. rewrite Himp. cbn [bind fst snd]. rewrite Hsq.
    cbn [bind]. fold half_log_1p.
    str_cases Hm; eval_names; reflexivity.
Qed.

(** When [float64] holds the two squares and their quotient as they are,
    the hyperbolic methods return the formula on the ratio
    [bmax / bmin]. *)
Lemma Coulomb_logarithm_hyperbolic :
  within_range64 (np.square bmax) ->
  within_range64 (np.square bmin) ->
  within_range64 (np.square q) ->
  str_in method hyperbolic_methods = true ->
  Coulomb_logarithm T n_e species z_mean V method
  = Ok (np.map hyperbolic q, coupling_warnings (np.map hyperbolic q) method).
Proof using Himp Hq.
  unfold within_range64, np.square. rewrite !np_map_map. intros Hmax Hmin Hquot Hm.
  assert (Hsq : np.broadcast fdiv64 (np.map fsquare64 bmax) (np.map fsquare64 bmin)
                = Ok (np.map fsquare q)).
  { unfold fsquare64. rewrite Hmax, Hmin, <- Hquot.
    apply (broadcast_map fdiv fdiv64 fsquare fsquare (fun x => range64 (fsquare x)));
      [| exact Hq].
    intros x y. unfold fdiv64. now rewrite fsquare_fdiv. }
  unfold Coulomb_logarithm. rewrite Himp. cbn [bind fst snd]. rewrite Hsq.
  cbn [bind]. rewrite np_map_map. fold hyperbolic.
  str_cases Hm; eval_names; reflexivity.
Qed.

Lemma Coulomb_logarithm_clamp :
  str_in method clamp_methods = true ->
  Coulomb_logarithm T n_e species z_mean V method
  = Ok (np.map clamp_at_2 (np.map flog q),
        coupling_warnings (np.map clamp_at_2 (np.map flog q)) method).
Proof using Himp Hq.
  intros Hm. unfold Coulomb_logarithm. rewrite Himp. cbn [bind fst snd].
  rewrite (clamp_methods_not_linear _ Hm), Hm, Hq. cbn [bind].
  unfold np.log. rewrite clamp_map. reflexivity.
Qed.

(** Once the impact parameters and their ratio are computed, a
    recognised method returns a value, with the warnings next to it. *)
Lemma Coulomb_logarithm_returns :
  str_in method (linear_methods ++ clamp_methods ++ hyperbolic_methods) = true ->
  exists ln_Lambda,
    Coulomb_logarithm T n_e species z_mean V method
    = Ok (ln_Lambda, coupling_warnings ln_Lambda method).
Proof using Himp Hq.
  intros Hm. unfold str_in in Hm. rewrite !existsb_app, !orb_true_iff in Hm.
  destruct Hm as [Hm | [Hm | Hm]].
  - eexists. now apply Coulomb_logarithm_linear.
  - eexists. now apply Coulomb_logarithm_clamp.
  - destruct (Coulomb_logarithm_hyperbolic64 Hm) as (ln_Lambda & _ & Hln).
    now exists ln_Lambda.
Qed.
End formulas.


(** C3. For ["ls_clamp_mininterp"] and ["GMS-3"] the result is
    [ln(bmax / bmin)] with every element below 2 replaced by 2: no
    element of the result is below 2, an element that is a number is at
    least 2, and with positive finite impact parameters every element is
    a finite number that is at least 2. *)
Theorem clamp_never_below_2
    (T n_e : ndarray float64) (species : Particle * Particle)
    (z_mean : ndarray float64) (V : option (ndarray float64)) (method : string)
    (bmin bmax q : ndarray float64) :
  str_in method clamp_methods = true ->
  impact_parameter T n_e species z_mean V method = Ok (bmin, bmax) ->
  np.divide bmax bmin = Ok q ->
  let ln_Lambda := np.map clamp_at_2 (np.map flog q) in
  Coulomb_logarithm T n_e species z_mean V method
  = Ok (ln_Lambda, coupling_warnings ln_Lambda method)
  /\ (forall x, In x (np.elements ln_Lambda) ->
        flt x f2 = false /\ (fisnan x = false -> fle f2 x = true))
  /\ ((forall b, In b (np.elements bmin) -> positive_finite b) ->
      (forall b, In b (np.elements bmax) -> positive_finite b) ->
      forall x, In x (np.elements ln_Lambda) -> exists r, x = Fin r /\ 2 <= r).
Proof.
  intros Hm Himp Hq ln_Lambda.
  assert (Hnb : forall x, In x (np.elements ln_Lambda) -> flt x f2 = false).
  { intros x Hin. unfold ln_Lambda in Hin. rewrite np_elements_map in Hin.
    apply List.in_map_iff in Hin as (y & <- & _). apply clamp_at_2_not_below. }
  split; [| split].
  - now apply Coulomb_logarithm_clamp with (bmin := bmin) (bmax := bmax).
  - intros x Hin. split; [now apply Hnb |].
    intros Hnan. apply (not_below_fle 2); [now apply Hnb | assumption].
  - intros Hbmin Hbmax x Hin. pose proof (Hnb x Hin) as Hx.
    unfold ln_Lambda in Hin. rewrite !np_elements_map in Hin.
    apply List.in_map_iff in Hin as (l & <- & Hin).
    apply List.in_map_iff in Hin as (r & <- & Hin).
    destruct (broadcast_elements _ _ _ _ _ Hq Hin) as (a & b & Ha & Hb & ->).
    destruct (Hbmax a Ha) as (ra & -> & Hra).
    destruct (Hbmin b Hb) as (rb & -> & Hrb).
    rewrite fdiv_Fin in * by lra.
    assert (0 < ra / rb) by now apply Rdiv_lt_0_compat.
    rewrite flog_Fin in * by assumption.
    unfold clamp_at_2 in *. simpl in *.
    unfold Rltb in *. destruct (Rlt_dec (ln (ra / rb)) 2).
    + exists 2. split; [reflexivity | lra].
    + exists (ln (ra / rb)). split; [reflexivity | lra].
Qed.
End Coulomb_logarithm_facts.

Section z_mean_facts.
Import collisions collisions_spec.
Context `{Formulary}.

Lemma no_z_mean_error_Ok {A : Type} (a : A) : no_z_mean_error (Ok a).
Proof. discriminate. Qed.

Lemma no_z_mean_error_bind {A B : Type} (m : result A) (k : A -> result B) :
  no_z_mean_error m ->
  (forall a, m = Ok a -> no_z_mean_error (k a)) ->
  no_z_mean_error (bind m k).
Proof.
  intros Hm Hk. destruct m as [a | e]; simpl.
  - now apply Hk.
  - intros [= ->]. now apply Hm.
Qed.

Lemma msg_z_mean_not_broadcast : msg_z_mean <> np.msg_broadcast.
Proof. vm_compute. discriminate. Qed.

Lemma msg_z_mean_not_unknown : msg_z_mean <> msg_unknown_method.
Proof. vm_compute. discriminate. Qed.

Lemma no_z_mean_error_broadcast {A B C : Type} (f : A -> B -> C) a b :
  no_z_mean_error (np.broadcast f a b).
Proof.
  unfold no_z_mean_error.
  destruct a as [x | xs], b as [y | ys]; simpl; try discriminate.
  destruct (Nat.eqb _ _); [discriminate |].
  destruct xs as [| ? [| ? ?]]; try discriminate;
    destruct ys as [| ? [| ? ?]]; try discriminate;
    intros [= Hmsg]; now apply msg_z_mean_not_broadcast.
Qed.

Lemma no_z_mean_error_quadratic_sum a b : no_z_mean_error (quadratic_sum a b).
Proof.
  unfold quadratic_sum. apply no_z_mean_error_bind.
  - apply no_z_mean_error_broadcast.
  - intros. apply no_z_mean_error_Ok.
Qed.

Lemma no_z_mean_error_ion_sphere_radius a b : no_z_mean_error (ion_sphere_radius a b).
Proof.
  unfold ion_sphere_radius. apply no_z_mean_error_bind.
  - apply no_z_mean_error_broadcast.
  - intros. apply no_z_mean_error_Ok.
Qed.

Lemma replaceNan_again V T m V' :
  _replaceNanVwithThermalV V T m = Ok V' ->
  _replaceNanVwithThermalV (Some V') T m = Ok V'
  \/ _replaceNanVwithThermalV (Some V') T m = Raise (PhysicsError msg_zero_velocity).
Proof.
  intros Hrun. destruct (np.any (eq_zero (Some V'))) eqn:Hz.
  - right. unfold _replaceNanVwithThermalV. now rewrite Hz.
  - left. now apply replaceNan_idem with (V := V).
Qed.

Lemma no_z_mean_error_perp T species V bp :
  _boilerPlate T species V = Ok bp ->
  no_z_mean_error (impact_parameter_perp T species (bp_V bp)).
Proof.
  intros Hbp. unfold impact_parameter_perp. apply no_z_mean_error_bind.
  - unfold _boilerPlate in *.
    destruct (_replaceNanVwithThermalV V T _) as [V' |] eqn:HV; [| discriminate].
    simpl in Hbp.
    destruct (_check_relativistic V' "V") as [[] |] eqn:Hrel; [| discriminate].
    injection Hbp as <-. simpl.
    destruct (replaceNan_again _ _ _ _ HV) as [-> | ->]; simpl.
    + rewrite Hrel. simpl. discriminate.
    + discriminate.
  - intros. apply no_z_mean_error_Ok.
Qed.
End z_mean_facts.
Section z_mean_theorem.
Import collisions collisions_spec.
Context `{Formulary}.

Lemma str_in_false_cons (m a : string) (l : list string) :
  str_in m (a :: l) = false -> String.eqb m a = false /\ str_in m l = false.
Proof. unfold str_in. simpl. intros Hin. now apply orb_false_iff in Hin. Qed.

(** For a method that does not require it, [z_mean] is not looked at. *)
Lemma impact_parameter_ignores_z_mean T n_e species z z' V method :
  str_in method z_mean_methods = false ->
  impact_parameter T n_e species z V method
  = impact_parameter T n_e species z' V method.
Proof.
  intros Hm. unfold impact_parameter. rewrite Hm.
  unfold z_mean_methods in Hm.
  repeat (apply str_in_false_cons in Hm as [? Hm]).
  repeat match goal with E : String.eqb method _ = false |- _ => rewrite !E; clear E end.
  reflexivity.
Qed.

Lemma impact_parameter_no_z_mean_error T n_e species z V method bp :
  _boilerPlate T species V = Ok bp ->
  fisnan z = false ->
  no_z_mean_error (impact_parameter T n_e species (Scalar z) V method).
Proof.
  intros Hbp Hz. unfold impact_parameter. rewrite Hbp. cbn [bind].
  apply no_z_mean_error_bind.
  { destruct (str_in method z_mean_methods); [| apply no_z_mean_error_Ok].
    simpl. rewrite Hz. apply no_z_mean_error_Ok. }
  intros _ _. apply no_z_mean_error_bind; [apply no_z_mean_error_broadcast |].
  intros lambdaDe _. apply no_z_mean_error_bind.
  { assert (HT : bp_T bp = T).
    { unfold _boilerPlate in Hbp.
      destruct (_replaceNanVwithThermalV V T _); [| discriminate]. simpl in Hbp.
      destruct (_check_relativistic _ _) as [[] |]; [| discriminate].
      now injection Hbp as <-. }
    rewrite HT. now apply no_z_mean_error_perp with (V := V). }
  intros bPerp HbPerp. apply no_z_mean_error_bind; [| intros; apply no_z_mean_error_Ok].
  repeat match goal with
    | |- no_z_mean_error (if ?c then _ else _) => destruct c
    | |- no_z_mean_error (bind _ _) => apply no_z_mean_error_bind; [| intros ? _]
    | |- no_z_mean_error (Ok _) => apply no_z_mean_error_Ok
    | |- no_z_mean_error (quadratic_sum _ _) => apply no_z_mean_error_quadratic_sum
    | |- no_z_mean_error (ion_sphere_radius _ _) => apply no_z_mean_error_ion_sphere_radius
    end.
  - (* classical *)
    assert (HT : bp_T bp = T).
    { unfold _boilerPlate in Hbp.
      destruct (_replaceNanVwithThermalV V T _); [| discriminate]. simpl in Hbp.
      destruct (_check_relativistic _ _) as [[] |]; [| discriminate].
      now injection Hbp as <-. }
    rewrite HT in HbPerp. unfold impact_parameter_perp in HbPerp.
    destruct (_boilerPlate T species (Some (bp_V bp))) as [bp' |] eqn:Hbp'; [| discriminate].
    simpl in HbPerp. injection HbPerp as <-.
    assert (HV : bp_V bp' = bp_V bp).
    { unfold _boilerPlate in Hbp, Hbp'.
      destruct (_replaceNanVwithThermalV V T _) as [V1 |] eqn:HV1; [| discriminate].
      simpl in Hbp.
      destruct (_check_relativistic V1 "V") as [[] |]; [| discriminate].
      injection Hbp as <-. simpl in *.
      destruct (replaceNan_again _ _ _ _ HV1) as [E | E]; rewrite E in Hbp'; [| discriminate].
      simpl in Hbp'.
      destruct (_check_relativistic V1 "V") as [[] |]; [| discriminate].
      now injection Hbp' as <-. }
    rewrite HV, classical_bmin_map. apply no_z_mean_error_Ok.
  - (* unknown method *)
    unfold no_z_mean_error. intros Hmsg. injection Hmsg as Hmsg. discriminate Hmsg.
Qed.

Lemma Coulomb_logarithm_no_z_mean_error T n_e species z V method bp :
  _boilerPlate T species V = Ok bp ->
  fisnan z = false ->
  no_z_mean_error (Coulomb_logarithm T n_e species (Scalar z) V method).
Proof.
  intros Hbp Hz. unfold Coulomb_logarithm. apply no_z_mean_error_bind.
  { now apply impact_parameter_no_z_mean_error with (bp := bp). }
  intros bb _.
  apply no_z_mean_error_bind; [| intros; apply no_z_mean_error_Ok].
  repeat match goal with
    | |- no_z_mean_error (if ?c then _ else _) => destruct c
    | |- no_z_mean_error (bind _ _) => apply no_z_mean_error_bind; [| intros ? _]
    | |- no_z_mean_error (Ok _) => apply no_z_mean_error_Ok
    | |- no_z_mean_error (np.divide _ _) => apply no_z_mean_error_broadcast
    | |- no_z_mean_error (np.broadcast _ _ _) => apply no_z_mean_error_broadcast
    | |- no_z_mean_error (clamp _) => rewrite clamp_map
    end.
  unfold no_z_mean_error. intros Hmsg. injection Hmsg as Hmsg.
  now apply msg_z_mean_not_unknown.
Qed.

Lemma impact_parameter_z_mean_missing T n_e species V method :
  str_in method z_mean_methods = true ->
  (exists e, impact_parameter T n_e species (Scalar NaN) V method = Raise e)
  /\ (forall bp, _boilerPlate T species V = Ok bp ->
        impact_parameter T n_e species (Scalar NaN) V method
        = Raise (ValueError msg_z_mean)).
Proof.
  intros Hm. unfold impact_parameter. rewrite Hm.
  destruct (_boilerPlate T species V) as [bp |e]; cbn [bind np.isnan np.map fisnan np.truth].
  - split; [eauto | reflexivity].
  - split; [eauto | discriminate].
Qed.

(** C6. With [z_mean] left at its not-a-number default, the six method
    names that need it make the call fail; when the velocity checks of
    [_boilerPlate] pass, the failure is the [ValueError] that asks for
    [z_mean]. With a number for [z_mean] that error is not raised. For
    every other method [z_mean] is not looked at, and the four methods
    that do not need it return their impact parameters and their
    logarithm with [z_mean] unset. *)
Theorem z_mean_required
    (T n_e : ndarray float64) (species : Particle * Particle)
    (V : option (ndarray float64)) (method : string) :
  (str_in method z_mean_methods = true ->
     (exists e, Coulomb_logarithm T n_e species (Scalar NaN) V method = Raise e)
     /\ (forall bp, _boilerPlate T species V = Ok bp ->
           impact_parameter T n_e species (Scalar NaN) V method
           = Raise (ValueError msg_z_mean)
           /\ Coulomb_logarithm T n_e species (Scalar NaN) V method
              = Raise (ValueError msg_z_mean)))
  /\ (forall z bp, _boilerPlate T species V = Ok bp -> fisnan z = false ->
        no_z_mean_error (impact_parameter T n_e species (Scalar z) V method)
        /\ no_z_mean_error (Coulomb_logarithm T n_e species (Scalar z) V method))
  /\ (str_in method z_mean_methods = false ->
      forall z,
        impact_parameter T n_e species (Scalar NaN) V method
        = impact_parameter T n_e species z V method
        /\ Coulomb_logarithm T n_e species (Scalar NaN) V method
           = Coulomb_logarithm T n_e species z V method)
  /\ (str_in method (classical_names ++ min_interp_names) = true ->
      forall bp lambdaDe,
        _boilerPlate T species V = Ok bp ->
        np.any (eq_zero (Some (bp_V bp))) = false ->
        np.broadcast Debye_length T n_e = Ok lambdaDe ->
        exists bmin,
          impact_parameter T n_e species (Scalar NaN) V method = Ok (bmin, lambdaDe)
          /\ forall q, np.divide lambdaDe bmin = Ok q ->
               exists ln_Lambda w,
                 Coulomb_logarithm T n_e species (Scalar NaN) V method
                 = Ok (ln_Lambda, w)).
Proof.
  split; [| split; [| split]].
  - intros Hm. destruct (impact_parameter_z_mean_missing T n_e species V method Hm)
      as [[e He] Hbp].
    split.
    + exists e. unfold Coulomb_logarithm. now rewrite He.
    + intros bp Hok. split; [now apply Hbp with (bp := bp) |].
      unfold Coulomb_logarithm. now rewrite (Hbp bp Hok).
  - intros z bp Hbp Hz. split.
    + now apply impact_parameter_no_z_mean_error with (bp := bp).
    + now apply Coulomb_logarithm_no_z_mean_error with (bp := bp).
  - intros Hm z.
    pose proof (impact_parameter_ignores_z_mean T n_e species (Scalar NaN) z V method Hm)
      as Himp.
    split; [exact Himp |]. unfold Coulomb_logarithm. now rewrite Himp.
  - intros Hm bp lambdaDe Hbp Hnz HDe.
    assert (Himp : exists bmin,
               impact_parameter T n_e species (Scalar NaN) V method = Ok (bmin, lambdaDe)).
    { unfold str_in in Hm. rewrite existsb_app, orb_true_iff in Hm.
      destruct Hm as [Hm | Hm]; eexists.
      - now apply table_classical with (bp := bp).
      - now apply table_min_interp with (bp := bp). }
    destruct Himp as [bmin Himp]. exists bmin. split; [exact Himp |].
    intros q Hq.
    destruct (Coulomb_logarithm_returns _ _ _ _ _ _ _ _ _ Himp Hq) as [ln_Lambda Hln].
    + unfold str_in in *. rewrite existsb_app, orb_true_iff in Hm.
      destruct Hm as [Hm | Hm]; fold (str_in method classical_names) in Hm;
        fold (str_in method min_interp_names) in Hm; str_cases Hm; reflexivity.
    + eauto.
Qed.
End z_mean_theorem.

(* ================================================================== *)
(** * A concrete call *)

Section real_facts.
Local Open Scope R_scope.

Lemma sqrt_of_square (x y : R) : 0 <= y -> y * y = x -> sqrt x = y.
Proof. intros Hy <-. now apply sqrt_square. Qed.

Lemma PI_gt_2 : 2 < PI.
Proof. pose proof PI2_1. lra. Qed.
End real_facts.

Ltac real_side :=
  solve [ lra | nra | pose proof PI_RGT_0; nra
        | apply Rgt_not_eq; pose proof PI_RGT_0; nra ].

(** Evaluation of the float operations on finite values; the comparisons
    of reals are settled by [real_side]. *)
Ltac float_eval :=
  repeat first
    [ progress cbn
    | rewrite Reqb_false by real_side
    | rewrite Reqb_true by real_side
    | rewrite Rltb_true by real_side
    | rewrite Rltb_false by real_side
    | rewrite Rleb_true by real_side
    | rewrite Rabs_pos_eq by real_side
    | rewrite Rabs_left by real_side ].

Section run_facts.
Import collisions collisions_spec run.
Local Open Scope R_scope.


Lemma boilerPlate_V1 (T : ndarray float64) : _boilerPlate (H := nu) T pair V1 = Ok (bp1 T).
Proof.
  unfold _boilerPlate, _replaceNanVwithThermalV. float_eval.
  unfold natural_units._check_relativistic. float_eval.
  unfold bp1, f1, fhalf.
  replace (- (-1)) with 1 by lra. replace (1 * 1 / (1 + 1)) with (1 / 2) by lra.
  reflexivity.
Qed.

Lemma lambda_B_1 : lambda_B (H := nu) fhalf (Fin 1) = Fin 1.
Proof. unfold lambda_B. float_eval. f_equal. lra. Qed.

Lemma rho_perp_1 : rho_perp (H := nu) f1 f1 fhalf (Fin 1) = Fin (/ (2 * PI)).
Proof.
  unfold rho_perp. float_eval. f_equal. field. apply Rgt_not_eq. apply PI_RGT_0.
Qed.

Lemma bmin_classical_1 : bmin_classical (H := nu) f1 f1 fhalf (Fin 1) = Fin 1.
Proof.
  unfold bmin_classical. rewrite lambda_B_1, rho_perp_1. unfold fmaximum, fgt.
  simpl. rewrite Rltb_false; [reflexivity |].
  pose proof PI_gt_2. rewrite <- Rinv_1. apply Rlt_le, Rinv_lt_contravar; lra.
Qed.

Lemma Debye_T2 :
  np.broadcast (@collisions.Debye_length nu) T2 n1 = Ok (Array [Fin 1; Fin 16]).
Proof.
  unfold T2, n1. cbn. unfold natural_units.Debye_length. float_eval.
  do 3 f_equal; [| f_equal]; f_equal; apply sqrt_of_square; lra.
Qed.

Lemma impact_parameter_classical_T2 :
  impact_parameter (H := nu) T2 n1 pair unset V1 "classical"
  = Ok (Array [Fin 1; Fin 1], Array [Fin 1; Fin 16]).
Proof.
  rewrite (table_classical T2 n1 pair unset V1 (bp1 T2) (Array [Fin 1; Fin 16])).
  - cbn [bp1 bp_V bp_reduced_mass pair fst snd charge natural_units.electron natural_units.positron fabs np.map].
    pose proof bmin_classical_1 as E. unfold f1, fhalf in E |- *.
    cbn [fabs]. rewrite Rabs_left, Rabs_pos_eq by lra.
    replace (- -1) with 1 by lra. rewrite E. reflexivity.
  - apply boilerPlate_V1.
  - cbn. now rewrite Reqb_false by lra.
  - apply Debye_T2.
  - reflexivity.
Qed.

Lemma ln_16_bounds : 2 <= ln 16 < 4.
Proof.
  pose proof exp_le_3 as Hle. pose proof (exp_ineq1 1 ltac:(lra)) as Hgt.
  pose proof (exp_pos 1) as Hpos.
  split.
  - rewrite <- (ln_exp 2). apply Rlt_le, ln_increasing; [apply exp_pos |].
    replace 2 with (1 + 1) by lra. rewrite exp_plus. nra.
  - rewrite <- (ln_exp 4). apply ln_increasing; [lra |].
    replace 4 with ((1 + 1) + (1 + 1)) by lra. rewrite !exp_plus.
    assert (4 < exp 1 * exp 1) by nra. nra.
Qed.

Lemma Coulomb_logarithm_classical_T2 :
  Coulomb_logarithm (H := nu) T2 n1 pair unset V1 "classical"
  = Ok (ln_Lambda_T2, [CouplingWarning (msg_weak_coupling ln_Lambda_T2 "classical")]).
Proof.
  rewrite (Coulomb_logarithm_linear T2 n1 pair unset V1 "classical"
             (Array [Fin 1; Fin 1]) (Array [Fin 1; Fin 16]) (Array [Fin 1; Fin 16])).
  - cbn [np.map List.map]. rewrite !flog_Fin by lra. rewrite ln_1. fold ln_Lambda_T2.
    unfold coupling_warnings. 
    assert (Hany : np.any (less_than f2 ln_Lambda_T2) = true).
    { cbn. now rewrite Rltb_true by lra. }
    rewrite Hany. reflexivity.
  - apply impact_parameter_classical_T2.
  - cbn. rewrite !Reqb_false by lra. do 3 f_equal; [| f_equal]; f_equal; lra.
  - reflexivity.
Qed.
End run_facts.

Section warning_facts.
Import collisions collisions_spec.
Context `{Formulary}.
Local Open Scope R_scope.

Lemma flt_not_nan (x c : float64) : flt x c = true -> fisnan x = false.
Proof. now destruct x. Qed.

Lemma flt_2_4 (x : float64) : flt x f2 = true -> flt x f4 = true.
Proof.
  destruct x as [| | | r]; simpl; try easy.
  intros Hr. apply Rltb_spec in Hr. apply Rltb_true. lra.
Qed.

Lemma any_some_below (c : float64) (a : ndarray float64) :
  np.any (less_than c a) = true <-> some_below c a.
Proof.
  rewrite any_less_than. unfold some_below. split.
  - intros (x & Hin & Hx). exists x. eauto using flt_not_nan.
  - intros (x & Hin & _ & Hx). eauto.
Qed.

(** The three outcomes of the check after the result is computed. *)
Lemma coupling_warnings_cases (ln_Lambda : ndarray float64) (method : string) :
  (str_in method linear_methods = true -> some_below f2 ln_Lambda ->
     coupling_warnings ln_Lambda method
     = [CouplingWarning (msg_weak_coupling ln_Lambda method)])
  /\ (str_in method linear_methods = false \/ ~ some_below f2 ln_Lambda ->
      some_below f4 ln_Lambda ->
      coupling_warnings ln_Lambda method
      = [CouplingWarning (msg_strong_coupling ln_Lambda)])
  /\ (~ some_below f4 ln_Lambda -> coupling_warnings ln_Lambda method = []).
Proof.
  unfold coupling_warnings. split; [| split].
  - intros Hm Hb. apply any_some_below in Hb. now rewrite Hb, Hm.
  - intros Hno Hb. apply any_some_below in Hb. rewrite Hb.
    destruct Hno as [-> | Hno]; [now rewrite andb_false_r |].
    destruct (np.any (less_than f2 ln_Lambda)) eqn:H2; [| reflexivity].
    apply any_some_below in H2. contradiction.
  - intros Hno.
    destruct (np.any (less_than f4 ln_Lambda)) eqn:H4.
    { apply any_some_below in H4. contradiction. }
    destruct (np.any (less_than f2 ln_Lambda)) eqn:H2; [| reflexivity].
    exfalso. apply Hno. apply any_some_below in H2 as (x & Hin & Hx & Hlt).
    exists x. eauto using flt_2_4.
Qed.

(** C5, as the code has it. Once the impact parameters and their ratio
    are computed, a recognised method returns its value together with at
    most one warning, and never raises: the weak-coupling warning alone
    when the method is of the linear family and some element is below 2;
    otherwise the strong-coupling warning alone when some element is
    below 4; otherwise nothing. Elements that are not a number are below
    nothing, so they trigger neither. *)
Theorem coupling_warning_after_result
    (T n_e : ndarray float64) (species : Particle * Particle)
    (z_mean : ndarray float64) (V : option (ndarray float64)) (method : string)
    (bmin bmax q : ndarray float64) :
  impact_parameter T n_e species z_mean V method = Ok (bmin, bmax) ->
  np.divide bmax bmin = Ok q ->
  str_in method (linear_methods ++ clamp_methods ++ hyperbolic_methods) = true ->
  exists ln_Lambda w,
    Coulomb_logarithm T n_e species z_mean V method = Ok (ln_Lambda, w)
    /\ (str_in method linear_methods = true -> some_below f2 ln_Lambda ->
          w = [CouplingWarning (msg_weak_coupling ln_Lambda method)])
    /\ (str_in method linear_methods = false \/ ~ some_below f2 ln_Lambda ->
        some_below f4 ln_Lambda ->
          w = [CouplingWarning (msg_strong_coupling ln_Lambda)])
    /\ (~ some_below f4 ln_Lambda -> w = [])
    /\ (forall x, In x (np.elements ln_Lambda) -> fisnan x = true ->
          flt x f2 = false /\ flt x f4 = false).
Proof.
  intros Himp Hq Hm.
  destruct (Coulomb_logarithm_returns _ _ _ _ _ _ _ _ _ Himp Hq Hm) as [ln_Lambda Hln].
  exists ln_Lambda, (coupling_warnings ln_Lambda method).
  split; [exact Hln |].
  destruct (coupling_warnings_cases ln_Lambda method) as (Hweak & Hstrong & Hnone).
  repeat split; try assumption.
  - destruct x; [reflexivity | discriminate ..].
  - destruct x; [reflexivity | discriminate ..].
Qed.
End warning_facts.

Section run_warnings.
Import collisions collisions_spec run.
Local Open Scope R_scope.

(** C5, as the claim states it, fails: with the classical method at the
    temperatures 1 and 256 the result is [[0, ln 16]]; its second
    element lies in [2, 4), yet the only warning is the weak-coupling
    one. *)
Lemma strong_coupling_warning_counterexample :
  Coulomb_logarithm (H := nu) T2 n1 pair unset V1 "classical"
  = Ok (ln_Lambda_T2, [CouplingWarning (msg_weak_coupling ln_Lambda_T2 "classical")])
  /\ In (Fin (ln 16)) (np.elements ln_Lambda_T2)
  /\ fisnan (Fin (ln 16)) = false
  /\ fle f2 (Fin (ln 16)) = true
  /\ flt (Fin (ln 16)) f4 = true
  /\ ~ In (CouplingWarning (msg_strong_coupling ln_Lambda_T2))
         [CouplingWarning (msg_weak_coupling ln_Lambda_T2 "classical")].
Proof.
  pose proof ln_16_bounds as [Hlo Hhi].
  split; [apply Coulomb_logarithm_classical_T2 |].
  split; [simpl; auto |]. split; [reflexivity |].
  split; [simpl; now apply Rleb_true |].
  split; [simpl; now apply Rltb_true |].
  intros [Heq | []]. discriminate Heq.
Qed.
End run_warnings.

Section collisions_witnesses.
Import collisions collisions_spec run.
Local Open Scope R_scope.

Lemma divide_T2 :
  np.divide (Array [Fin 1; Fin 16]) (Array [Fin 1; Fin 1]) = Ok (Array [Fin 1; Fin 16]).
Proof. cbn. rewrite !Reqb_false by lra. do 3 f_equal; [| f_equal]; f_equal; lra. Qed.

Lemma no_zero_V1 (T : ndarray float64) :
  np.any (eq_zero (Some (bp_V (bp1 T)))) = false.
Proof. cbn. now rewrite Reqb_false by lra. Qed.

Lemma Debye_T1 : np.broadcast (@Debye_length nu) T1 n1 = Ok (Scalar (Fin 1)).
Proof.
  unfold T1, n1. cbn. unfold natural_units.Debye_length. float_eval.
  do 3 f_equal. apply sqrt_of_square; lra.
Qed.

Lemma not_negative_T1 : not_negative T1 /\ not_negative T2 /\ not_negative n1.
Proof.
  repeat split; intros x Hx; cbn in Hx;
    repeat (destruct Hx as [<- | Hx]; [cbn; apply Rltb_false; lra |]);
    destruct Hx.
Qed.

Lemma impact_parameter_min_interp_T1 (method : string) :
  str_in method min_interp_names = true ->
  impact_parameter (H := nu) T1 n1 pair unset V1 method
  = Ok (Scalar (bmin_interp (H := nu) f1 f1 fhalf (Fin 1)), Scalar (Fin 1)).
Proof.
  intros Hm.
  rewrite (table_min_interp T1 n1 pair unset V1 (bp1 T1) (Scalar (Fin 1))).
  - cbn [bp1 bp_V bp_reduced_mass pair fst snd charge natural_units.electron
           natural_units.positron fabs np.map fit_to].
    unfold f1. cbn [fabs]. rewrite Rabs_left by lra. rewrite Rabs_pos_eq by lra.
    replace (- -1) with 1 by lra. reflexivity.
  - apply boilerPlate_V1.
  - apply no_zero_V1.
  - apply Debye_T1.
  - exact Hm.
Qed.

Lemma bmin_interp_T1 : bmin_interp (H := nu) f1 f1 fhalf (Fin 1) = Fin bmin_T1.
Proof. unfold bmin_interp. now rewrite lambda_B_1, rho_perp_1, interpolate_Fin. Qed.

Lemma bmin_T1_square : bmin_T1 * bmin_T1 = 1 * 1 + / (2 * PI) * / (2 * PI).
Proof.
  unfold bmin_T1. apply sqrt_sqrt.
  pose proof PI_gt_2. assert (0 < / (2 * PI)) by (apply Rinv_0_lt_compat; lra). nra.
Qed.

Lemma bmin_T1_bounds : 1 <= bmin_T1 * bmin_T1 <= 2 /\ 0 < bmin_T1.
Proof.
  rewrite bmin_T1_square. pose proof PI_gt_2 as Hpi.
  assert (H0 : 0 < / (2 * PI)) by (apply Rinv_0_lt_compat; lra).
  assert (H1 : / (2 * PI) < 1).
  { rewrite <- Rinv_1. apply Rinv_lt_contravar; lra. }
  split; [nra |].
  unfold bmin_T1. apply sqrt_lt_R0. nra.
Qed.

(** At temperature 1 [float64] holds the squares of the two impact
    parameters and of their ratio. *)
Lemma interp_T1_in_range :
  let bmin := Scalar (bmin_interp (H := nu) f1 f1 fhalf (Fin 1)) in
  let bmax := Scalar (Fin 1) in
  within_range64 (np.square bmax) /\ within_range64 (np.square bmin)
  /\ within_range64 (np.square (Scalar (Fin 1 / bmin_interp (H := nu) f1 f1 fhalf (Fin 1))%f64)).
Proof.
  pose proof thresholds as [[Hu0 Hu1] Ho].
  pose proof bmin_T1_bounds as [[Hlo Hhi] Hpos].
  rewrite bmin_interp_T1. rewrite fdiv_Fin by lra.
  unfold within_range64, np.square, fsquare. cbn [np.map fmul].
  assert (Hq : 1 / 2 <= 1 / bmin_T1 * (1 / bmin_T1) <= 1).
  { replace (1 / bmin_T1 * (1 / bmin_T1)) with (/ (bmin_T1 * bmin_T1))
      by (field; lra).
    split.
    - apply Rmult_le_reg_r with (bmin_T1 * bmin_T1); [nra |].
      rewrite Rinv_l by nra. lra.
    - rewrite <- Rinv_1. apply Rinv_le_contravar; lra. }
  repeat split; f_equal; apply range64_Fin; rewrite Rabs_pos_eq; lra.
Qed.



Lemma impact_parameter_GMS3_T1 :
  impact_parameter (H := nu) T1 n1 pair unset V1 "GMS-3"
  = Ok (Scalar (bmin_interp (H := nu) f1 f1 fhalf (Fin 1)), Scalar (Fin 1)).
Proof. now apply impact_parameter_min_interp_T1. Qed.

Lemma clamp_never_below_2_witness :
  Coulomb_logarithm (H := nu) T1 n1 pair unset V1 "GMS-3"
  = Ok (np.map clamp_at_2
          (np.map flog (Scalar (Fin 1 / bmin_interp (H := nu) f1 f1 fhalf (Fin 1))%f64)),
        coupling_warnings
          (np.map clamp_at_2
             (np.map flog (Scalar (Fin 1 / bmin_interp (H := nu) f1 f1 fhalf (Fin 1))%f64)))
          "GMS-3").
Proof.
  apply (proj1 (clamp_never_below_2 (H := nu) T1 n1 pair unset V1 "GMS-3"
                  (Scalar (bmin_interp (H := nu) f1 f1 fhalf (Fin 1))) (Scalar (Fin 1))
                  (Scalar (Fin 1 / bmin_interp (H := nu) f1 f1 fhalf (Fin 1))%f64)
                  eq_refl impact_parameter_GMS3_T1 eq_refl)).
Defined.

Lemma coupling_warning_after_result_witness :
  exists ln_Lambda w,
    Coulomb_logarithm (H := nu) T2 n1 pair unset V1 "classical" = Ok (ln_Lambda, w)
    /\ (str_in "classical" linear_methods = true -> some_below f2 ln_Lambda ->
          w = [CouplingWarning (msg_weak_coupling ln_Lambda "classical")])
    /\ (str_in "classical" linear_methods = false \/ ~ some_below f2 ln_Lambda ->
        some_below f4 ln_Lambda ->
          w = [CouplingWarning (msg_strong_coupling ln_Lambda)])
    /\ (~ some_below f4 ln_Lambda -> w = [])
    /\ (forall x, In x (np.elements ln_Lambda) -> fisnan x = true ->
          flt x f2 = false /\ flt x f4 = false).
Proof.
  apply (coupling_warning_after_result (H := nu) T2 n1 pair unset V1 "classical"
           (Array [Fin 1; Fin 1]) (Array [Fin 1; Fin 16]) (Array [Fin 1; Fin 16])
           impact_parameter_classical_T2 divide_T2 eq_refl).
Defined.

Lemma z_mean_required_witness :
  impact_parameter (H := nu) T1 n1 pair (Scalar NaN) V1 "GMS-6"
  = Raise (ValueError msg_z_mean)
  /\ Coulomb_logarithm (H := nu) T1 n1 pair (Scalar NaN) V1 "GMS-6"
     = Raise (ValueError msg_z_mean).
Proof.
  apply (proj2 (proj1 (z_mean_required (H := nu) T1 n1 pair V1 "GMS-6") eq_refl)
           (bp1 T1) (boilerPlate_V1 T1)).
Defined.
End collisions_witnesses.

(** ** A thin plasma *)

Section thin_plasma.
Import collisions collisions_spec run.
Local Open Scope R_scope.

Lemma boilerPlate_V4 (T : ndarray float64) : _boilerPlate (H := nu) T pair V4 = Ok (bp4 T).
Proof.
  unfold _boilerPlate, _replaceNanVwithThermalV, V4. float_eval.
  unfold natural_units._check_relativistic. float_eval.
  unfold bp4, f1, fhalf.
  replace (- (-1)) with 1 by lra. replace (1 * 1 / (1 + 1)) with (1 / 2) by lra.
  reflexivity.
Qed.

Lemma Debye_thin :
  np.broadcast (@Debye_length nu) T1 n_thin = Ok (Scalar (Fin bmax_thin)).
Proof.
  unfold T1, n_thin. cbn [np.broadcast Debye_length nu natural_units.collisions_formulary].
  unfold natural_units.Debye_length, natural_units.eps0, f1. cbn [fmul].
  rewrite fdiv_Fin by lra. cbn [fsqrt]. rewrite Rltb_false by lra.
  do 3 f_equal. unfold bmax_thin. apply sqrt_of_square; lra.
Qed.

Lemma bmin_interp_V4 : bmin_interp (H := nu) f1 f1 fhalf (Fin 4) = Fin bmin_thin.
Proof.
  pose proof PI_RGT_0 as Hpi.
  assert (HB : lambda_B (H := nu) fhalf (Fin 4) = Fin (/ 4)).
  { unfold lambda_B. float_eval. f_equal. lra. }
  assert (Hrho : rho_perp (H := nu) f1 f1 fhalf (Fin 4) = Fin (/ (32 * PI))).
  { unfold rho_perp. float_eval. f_equal. field. lra. }
  unfold bmin_interp. now rewrite HB, Hrho, interpolate_Fin.
Qed.

Lemma bmin_thin_bounds : / 16 <= bmin_thin * bmin_thin <= / 8 /\ 0 < bmin_thin.
Proof.
  pose proof PI_gt_2 as Hpi.
  assert (H0 : 0 < / (32 * PI)) by (apply Rinv_0_lt_compat; lra).
  assert (H1 : / (32 * PI) < / 4) by (apply Rinv_lt_contravar; lra).
  assert (Hsq : bmin_thin * bmin_thin = / 4 * / 4 + / (32 * PI) * / (32 * PI))
    by (unfold bmin_thin; apply sqrt_sqrt; nra).
  split; [rewrite Hsq; nra |].
  unfold bmin_thin. apply sqrt_lt_R0. nra.
Qed.

Lemma impact_parameter_thin :
  impact_parameter (H := nu) T1 n_thin pair unset V4 "hls_min_interp"
  = Ok (Scalar (Fin bmin_thin), Scalar (Fin bmax_thin)).
Proof.
  rewrite (table_min_interp T1 n_thin pair unset V4 (bp4 T1) (Scalar (Fin bmax_thin))).
  - cbn [bp4 bp_V bp_reduced_mass pair fst snd charge natural_units.electron
           natural_units.positron fabs np.map fit_to].
    unfold f1. cbn [fabs]. rewrite Rabs_left by lra. rewrite Rabs_pos_eq by lra.
    replace (- -1) with 1 by lra. fold f1. now rewrite bmin_interp_V4.
  - apply boilerPlate_V4.
  - cbn. now rewrite Reqb_false by lra.
  - apply Debye_thin.
  - reflexivity.
Qed.

(** The quotient of the squares is beyond the largest [float64]. *)
Lemma hyperbolic64_thin : hyperbolic64 (Fin bmax_thin) (Fin bmin_thin) = PInf.
Proof.
  pose proof thresholds as [[Hu0 Hu1] Ho].
  pose proof bmin_thin_bounds as [[Hlo Hhi] Hpos].
  assert (Hmax : bmax_thin * bmax_thin = 2 ^ 1022) by (unfold bmax_thin; lra).
  unfold hyperbolic64.
  rewrite (fsquare64_Fin bmax_thin)
    by (rewrite Hmax; unfold overflow_threshold; lra).
  rewrite (fsquare64_Fin bmin_thin) by lra.
  unfold fdiv64. rewrite fdiv_Fin by lra.
  rewrite range64_overflow.
  - unfold half_log_1p, f1, fhalf. cbn [fadd flog fmul fsign sign_mul inf_of].
    now rewrite Rsign_pos by lra.
  - rewrite Hmax. unfold Rdiv.
    assert (H8 : 8 <= / (bmin_thin * bmin_thin)).
    { rewrite <- (Rinv_inv 8). apply Rinv_le_contravar; lra. }
    assert (Hbig : 0 < 2 ^ 1022) by lra.
    unfold overflow_threshold. nra.
Qed.

(** C1, the ratio form. A call of ["hls_min_interp"] on admitted
    arguments whose impact parameters, and the ratio of them, are
    ordinary numbers: [0.5 * ln(1 + (bmax / bmin) ** 2)] is a finite
    number, and the call returns [+inf], because the quotient
    [bmax ** 2 / bmin ** 2] is beyond the largest [float64]. *)
Lemma hyperbolic_formula_overflows :
  let q := bmax_thin / bmin_thin in
  not_negative T1 /\ not_negative n_thin
  /\ impact_parameter (H := nu) T1 n_thin pair unset V4 "hls_min_interp"
     = Ok (Scalar (Fin bmin_thin), Scalar (Fin bmax_thin))
  /\ np.divide (Scalar (Fin bmax_thin)) (Scalar (Fin bmin_thin)) = Ok (Scalar (Fin q))
  /\ np.map hyperbolic (Scalar (Fin q)) = Scalar (Fin (1 / 2 * ln (1 + q * q)))
  /\ value_of (Coulomb_logarithm (H := nu) T1 n_thin pair unset V4 "hls_min_interp")
     = Ok (Scalar PInf).
Proof.
  intros q. pose proof bmin_thin_bounds as [_ Hpos].
  assert (Hq : np.divide (Scalar (Fin bmax_thin)) (Scalar (Fin bmin_thin))
               = Ok (Scalar (Fin q))).
  { unfold np.divide. cbn [np.broadcast]. now rewrite fdiv_Fin by lra. }
  split; [apply not_negative_T1 |]. split.
  { intros x [<- | []]. cbn. apply Rltb_false.
    apply Rlt_le, Rinv_0_lt_compat. lra. }
  split; [exact impact_parameter_thin |]. split; [exact Hq |]. split.
  { cbn [np.map]. now rewrite hyperbolic_Fin. }
  destruct (Coulomb_logarithm_hyperbolic64 _ _ _ _ _ _ _ _ _ impact_parameter_thin Hq
              eq_refl) as (ln_Lambda & Hln & Hrun).
  rewrite Hrun. cbn [value_of bind fst]. cbn [np.broadcast] in Hln.
  rewrite hyperbolic64_thin in Hln. congruence.
Qed.
End thin_plasma.

(* ================================================================== *)
(** * Facts about [thomson.py] *)

Section ion_species_facts.
Import thomson thomson_spec.
Context `{Formulary}.


Lemma lookup_middle (pre post : list particle_like) (x : particle_like) :
  (pre ++ x :: post) !! length pre = Some x.
Proof. now rewrite list_lookup_middle. Qed.

Lemma insert_middle (pre post : list particle_like) (x y : particle_like) :
  <[length pre := y]> (pre ++ x :: post) = pre ++ y :: post.
Proof.
  rewrite insert_app_r_alt by lia. now rewrite Nat.sub_diag.
Qed.

(** The loop over the rest [post] of the list, the entries of [pre] being
    visited already: it succeeds exactly when each string of [post]
    names a particle, and then leaves the particles in the list. *)
Lemma condition_ion_species_run (l : loc) (post : list particle_like) :
  forall (pre : list particle_like) (ps : list Particle) (h : heap),
    h !! l = Some (pre ++ post) ->
    Forall2 resolves post ps ->
    condition_ion_species l (seq (length pre) (length post)) h
    = (<[l := pre ++ List.map PObj ps]> h, Ok tt).
Proof.
  induction post as [| x post IH]; intros pre ps h Hl Hres.
  - inversion Hres; subst. simpl. unfold ret. f_equal.
    symmetry. now apply insert_id.
  - inversion Hres as [| ? p ? ps' Hx Hps]; subst.
    cbn [length seq condition_ion_species]. unfold mbind at 1. unfold get_list at 1.
    rewrite Hl, lookup_middle.
    assert (Hnext : forall h1 : heap,
               h1 !! l = Some (pre ++ PObj p :: post) ->
               condition_ion_species l (seq (S (length pre)) (length post)) h1
               = (<[l := pre ++ PObj p :: List.map PObj ps']> h1, Ok tt)).
    { intros h1 Hh1.
      replace (S (length pre)) with (length (pre ++ [PObj p])) by (rewrite length_app; simpl; lia).
      rewrite (IH (pre ++ [PObj p]) ps' h1).
      - now rewrite <- app_assoc.
      - now rewrite <- app_assoc.
      - assumption. }
    destruct x as [s | p']; simpl in Hx.
    + unfold mbind, lift. rewrite Hx. unfold list_setitem. rewrite Hl.
      rewrite length_app. simpl.
      replace (length pre <? length pre + S (length post))%nat with true
        by (symmetry; apply Nat.ltb_lt; lia).
      rewrite insert_middle. rewrite Hnext by apply lookup_insert_eq.
      now rewrite insert_insert_eq.
    + subst p'. now apply Hnext.
Qed.

(** A loop that succeeds has resolved every entry. *)
Lemma condition_ion_species_inv (l : loc) (post : list particle_like) :
  forall (pre : list particle_like) (h h' : heap),
    h !! l = Some (pre ++ post) ->
    condition_ion_species l (seq (length pre) (length post)) h = (h', Ok tt) ->
    exists ps, Forall2 resolves post ps.
Proof.
  induction post as [| x post IH]; intros pre h h' Hl Hrun.
  - exists []. constructor.
  - cbn [length seq condition_ion_species] in Hrun. unfold mbind at 1 in Hrun.
    unfold get_list at 1 in Hrun. rewrite Hl, lookup_middle in Hrun.
    destruct x as [s | p].
    + unfold mbind, lift in Hrun.
      destruct (Particle_new s) as [p |] eqn:Hs; [| discriminate].
      unfold list_setitem in Hrun. rewrite Hl in Hrun.
      rewrite length_app in Hrun. simpl in Hrun.
      replace (length pre <? length pre + S (length post))%nat with true in Hrun
        by (symmetry; apply Nat.ltb_lt; lia).
      rewrite insert_middle in Hrun.
      replace (S (length pre)) with (length (pre ++ [PObj p])) in Hrun
        by (rewrite length_app; simpl; lia).
      apply IH in Hrun as [ps Hps].
      * exists (p :: ps). constructor; assumption.
      * rewrite lookup_insert_eq. now rewrite <- app_assoc.
    + replace (S (length pre)) with (length (pre ++ [PObj p])) in Hrun
        by (rewrite length_app; simpl; lia).
      apply IH in Hrun as [ps Hps].
      * exists (p :: ps). constructor; [reflexivity | assumption].
      * now rewrite <- app_assoc.
Qed.

(** Whatever the outcome, the loop writes to the list object [l] only. *)
Lemma condition_ion_species_frame (l : loc) (idxs : list nat) :
  forall (h h' : heap) (r : result unit),
    condition_ion_species l idxs h = (h', r) ->
    forall l', l' <> l -> h' !! l' = h !! l'.
Proof.
  induction idxs as [| ii idxs IH]; intros h h' r Hrun l' Hne.
  - injection Hrun as <- _. reflexivity.
  - cbn [condition_ion_species] in Hrun. unfold mbind at 1 in Hrun.
    unfold get_list at 1 in Hrun.
    destruct (h !! l) as [xs |] eqn:Hl; [| now injection Hrun as <- _].
    destruct (xs !! ii) as [[s | p] |]; [| now apply (IH _ _ _ Hrun) | now injection Hrun as <- _].
    unfold mbind, lift in Hrun.
    destruct (Particle_new s) as [p |]; [| now injection Hrun as <- _].
    unfold list_setitem in Hrun. rewrite Hl in Hrun.
    destruct (ii <? length xs)%nat; [| now injection Hrun as <- _].
    rewrite (IH _ _ _ Hrun l' Hne). now apply lookup_insert_ne.
Qed.

Lemma particles_of_PObj (ps : list Particle) : particles_of (List.map PObj ps) = Ok ps.
Proof. induction ps as [| p ps IH]; simpl; [reflexivity | now rewrite IH]. Qed.
End ion_species_facts.

Section spectral_density_run.
Import thomson thomson_spec.
Context `{Formulary}.

Variables (wavelengths : list float64) (probe_wavelength n : float64).
Variables (Te Ti : ndarray float64) (efract ifract : option (list float64)).
Variables (electron_vel ion_vel : option (list vec3)) (probe_vec scatter_vec : vec3).

(** The call on a list object whose entries all resolve: the list holds
    the particles afterwards, and the outcome is that of the checks and
    of the physics on them. *)
Lemma spectral_density_on_list (l : loc) (xs : list particle_like) (ps : list Particle)
    (h : heap) :
  h !! l = Some xs ->
  xs <> [] ->
  Forall2 resolves xs ps ->
  spectral_density wavelengths probe_wavelength n Te Ti efract ifract (AList l)
    electron_vel ion_vel probe_vec scatter_vec h
  = (<[l := List.map PObj ps]> h,
     checked_spectrum wavelengths probe_wavelength n Te Ti
       (fract_or_ones efract) (fract_or_ones ifract) ps
       (vel_or_zeros electron_vel (length (fract_or_ones efract)))
       (vel_or_zeros ion_vel (length (fract_or_ones ifract)))
       probe_vec scatter_vec).
Proof.
  intros Hl Hne Hres. unfold spectral_density. cbv zeta.
  unfold as_list. unfold mbind at 1. unfold ret at 1.
  unfold mbind at 1. unfold get_list at 1. rewrite Hl.
  unfold mbind at 1.
  destruct (Nat.eqb_spec (length xs) 0) as [Hz | _];
    [now apply nil_length_inv in Hz |].
  unfold ret at 1. unfold mbind at 1.
  pose proof (condition_ion_species_run l xs [] ps h Hl Hres) as Hrun.
  cbn [length app] in Hrun. rewrite Hrun.
  unfold mbind at 1. unfold get_list at 1. rewrite lookup_insert_eq.
  assert (Hlen : length (List.map PObj ps) = length ps) by apply List.length_map.
  rewrite Hlen. unfold checked_spectrum.
  unfold mbind at 1. unfold lift at 1.
  destruct (condition_Te Te _) as [Te' | e]; [| reflexivity]. cbn [bind].
  unfold mbind at 1. unfold lift at 1.
  destruct (condition_Ti Ti _) as [Ti' | e]; [| reflexivity]. cbn [bind].
  unfold mbind at 1.
  destruct (negb _ || negb _ || negb _); [reflexivity |]. unfold ret at 1. cbn [bind].
  unfold mbind at 1.
  destruct (negb _ || negb _); [reflexivity |]. unfold ret at 1. cbn [bind].
  unfold mbind at 1. unfold lift at 1. rewrite particles_of_PObj. reflexivity.
Qed.
End spectral_density_run.

Section ion_species_theorems.
Import thomson thomson_spec.
Context `{Formulary}.

Variables (wavelengths : list float64) (probe_wavelength n : float64).
Variables (Te Ti : ndarray float64) (efract ifract : option (list float64)).
Variables (electron_vel ion_vel : option (list vec3)) (probe_vec scatter_vec : vec3).

(** Whatever the outcome, the call on the list object [l] writes to [l]
    only. *)
Lemma spectral_density_frame_list (l : loc) (h h' : heap)
    (r : result (float64 * list float64)) :
  spectral_density wavelengths probe_wavelength n Te Ti efract ifract (AList l)
    electron_vel ion_vel probe_vec scatter_vec h = (h', r) ->
  forall l', l' <> l -> h' !! l' = h !! l'.
Proof.
  unfold spectral_density. cbv zeta. unfold as_list.
  unfold mbind at 1. unfold ret at 1.
  unfold mbind at 1. unfold get_list at 1.
  destruct (h !! l) as [xs |] eqn:Hl; [| now intros [= <- _]].
  unfold mbind at 1.
  destruct (Nat.eqb (length xs) 0); [now intros [= <- _] |].
  unfold ret at 1. unfold mbind at 1.
  destruct (condition_ion_species l (seq 0 (length xs)) h) as [h1 [[] | e]] eqn:Hloop.
  2:{ intros [= <- _]. now apply (condition_ion_species_frame _ _ _ _ _ Hloop). }
  pose proof (condition_ion_species_frame _ _ _ _ _ Hloop) as Hframe.
  assert (Hpure : forall (m : M (float64 * list float64)),
             (forall h2, fst (m h2) = h2) -> m h1 = (h', r) ->
             forall l', l' <> l -> h' !! l' = h !! l').
  { intros m Hm Hrun l' Hne. rewrite <- (Hframe l' Hne).
    pose proof (Hm h1) as Hfst. rewrite Hrun in Hfst. simpl in Hfst. now subst h'. }
  apply Hpure. intros h2.
  unfold mbind at 1. unfold get_list at 1.
  destruct (h2 !! l) as [species |]; [| reflexivity].
  unfold mbind at 1. unfold lift at 1.
  destruct (condition_Te Te _); [| reflexivity].
  unfold mbind at 1. unfold lift at 1.
  destruct (condition_Ti Ti _); [| reflexivity].
  unfold mbind at 1.
  destruct (negb _ || negb _ || negb _); [reflexivity |]. unfold ret at 1.
  unfold mbind at 1.
  destruct (negb _ || negb _); [reflexivity |]. unfold ret at 1.
  unfold mbind at 1. unfold lift at 1.
  destruct (particles_of species); reflexivity.
Qed.

(** A call on a list object that returns has found the list non-empty
    and has resolved every entry. *)
Lemma returned_list_resolved (l : loc) (xs : list particle_like)
    (h h' : heap) (res : float64 * list float64) :
  h !! l = Some xs ->
  spectral_density wavelengths probe_wavelength n Te Ti efract ifract (AList l)
    electron_vel ion_vel probe_vec scatter_vec h = (h', Ok res) ->
  xs <> [] /\ exists ps, Forall2 resolves xs ps.
Proof.
  intros Hl Hrun.
  assert (Hloop : exists h1, condition_ion_species l (seq 0 (length xs)) h = (h1, Ok tt)
                             /\ xs <> []).
  { unfold spectral_density in Hrun. cbv zeta in Hrun. unfold as_list in Hrun.
    unfold mbind at 1 in Hrun. unfold ret at 1 in Hrun.
    unfold mbind at 1 in Hrun. unfold get_list at 1 in Hrun. rewrite Hl in Hrun.
    unfold mbind at 1 in Hrun.
    destruct xs as [| x xs']; [discriminate |]. cbn [length Nat.eqb] in Hrun.
    unfold ret at 1 in Hrun. unfold mbind at 1 in Hrun.
    destruct (condition_ion_species l _ h) as [h1 [[] | e]]; [| discriminate].
    exists h1. split; [reflexivity | discriminate]. }
  destruct Hloop as (h1 & Hloop & Hne). split; [assumption |].
  exact (condition_ion_species_inv l xs [] h h1 Hl Hloop).
Qed.

(** C10. A call on admitted arguments with a list object as
    [ion_species] writes into that object: when the list is not empty and
    its entries resolve, the list holds the resolved [Particle] of every
    entry after the call, whether the call then returns or the checks
    that follow raise, and the outcome is that of the checks and of the
    spectrum on these particles. A call that returns has found such a
    list. Every other list object is as it was, also when the call raises
    or [ion_species] is no list at all; the remaining arguments are
    values that the function cannot write to. *)
Theorem ion_species_list_mutated_in_place (l : loc) (xs : list particle_like) (h : heap) :
  admitted wavelengths probe_wavelength n Te Ti ->
  h !! l = Some xs ->
  let call :=
    spectral_density wavelengths probe_wavelength n Te Ti efract ifract (AList l)
      electron_vel ion_vel probe_vec scatter_vec in
  (forall ps, xs <> [] -> Forall2 resolves xs ps ->
     call h
     = (<[l := List.map PObj ps]> h,
        checked_spectrum wavelengths probe_wavelength n Te Ti
          (fract_or_ones efract) (fract_or_ones ifract) ps
          (vel_or_zeros electron_vel (length (fract_or_ones efract)))
          (vel_or_zeros ion_vel (length (fract_or_ones ifract)))
          probe_vec scatter_vec)
     /\ fst (call h) !! l = Some (List.map PObj ps))
  /\ (forall h' res, call h = (h', Ok res) ->
        exists ps, Forall2 resolves xs ps /\ h' !! l = Some (List.map PObj ps))
  /\ (forall l', l' <> l -> fst (call h) !! l' = h !! l')
  /\ (forall arg h1 h1' r,
        spectral_density wavelengths probe_wavelength n Te Ti efract ifract arg
          electron_vel ion_vel probe_vec scatter_vec h1 = (h1', r) ->
        forall l', arg <> AList l' -> is_Some (h1 !! l') -> h1' !! l' = h1 !! l').
Proof.
  intros _ Hl call. split; [| split; [| split]].
  - intros ps Hne Hps. subst call.
    rewrite (spectral_density_on_list _ _ _ _ _ _ _ _ _ _ _ l xs ps h Hl Hne Hps).
    split; [reflexivity | apply lookup_insert_eq].
  - intros h' res Hrun. subst call.
    destruct (returned_list_resolved l xs h h' res Hl Hrun) as (Hne & ps & Hps).
    exists ps. split; [assumption |].
    rewrite (spectral_density_on_list _ _ _ _ _ _ _ _ _ _ _ l xs ps h Hl Hne Hps) in Hrun.
    injection Hrun as <- _. apply lookup_insert_eq.
  - intros l' Hne. subst call.
    destruct (spectral_density wavelengths probe_wavelength n Te Ti efract ifract
                (AList l) electron_vel ion_vel probe_vec scatter_vec h) as [h' r] eqn:Hrun.
    cbn [fst]. exact (spectral_density_frame_list l h h' r Hrun l' Hne).
  - intros arg h1 h1' r Hrun1 l' Harg Hsome.
    destruct arg as [s | p | l1].
    + assert (Hfresh : l' <> fresh (dom h1)).
      { intros ->. apply elem_of_dom in Hsome. now apply is_fresh in Hsome. }
      change (spectral_density wavelengths probe_wavelength n Te Ti efract ifract
                (AList (fresh (dom h1))) electron_vel ion_vel probe_vec scatter_vec
                (<[fresh (dom h1) := [PStr s]]> h1) = (h1', r)) in Hrun1.
      rewrite (spectral_density_frame_list _ _ _ _ Hrun1 l' Hfresh).
      now apply lookup_insert_ne.
    + assert (Hfresh : l' <> fresh (dom h1)).
      { intros ->. apply elem_of_dom in Hsome. now apply is_fresh in Hsome. }
      change (spectral_density wavelengths probe_wavelength n Te Ti efract ifract
                (AList (fresh (dom h1))) electron_vel ion_vel probe_vec scatter_vec
                (<[fresh (dom h1) := [PObj p]]> h1) = (h1', r)) in Hrun1.
      rewrite (spectral_density_frame_list _ _ _ _ Hrun1 l' Hfresh).
      now apply lookup_insert_ne.
    + apply (spectral_density_frame_list _ _ _ _ Hrun1). congruence.
Qed.
End ion_species_theorems.

Section count_checks.
Import thomson thomson_spec.
Context `{Formulary}.

Lemma condition_Te_Ok (Te : ndarray float64) (n_efract : nat) (Te' : list float64) :
  condition_Te Te n_efract = Ok Te' ->
  (np.size Te = 1 \/ np.size Te = n_efract) /\ length Te' = n_efract.
Proof.
  unfold condition_Te. 
  assert (Hsize : np.size Te = length (np.elements Te)) by now destruct Te.
  rewrite Hsize. destruct (np.elements Te) as [| t [| t' ts]].
  - destruct (Nat.eqb_spec (length (@nil float64)) n_efract) as [<- | Hne]; simpl.
    + intros [= <-]. auto.
    + discriminate.
  - intros [= <-]. rewrite length_replicate. auto.
  - destruct (Nat.eqb_spec (length (t :: t' :: ts)) n_efract) as [<- | Hne];
      cbn [negb].
    + intros [= <-]. auto.
    + discriminate.
Qed.

Lemma condition_Te_Raise (Te : ndarray float64) (n_efract : nat) (e : exception) :
  condition_Te Te n_efract = Raise e ->
  e = ValueError (msg_Te (np.size Te) n_efract)
  /\ np.size Te <> 1 /\ np.size Te <> n_efract.
Proof.
  unfold condition_Te.
  assert (Hsize : np.size Te = length (np.elements Te)) by now destruct Te.
  rewrite Hsize. destruct (np.elements Te) as [| t [| t' ts]].
  - destruct (Nat.eqb_spec (length (@nil float64)) n_efract) as [<- | Hne]; simpl.
    + discriminate.
    + intros [= <-]. simpl in Hne. auto.
  - discriminate.
  - destruct (Nat.eqb_spec (length (t :: t' :: ts)) n_efract) as [<- | Hne];
      cbn [negb].
    + discriminate.
    + intros [= <-]. simpl. auto.
Qed.

Lemma condition_Ti_Ok (Ti : ndarray float64) (n_species : nat) (Ti' : list float64) :
  condition_Ti Ti n_species = Ok Ti' ->
  (np.size Ti = 1 \/ np.size Ti = n_species) /\ length Ti' = n_species.
Proof.
  unfold condition_Ti.
  assert (Hsize : np.size Ti = length (np.elements Ti)) by now destruct Ti.
  rewrite Hsize. destruct (np.elements Ti) as [| t [| t' ts]].
  - destruct (Nat.eqb_spec (length (@nil float64)) n_species) as [<- | Hne]; simpl.
    + intros [= <-]. auto.
    + discriminate.
  - intros [= <-]. rewrite length_replicate. auto.
  - destruct (Nat.eqb_spec (length (t :: t' :: ts)) n_species) as [<- | Hne];
      cbn [negb].
    + intros [= <-]. auto.
    + discriminate.
Qed.

Lemma condition_Ti_Raise (Ti : ndarray float64) (n_species : nat) (e : exception) :
  condition_Ti Ti n_species = Raise e ->
  e = ValueError (msg_Ti (np.size Ti) n_species)
  /\ np.size Ti <> 1 /\ np.size Ti <> n_species.
Proof.
  unfold condition_Ti.
  assert (Hsize : np.size Ti = length (np.elements Ti)) by now destruct Ti.
  rewrite Hsize. destruct (np.elements Ti) as [| t [| t' ts]].
  - destruct (Nat.eqb_spec (length (@nil float64)) n_species) as [<- | Hne]; simpl.
    + discriminate.
    + intros [= <-]. simpl in Hne. auto.
  - discriminate.
  - destruct (Nat.eqb_spec (length (t :: t' :: ts)) n_species) as [<- | Hne];
      cbn [negb].
    + discriminate.
    + intros [= <-]. simpl. auto.
Qed.

Variables (wavelengths : list float64) (probe_wavelength n : float64).
Variables (Te Ti : ndarray float64) (efract ifract : list float64).
Variables (particles : list Particle) (electron_vel ion_vel : list vec3).
Variables (probe_vec scatter_vec : vec3).

(** The checks let the call through exactly when the counts agree; when
    they do not, the call raises [ValueError] and computes nothing. *)
Lemma checked_spectrum_counts :
  (counts_agree Te Ti efract ifract particles electron_vel ion_vel ->
     exists Te' Ti',
       condition_Te Te (length efract) = Ok Te'
       /\ condition_Ti Ti (length particles) = Ok Ti'
       /\ checked_spectrum wavelengths probe_wavelength n Te Ti efract ifract particles
            electron_vel ion_vel probe_vec scatter_vec
          = Ok (spectrum wavelengths probe_wavelength n Te' Ti' efract ifract particles
                  electron_vel ion_vel probe_vec scatter_vec))
  /\ (~ counts_agree Te Ti efract ifract particles electron_vel ion_vel ->
      exists msg,
        checked_spectrum wavelengths probe_wavelength n Te Ti efract ifract particles
          electron_vel ion_vel probe_vec scatter_vec
        = Raise (ValueError msg)
        /\ (msg = msg_Te (np.size Te) (length efract)
            \/ msg = msg_Ti (np.size Ti) (length particles)
            \/ (exists Ti_size,
                  msg = msg_ion_counts ifract (length particles) Ti_size (length ion_vel))
            \/ (exists Te_size,
                  msg = msg_electron_counts (length efract) Te_size (length electron_vel)))).
Proof.
  unfold counts_agree, checked_spectrum.
  destruct (condition_Te Te (length efract)) as [Te' | e] eqn:HTe.
  2:{ apply condition_Te_Raise in HTe as (-> & Hn1 & Hn2). split.
      - intros ([? | ?] & _); contradiction.
      - intros _. eexists. split; [reflexivity | auto]. }
  apply condition_Te_Ok in HTe as (HTe & HTe').
  destruct (condition_Ti Ti (length particles)) as [Ti' | e] eqn:HTi.
  2:{ apply condition_Ti_Raise in HTi as (-> & Hn1 & Hn2). split.
      - intros (_ & [? | ?] & _); contradiction.
      - intros _. eexists. split; [reflexivity | auto]. }
  apply condition_Ti_Ok in HTi as (HTi & HTi').
  cbn [bind]. rewrite HTe', HTi'.
  destruct (Nat.eqb_spec (length particles) (length ifract)) as [HS | HS];
    cbn [negb orb].
  2:{ split; [intros (_ & _ & ? & _); contradiction |].
      intros _. eexists. split; [reflexivity | eauto 6]. }
  destruct (Nat.eqb_spec (length ion_vel) (length ifract)) as [HI | HI];
    cbn [negb orb].
  2:{ split; [intros (_ & _ & _ & ? & _); contradiction |].
      intros _. eexists. split; [reflexivity | eauto 6]. }
  cbn [bind].
  destruct (Nat.eqb_spec (length electron_vel) (length efract)) as [HE | HE];
    cbn [negb orb].
  2:{ split; [intros (_ & _ & _ & _ & ?); contradiction |].
      intros _. eexists. split; [reflexivity | eauto 6]. }
  rewrite Nat.eqb_refl. cbn [negb bind]. split.
  - intros _. exists Te', Ti'. auto.
  - intros Hno. exfalso. apply Hno. auto.
Qed.
End count_checks.

Section failing_input.
Import thomson thomson_spec thomson_run.

Lemma resolves_H : Forall2 (resolves (H := nu)) [PStr "H+"] [natural_units.proton].
Proof. repeat constructor. Qed.

(** The message of the electron check, for comparison: two electron
    fractions against one electron velocity. Every field between the
    parentheses is a count. *)
Lemma electron_count_message_prints_sizes :
  spectral_density (H := nu) [lambda0] lambda0 f1 (Scalar f1) (Scalar f1)
    (Some half_half) None (AList l0) (Some [zero_vel]) None
    default_probe_vec default_scatter_vec heap_H
  = ({[ l0 := [PObj natural_units.proton] ]},
     Raise (ValueError
       [Lit "Inconsistent number of electron populations in efract ("; Int 2;
        Lit "), Te ("; Int 2; Lit "), or electron velocity ("; Int 1; Lit ")."])).
Proof.
  rewrite (spectral_density_on_list (H := nu) _ _ _ _ _ _ _ _ _ _ _ l0
             [PStr "H+"] [natural_units.proton] heap_H).
  - reflexivity.
  - apply lookup_singleton_eq.
  - discriminate.
  - apply resolves_H.
Qed.

(** C7. A call with two ion fractions and a list of one ion species
    raises [ValueError] before any number is computed, and the message
    carries the array [ifract] itself where the counts of the species, of
    the ion temperatures and of the ion velocities stand as numbers. *)
Theorem ion_count_message_prints_ifract :
  spectral_density (H := nu) [lambda0] lambda0 f1 (Scalar f1) (Scalar f1)
    None (Some half_half) (AList l0) None None default_probe_vec default_scatter_vec
    heap_H
  = ({[ l0 := [PObj natural_units.proton] ]},
     Raise (ValueError
       [Lit "Inconsistent number of species in ifract ("; Floats [fhalf; fhalf];
        Lit "), ion_species ("; Int 1; Lit "), Ti ("; Int 1;
        Lit "), and/or ion_vel ("; Int 2; Lit ")."])).
Proof.
  rewrite (spectral_density_on_list (H := nu) _ _ _ _ _ _ _ _ _ _ _ l0
             [PStr "H+"] [natural_units.proton] heap_H).
  - reflexivity.
  - apply lookup_singleton_eq.
  - discriminate.
  - apply resolves_H.
Qed.
End failing_input.

Section normalization.
Import thomson thomson_spec.
Local Open Scope R_scope.


(** A sum of squares of ordinary components, which [float64] holds. *)
Lemma range64_held (x : R) :
  x = 0 \/ / 2 ^ 1074 <= x <= 3 * 2 ^ 1022 -> range64 (Fin x) = Fin x.
Proof.
  intros [-> | Hx]; [apply range64_zero |].
  assert (0 < / 2 ^ 1074) by (apply Rinv_0_lt_compat; lra).
  apply range64_Fin. rewrite Rabs_pos_eq by lra.
  unfold underflow_threshold, overflow_threshold. lra.
Qed.

Lemma square_ordinary (r : R) :
  ordinary r -> r * r = 0 \/ / 2 ^ 1074 <= r * r <= 2 ^ 1022.
Proof.
  intros [-> | [Hlo Hhi]]; [left; ring | right].
  assert (Hsq : r * r = Rabs r * Rabs r).
  { unfold Rabs. destruct (Rcase_abs r); ring. }
  assert (H0 : 0 < / 2 ^ 537) by (apply Rinv_0_lt_compat; lra).
  assert (Hlow : / 2 ^ 1074 = / 2 ^ 537 * / 2 ^ 537) by lra.
  assert (Hhigh : 2 ^ 1022 = 2 ^ 511 * 2 ^ 511) by lra.
  rewrite Hsq, Hlow, Hhigh. split; apply Rmult_le_compat; lra.
Qed.

Lemma norm_ordinary (a b c : R) :
  ordinary a -> ordinary b -> ordinary c ->
  norm (Fin a, Fin b, Fin c) = Fin (sqrt (a * a + b * b + c * c)).
Proof.
  intros Ha Hb Hc.
  apply square_ordinary in Ha, Hb, Hc.
  assert (H0 : 0 < / 2 ^ 1074) by (apply Rinv_0_lt_compat; lra).
  unfold norm, sum_of_squares, fsquare64, fsquare. cbn [vx vy vz fst snd fmul].
  rewrite (range64_held (a * a)) by (destruct Ha; [left | right]; lra).
  rewrite (range64_held (b * b)) by (destruct Hb; [left | right]; lra).
  rewrite (range64_held (c * c)) by (destruct Hc; [left | right]; lra).
  cbn [fadd].
  rewrite (range64_held (a * a + b * b))
    by (destruct Ha, Hb; [left | right | right | right]; lra).
  cbn [fadd].
  rewrite (range64_held (a * a + b * b + c * c))
    by (destruct Ha, Hb, Hc; [left | right | right | right | right | right | right | right];
        lra).
  cbn [fsqrt]. now rewrite Rltb_false by nra.
Qed.


Context `{Formulary}.


End normalization.

Section neutrality.
Import thomson thomson_spec.
Local Open Scope R_scope.

Lemma foldl_fadd_Fin (xs : list R) (a : R) :
  foldl fadd (Fin a) (List.map Fin xs) = Fin (a + Rsum xs).
Proof.
  revert a. induction xs as [| x xs IH]; intros a; simpl.
  - f_equal. lra.
  - rewrite IH. f_equal. lra.
Qed.

Lemma np_sum_Fin (xs : list R) : np.sum (List.map Fin xs) = Fin (Rsum xs).
Proof. unfold np.sum, f0. rewrite foldl_fadd_Fin. f_equal. lra. Qed.

Lemma zip_with_fmul_Fin (xs ys : list R) :
  zip_with fmul (List.map Fin xs) (List.map Fin ys) = List.map Fin (zip_with Rmult xs ys).
Proof.
  revert ys. induction xs as [| x xs IH]; intros [| y ys]; simpl; try reflexivity.
  now rewrite IH.
Qed.

Lemma Rsum_scale (c : R) (xs : list R) :
  Rsum (List.map (fun x => c * x) xs) = c * Rsum xs.
Proof. induction xs as [| x xs IH]; simpl; [lra | rewrite IH; lra]. Qed.

Lemma Rsum_zip_scale (c : R) (xs ys : list R) :
  Rsum (zip_with Rmult (List.map (fun x => x * c) xs) ys)
  = c * Rsum (zip_with Rmult xs ys).
Proof.
  revert ys. induction xs as [| x xs IH]; intros [| y ys]; simpl; try lra.
  rewrite IH. lra.
Qed.

(** The mean charge of positive ions with fractions that sum to one is at
    least one. *)
Lemma mean_charge_ge_1 (fs zs : list R) :
  length fs = length zs ->
  Forall (fun f => 0 <= f) fs ->
  Forall (fun z => 1 <= z) zs ->
  Rsum fs <= Rsum (zip_with Rmult fs zs).
Proof.
  revert zs. induction fs as [| f fs IH]; intros [| z zs] Hlen Hf Hz; simpl in *; try lia.
  - lra.
  - inversion Hf; inversion Hz; subst.
    assert (Rsum fs <= Rsum (zip_with Rmult fs zs)) by (apply IH; auto).
    nra.
Qed.

(** C8. With [ne = efract * n] and [ni = ifract * n / zbar], where
    [zbar = sum(ifract * Z)], the ion charge density [sum(ni * Z)] and the
    electron density [sum(ne)] both equal [n], for fractions that sum to
    one and ions of positive charge. *)
Theorem charge_neutrality (n : R) (es fs : list R) (particles : list Particle) :
  let efract := List.map Fin es in
  let ifract := List.map Fin fs in
  let ion_z := List.map (fun ion => Fin (IZR (charge_number ion))) particles in
  let zbar := mean_charge ifract ion_z in
  let ne := electron_densities efract (Fin n) in
  let ni := ion_densities ifract (Fin n) zbar in
  length fs = length particles ->
  Forall (fun f => 0 <= f) fs ->
  Forall (fun ion => (1 <= charge_number ion)%Z) particles ->
  Rsum es = 1 ->
  Rsum fs = 1 ->
  np.sum (zip_with fmul ni ion_z) = Fin n
  /\ np.sum ne = Fin n
  /\ np.sum (zip_with fmul ni ion_z) = np.sum ne.
Proof.
  intros efract ifract ion_z zbar ne ni Hlen Hf Hz Hes Hfs.
  set (zs := List.map (fun ion => IZR (charge_number ion)) particles).
  assert (Hion_z : ion_z = List.map Fin zs).
  { unfold ion_z, zs. now rewrite List.map_map. }
  assert (Hzs : Forall (fun z => 1 <= z) zs).
  { unfold zs. apply Forall_forall. intros z Hin.
    apply list_elem_of_In, List.in_map_iff in Hin as (ion & <- & Hin).
    rewrite Forall_forall in Hz. apply IZR_le. apply Hz. now apply list_elem_of_In. }
  assert (Hlen' : length fs = length zs) by (unfold zs; now rewrite List.length_map).
  assert (Hzbar : zbar = Fin (Rsum (zip_with Rmult fs zs))).
  { unfold zbar, mean_charge, ifract. rewrite Hion_z, zip_with_fmul_Fin. apply np_sum_Fin. }
  pose proof (mean_charge_ge_1 fs zs Hlen' Hf Hzs) as Hge. rewrite Hfs in Hge.
  set (Z := Rsum (zip_with Rmult fs zs)) in *.
  assert (Hni : ni = List.map Fin (List.map (fun f => f * (n / Z)) fs)).
  { unfold ni, ion_densities, ifract. rewrite Hzbar, !List.map_map.
    apply List.map_ext. intros f. cbn [fmul]. rewrite fdiv_Fin by lra. f_equal. field. lra. }
  assert (Hne : ne = List.map Fin (List.map (fun e => n * e) es)).
  { unfold ne, electron_densities, efract. rewrite !List.map_map.
    apply List.map_ext. intros e. cbn. f_equal. lra. }
  assert (H1 : np.sum (zip_with fmul ni ion_z) = Fin n).
  { rewrite Hni, Hion_z, zip_with_fmul_Fin, np_sum_Fin, Rsum_zip_scale.
    f_equal. fold Z. field. lra. }
  assert (H2 : np.sum ne = Fin n).
  { rewrite Hne, np_sum_Fin, Rsum_scale, Hes. f_equal. lra. }
  split; [exact H1 | split; [exact H2 | now rewrite H1, H2]].
Qed.
End neutrality.

Section alpha_facts.
Import thomson thomson_spec.
Context `{Formulary}.

Variables (wavelengths : list float64) (probe_wavelength n : float64).
Variables (Te Ti : ndarray float64) (efract ifract : option (list float64)).
Variables (electron_vel ion_vel : option (list vec3)) (probe_vec scatter_vec : vec3).

Lemma spectrum_alpha Te' Ti' efract' ifract' particles electron_vel' ion_vel' :
  fst (spectrum wavelengths probe_wavelength n Te' Ti' efract' ifract' particles
         electron_vel' ion_vel' probe_vec scatter_vec)
  = alpha_mean (plasma_frequency n (PStr "e-"))
      (wavenumbers wavelengths probe_wavelength n probe_vec scatter_vec)
      (electron_thermal_speeds Te').
Proof. reflexivity. Qed.

Lemma checked_spectrum_Ok_inv efract' ifract' particles electron_vel' ion_vel' res :
  checked_spectrum wavelengths probe_wavelength n Te Ti efract' ifract' particles
    electron_vel' ion_vel' probe_vec scatter_vec = Ok res ->
  exists Te' Ti',
    condition_Te Te (length efract') = Ok Te'
    /\ res = spectrum wavelengths probe_wavelength n Te' Ti' efract' ifract' particles
               electron_vel' ion_vel' probe_vec scatter_vec.
Proof.
  unfold checked_spectrum.
  destruct (condition_Te Te _) as [Te' |]; [| discriminate]. cbn [bind].
  destruct (condition_Ti Ti _) as [Ti' |]; [| discriminate]. cbn [bind].
  destruct (negb _ || negb _ || negb _); [discriminate |]. cbn [bind].
  destruct (negb _ || negb _); [discriminate |]. cbn [bind].
  intros [= <-]. eauto.
Qed.

(** A call that returns went through the checks on resolved particles. *)
Lemma spectral_density_Ok_inv (ion_species : ion_species_arg) (h h' : heap)
    (res : float64 * list float64) :
  spectral_density wavelengths probe_wavelength n Te Ti efract ifract ion_species
    electron_vel ion_vel probe_vec scatter_vec h = (h', Ok res) ->
  exists ps,
    checked_spectrum wavelengths probe_wavelength n Te Ti
      (fract_or_ones efract) (fract_or_ones ifract) ps
      (vel_or_zeros electron_vel (length (fract_or_ones efract)))
      (vel_or_zeros ion_vel (length (fract_or_ones ifract)))
      probe_vec scatter_vec = Ok res.
Proof.
  assert (Hlist : forall l (h0 : heap),
             spectral_density wavelengths probe_wavelength n Te Ti efract ifract (AList l)
               electron_vel ion_vel probe_vec scatter_vec h0 = (h', Ok res) ->
             exists ps,
               checked_spectrum wavelengths probe_wavelength n Te Ti
                 (fract_or_ones efract) (fract_or_ones ifract) ps
                 (vel_or_zeros electron_vel (length (fract_or_ones efract)))
                 (vel_or_zeros ion_vel (length (fract_or_ones ifract)))
                 probe_vec scatter_vec = Ok res).
  { intros l h0 Hrun.
    destruct (h0 !! l) as [xs |] eqn:Hl.
    2:{ unfold spectral_density in Hrun. cbv zeta in Hrun. unfold as_list in Hrun.
        unfold mbind at 1 in Hrun. unfold ret at 1 in Hrun.
        unfold mbind at 1 in Hrun. unfold get_list at 1 in Hrun.
        rewrite Hl in Hrun. discriminate. }
    destruct (returned_list_resolved wavelengths probe_wavelength n Te Ti
                efract ifract electron_vel ion_vel probe_vec scatter_vec
                l xs h0 h' res Hl Hrun) as (Hne & ps & Hps).
    rewrite (spectral_density_on_list _ _ _ _ _ _ _ _ _ _ _ l xs ps h0 Hl Hne Hps) in Hrun.
    exists ps. now injection Hrun as _ ->. }
  intros Hrun. destruct ion_species as [s | p | l].
  - now apply (Hlist (fresh (dom h)) (<[fresh (dom h) := [PStr s]]> h)).
  - now apply (Hlist (fresh (dom h)) (<[fresh (dom h) := [PObj p]]> h)).
  - now apply (Hlist l h).
Qed.
End alpha_facts.

Section thomson_run_facts.
Import thomson thomson_spec thomson_run.
Local Open Scope R_scope.

Lemma ordinary_0 : ordinary 0.
Proof. now left. Qed.

(** An ordinary number between 1/8 and 8. *)
Lemma ordinary_unit (r : R) : / 8 <= r <= 8 -> ordinary r.
Proof.
  intros Hr. right. rewrite Rabs_pos_eq by lra.
  assert (/ 2 ^ 537 <= / 8) by (apply Rinv_le_contravar; lra).
  split; lra.
Qed.

Lemma normalize_default_probe : normalize default_probe_vec = default_probe_vec.
Proof.
  unfold normalize, default_probe_vec, f1, f0.
  rewrite norm_ordinary by (try apply ordinary_0; apply ordinary_unit; lra).
  replace (1 * 1 + 0 * 0 + 0 * 0) with 1 by lra. rewrite sqrt_1.
  unfold vdiv. cbn [vx vy vz fst snd]. rewrite !fdiv_Fin by lra.
  repeat f_equal; lra.
Qed.

Lemma normalize_default_scatter : normalize default_scatter_vec = default_scatter_vec.
Proof.
  unfold normalize, default_scatter_vec, f1, f0.
  rewrite norm_ordinary by (try apply ordinary_0; apply ordinary_unit; lra).
  replace (0 * 0 + 1 * 1 + 0 * 0) with 1 by lra. rewrite sqrt_1.
  unfold vdiv. cbn [vx vy vz fst snd]. rewrite !fdiv_Fin by lra.
  repeat f_equal; lra.
Qed.

Lemma plasma_frequency_1 : plasma_frequency (Formulary := nu) f1 (PStr "e-") = Fin 1.
Proof.
  cbn. unfold natural_units.plasma_frequency. float_eval.
  f_equal. apply sqrt_of_square; lra.
Qed.
End thomson_run_facts.
Section thomson_run_facts2.
Import thomson thomson_spec thomson_run.
Local Open Scope R_scope.

Lemma kappa0_pos : 0 < kappa0.
Proof.
  unfold kappa0. apply Rdiv_lt_0_compat; [| lra]. apply sqrt_lt_R0. lra.
Qed.

Lemma angular_frequency_lambda0 : angular_frequency (H := nu) lambda0 = Fin 2.
Proof.
  unfold angular_frequency, lambda0. cbn.
  pose proof PI_RGT_0. rewrite Reqb_false by nra. f_equal. field. lra.
Qed.

Lemma plasma_wavenumber_2_1 :
  plasma_wavenumber (H := nu) (Fin 2) (Fin 1) = Fin (sqrt 3 / 137).
Proof.
  unfold plasma_wavenumber. cbn. rewrite Rltb_false by lra. cbn.
  rewrite Reqb_false by lra. do 3 f_equal. lra.
Qed.

Lemma wavenumbers_lambda0 :
  wavenumbers (H := nu) [lambda0] lambda0 f1 default_probe_vec default_scatter_vec
  = [Fin kappa0].
Proof.
  unfold wavenumbers. cbv zeta.
  rewrite normalize_default_probe, normalize_default_scatter, plasma_frequency_1.
  cbn [List.map]. rewrite angular_frequency_lambda0, plasma_wavenumber_2_1.
  assert (Hdot : dot default_probe_vec default_scatter_vec = Fin 0).
  { unfold dot, default_probe_vec, default_scatter_vec, f1, f0. cbn. f_equal. lra. }
  rewrite Hdot. unfold farccos. rewrite !Rleb_true by lra. cbn [andb].
  unfold scattering_wavenumber, fcos. rewrite cos_acos by lra.
  cbn. f_equal.
  pose proof (sqrt_sqrt 3 ltac:(lra)) as H3. pose proof (sqrt_sqrt 6 ltac:(lra)) as H6.
  pose proof (sqrt_lt_R0 6 ltac:(lra)) as H6pos.
  assert (Harg : sqrt 3 / 137 * (sqrt 3 / 137) + sqrt 3 / 137 * (sqrt 3 / 137)
                 + - (2 * (sqrt 3 / 137) * (sqrt 3 / 137) * 0)
                 = kappa0 * kappa0).
  { unfold kappa0. field_simplify. rewrite !pow2_sqrt by lra. replace (sqrt 3 ^ 2) with 3.
    - lra.
    - simpl. lra. }
  rewrite Harg. rewrite Rltb_false by nra. f_equal.
  apply sqrt_square. apply Rlt_le, kappa0_pos.
Qed.
End thomson_run_facts2.

Section alpha_theorem.
Import thomson thomson_spec.
Context `{Formulary}.

Lemma length_entries {A B C : Type} (g : A -> B -> C) (k : list A) (vs : list B) :
  length (concat (List.map (fun kj => List.map (g kj) vs) k)) = length k * length vs.
Proof.
  induction k as [| kj k IH]; simpl; [reflexivity |].
  now rewrite length_app, List.length_map, IH.
Qed.

Lemma alpha_mean_single (wpe : float64) (k : list float64) (v : float64) :
  alpha_mean wpe k [v] = alpha_across_wavelengths wpe k v.
Proof.
  unfold alpha_mean, alpha_across_wavelengths. f_equal.
  induction k as [| kj k IH]; simpl; [reflexivity | now f_equal].
Qed.

Lemma length_wavenumbers wavelengths probe_wavelength n probe_vec scatter_vec :
  length (wavenumbers wavelengths probe_wavelength n probe_vec scatter_vec)
  = length wavelengths.
Proof. unfold wavenumbers. cbv zeta. now rewrite !List.length_map. Qed.

(** C4, as the code has it. The first value that the call returns is the
    arithmetic mean of [sqrt(2) wpe / (k vTe)] over every sampled
    wavelength and every electron population, [wpe] being the plasma
    frequency of the total density [n] and [k] the scattering wavenumber
    of the wavelength: one scalar, the sum of the
    [len(wavelengths) * len(efract)] entries divided by their number. With
    one electron population it is the mean across the wavelengths. *)
Theorem alpha_is_mean_over_wavelengths_and_populations
    (wavelengths : list float64) (probe_wavelength n : float64)
    (Te Ti : ndarray float64) (efract ifract : option (list float64))
    (ion_species : ion_species_arg)
    (electron_vel ion_vel : option (list vec3)) (probe_vec scatter_vec : vec3)
    (h h' : heap) (res : float64 * list float64) :
  spectral_density wavelengths probe_wavelength n Te Ti efract ifract ion_species
    electron_vel ion_vel probe_vec scatter_vec h = (h', Ok res) ->
  let wpe := plasma_frequency n (PStr "e-") in
  let k := wavenumbers wavelengths probe_wavelength n probe_vec scatter_vec in
  exists Te',
    condition_Te Te (length (fract_or_ones efract)) = Ok Te'
    /\ length Te' = length (fract_or_ones efract)
    /\ fst res = alpha_mean wpe k (electron_thermal_speeds Te')
    /\ length (concat (List.map (fun kj => List.map (alpha_entry wpe kj)
                                            (electron_thermal_speeds Te')) k))
       = length wavelengths * length (fract_or_ones efract)
    /\ (forall v, electron_thermal_speeds Te' = [v] ->
          fst res = alpha_across_wavelengths wpe k v).
Proof.
  intros Hrun wpe k.
  apply spectral_density_Ok_inv in Hrun as [ps Hps].
  apply checked_spectrum_Ok_inv in Hps as (Te' & Ti' & HTe & ->).
  exists Te'. destruct (condition_Te_Ok _ _ _ HTe) as [_ Hlen].
  split; [assumption |]. split; [assumption |].
  rewrite spectrum_alpha. fold wpe k. split; [reflexivity |]. split.
  - rewrite length_entries. unfold k, electron_thermal_speeds.
    now rewrite length_wavenumbers, List.length_map, Hlen.
  - intros v Hv. rewrite Hv. apply alpha_mean_single.
Qed.
End alpha_theorem.

Section thomson_run_alpha.
Import thomson thomson_spec thomson_run.
Local Open Scope R_scope.

Lemma electron_thermal_speeds_Te2 :
  electron_thermal_speeds (H := nu) [fhalf; f2] = [Fin 1; Fin 2].
Proof.
  unfold electron_thermal_speeds. cbn. unfold natural_units.thermal_speed. float_eval.
  f_equal; [| f_equal]; f_equal; apply sqrt_of_square; lra.
Qed.

Lemma alpha_entry_kappa0 (v : R) :
  0 < v -> alpha_entry (Fin 1) (Fin kappa0) (Fin v) = Fin (sqrt 2 / (kappa0 * v)).
Proof.
  intros Hv. pose proof kappa0_pos as Hk. unfold alpha_entry. cbn.
  rewrite Rltb_false by lra. cbn. rewrite Reqb_false by nra. f_equal. field. lra.
Qed.

Lemma alpha_mean_run :
  alpha_mean (Fin 1) [Fin kappa0] [Fin 1; Fin 2] = Fin (3 * sqrt 2 / (4 * kappa0)).
Proof.
  pose proof kappa0_pos as Hk.
  unfold alpha_mean. cbn [List.map concat app]. rewrite !alpha_entry_kappa0 by lra.
  unfold np.mean, np.sum. cbn. rewrite Reqb_false by lra. f_equal. field. lra.
Qed.

Lemma alpha_across_wavelengths_run (v : R) :
  0 < v ->
  alpha_across_wavelengths (Fin 1) [Fin kappa0] (Fin v) = Fin (sqrt 2 / (kappa0 * v)).
Proof.
  intros Hv. pose proof kappa0_pos as Hk.
  unfold alpha_across_wavelengths. cbn [List.map]. rewrite alpha_entry_kappa0 by lra.
  unfold np.mean, np.sum. cbn. rewrite Reqb_false by lra. f_equal. field. lra.
Qed.

Lemma spectral_density_Te2 :
  spectral_density (H := nu) [lambda0] lambda0 f1 Te2 (Scalar f1)
    (Some half_half) None (AList l0) None None default_probe_vec default_scatter_vec
    heap_H
  = ({[ l0 := [PObj natural_units.proton] ]},
     Ok (spectrum (H := nu) [lambda0] lambda0 f1 [fhalf; f2] [f1] half_half [f1]
           [natural_units.proton] [zero_vel; zero_vel] [zero_vel]
           default_probe_vec default_scatter_vec)).
Proof.
  rewrite (spectral_density_on_list (H := nu) _ _ _ _ _ _ _ _ _ _ _ l0
             [PStr "H+"] [natural_units.proton] heap_H).
  - reflexivity.
  - apply lookup_singleton_eq.
  - discriminate.
  - apply resolves_H.
Qed.

(** C4, as the claim states it, fails: with the two electron populations
    of thermal speeds 1 and 2 and one wavelength, the returned [alpha] is
    [3 sqrt(2) / (4 k)], which is the mean across the wavelengths of
    [sqrt(2) wpe / (k vTe)] for neither thermal speed. *)
Lemma alpha_not_mean_across_wavelengths :
  returned_alpha
    (spectral_density (H := nu) [lambda0] lambda0 f1 Te2 (Scalar f1)
       (Some half_half) None (AList l0) None None default_probe_vec default_scatter_vec
       heap_H)
  = Some (Fin (3 * sqrt 2 / (4 * kappa0)))
  /\ electron_thermal_speeds (H := nu) [fhalf; f2] = [Fin 1; Fin 2]
  /\ Fin (3 * sqrt 2 / (4 * kappa0))
     <> alpha_across_wavelengths (plasma_frequency (Formulary := nu) f1 (PStr "e-"))
          (wavenumbers (H := nu) [lambda0] lambda0 f1 default_probe_vec default_scatter_vec)
          (Fin 1)
  /\ Fin (3 * sqrt 2 / (4 * kappa0))
     <> alpha_across_wavelengths (plasma_frequency (Formulary := nu) f1 (PStr "e-"))
          (wavenumbers (H := nu) [lambda0] lambda0 f1 default_probe_vec default_scatter_vec)
          (Fin 2).
Proof.
  pose proof kappa0_pos as Hk. pose proof (sqrt_lt_R0 2 ltac:(lra)) as H2.
  assert (Hq : 0 < sqrt 2 / kappa0) by now apply Rdiv_lt_0_compat.
  rewrite plasma_frequency_1, wavenumbers_lambda0.
  rewrite !alpha_across_wavelengths_run by lra.
  split; [| split; [apply electron_thermal_speeds_Te2 | split]].
  - rewrite spectral_density_Te2. unfold returned_alpha. cbn [snd].
    rewrite spectrum_alpha.
    rewrite plasma_frequency_1, wavenumbers_lambda0, electron_thermal_speeds_Te2.
    now rewrite alpha_mean_run.
  - intros [= Heq].
    assert (3 * sqrt 2 / (4 * kappa0) = 3 / 4 * (sqrt 2 / kappa0)) by (field; lra).
    assert (sqrt 2 / (kappa0 * 1) = sqrt 2 / kappa0) by (field; lra).
    lra.
  - intros [= Heq].
    assert (3 * sqrt 2 / (4 * kappa0) = 3 / 4 * (sqrt 2 / kappa0)) by (field; lra).
    assert (sqrt 2 / (kappa0 * 2) = 1 / 2 * (sqrt 2 / kappa0)) by (field; lra).
    lra.
Qed.
End thomson_run_alpha.

Section thomson_witnesses.
Import thomson thomson_spec thomson_run.
Local Open Scope R_scope.

Lemma alpha_is_mean_over_wavelengths_and_populations_witness :
  exists Te',
    condition_Te Te2 (length (fract_or_ones (Some half_half))) = Ok Te'
    /\ length Te' = length (fract_or_ones (Some half_half))
    /\ fst (spectrum (H := nu) [lambda0] lambda0 f1 [fhalf; f2] [f1] half_half [f1]
              [natural_units.proton] [zero_vel; zero_vel] [zero_vel]
              default_probe_vec default_scatter_vec)
       = alpha_mean (plasma_frequency (Formulary := nu) f1 (PStr "e-"))
           (wavenumbers (H := nu) [lambda0] lambda0 f1 default_probe_vec
              default_scatter_vec)
           (electron_thermal_speeds (H := nu) Te')
    /\ length (concat (List.map
                 (fun kj => List.map
                    (alpha_entry (plasma_frequency (Formulary := nu) f1 (PStr "e-")) kj)
                    (electron_thermal_speeds (H := nu) Te'))
                 (wavenumbers (H := nu) [lambda0] lambda0 f1 default_probe_vec
                    default_scatter_vec)))
       = (length [lambda0] * length (fract_or_ones (Some half_half)))%nat
    /\ (forall v, electron_thermal_speeds (H := nu) Te' = [v] ->
          fst (spectrum (H := nu) [lambda0] lambda0 f1 [fhalf; f2] [f1] half_half [f1]
                 [natural_units.proton] [zero_vel; zero_vel] [zero_vel]
                 default_probe_vec default_scatter_vec)
          = alpha_across_wavelengths (plasma_frequency (Formulary := nu) f1 (PStr "e-"))
              (wavenumbers (H := nu) [lambda0] lambda0 f1 default_probe_vec
                 default_scatter_vec) v).
Proof.
  exact (alpha_is_mean_over_wavelengths_and_populations (H := nu)
           [lambda0] lambda0 f1 Te2 (Scalar f1) (Some half_half) None (AList l0)
           None None default_probe_vec default_scatter_vec heap_H _ _
           spectral_density_Te2).
Defined.

Lemma charge_neutrality_witness :
  let ifract := List.map Fin [1 / 2; 1 / 2] in
  let ion_z := List.map (fun ion => Fin (IZR (charge_number ion)))
                 [natural_units.proton; natural_units.alpha_particle] in
  let ni := ion_densities ifract (Fin 1) (mean_charge ifract ion_z) in
  np.sum (zip_with fmul ni ion_z) = np.sum (electron_densities (List.map Fin [1]) (Fin 1)).
Proof.
  apply (charge_neutrality 1 [1] [1 / 2; 1 / 2]
           [natural_units.proton; natural_units.alpha_particle]).
  - reflexivity.
  - repeat constructor; lra.
  - repeat constructor; simpl; lia.
  - simpl. lra.
  - simpl. lra.
Defined.


Lemma admitted_run : admitted [lambda0] lambda0 f1 Te2 (Scalar f1).
Proof.
  pose proof PI_RGT_0 as Hpi.
  repeat split; intros x Hx; cbn in Hx;
    repeat (destruct Hx as [<- | Hx]; [cbn; apply Rltb_false; nra |]);
    destruct Hx.
Qed.

Lemma ion_species_list_mutated_in_place_witness :
  spectral_density (H := nu) [lambda0] lambda0 f1 Te2 (Scalar f1)
    (Some half_half) None (AList l0) None None default_probe_vec default_scatter_vec
    heap_H
  = (<[l0 := [PObj natural_units.proton]]> heap_H,
     checked_spectrum (H := nu) [lambda0] lambda0 f1 Te2 (Scalar f1)
       half_half [f1] [natural_units.proton] [zero_vel; zero_vel] [zero_vel]
       default_probe_vec default_scatter_vec)
  /\ fst (spectral_density (H := nu) [lambda0] lambda0 f1 Te2 (Scalar f1)
            (Some half_half) None (AList l0) None None default_probe_vec
            default_scatter_vec heap_H) !! l0
     = Some [PObj natural_units.proton].
Proof.
  apply (proj1 (ion_species_list_mutated_in_place (H := nu)
                  [lambda0] lambda0 f1 Te2 (Scalar f1) (Some half_half) None None None
                  default_probe_vec default_scatter_vec l0 [PStr "H+"] heap_H
                  admitted_run (lookup_singleton_eq _ _))
           [natural_units.proton]).
  - discriminate.
  - apply resolves_H.
Defined.
End thomson_witnesses.

(* ================================================================== *)
(** * More about [collisions.py]: the velocity checks *)

Section zero_velocity.
Import collisions collisions_spec.
Context `{Formulary}.

Lemma feq_zero (x : float64) : feq x f0 = true <-> x = Fin 0.
Proof.
  destruct x as [| | | a]; simpl; try (split; discriminate).
  unfold Reqb. destruct (Req_dec_T a 0) as [-> | Ha].
  - split; reflexivity.
  - split; [discriminate | intros [= ->]; contradiction].
Qed.

Lemma any_eq_zero (V : ndarray float64) :
  np.any (eq_zero (Some V)) = true <-> In (Fin 0) (np.elements V).
Proof.
  unfold np.any, eq_zero. rewrite np_elements_map, existsb_exists. split.
  - intros (b & Hin & Hb). subst b.
    apply List.in_map_iff in Hin as (x & Hx & Hin).
    apply feq_zero in Hx. now subst x.
  - intros Hin. exists true. split; [| reflexivity].
    apply List.in_map_iff. exists (Fin 0). split; [| assumption].
    now apply feq_zero.
Qed.

Lemma any_eq_zero_false (V : ndarray float64) :
  np.any (eq_zero (Some V)) = false <-> ~ In (Fin 0) (np.elements V).
Proof.
  rewrite <- any_eq_zero. destruct (np.any _); split; easy.
Qed.

Lemma replaceNan_zero (T V : ndarray float64) (m : float64) :
  In (Fin 0) (np.elements V) ->
  _replaceNanVwithThermalV (Some V) T m = Raise (PhysicsError msg_zero_velocity).
Proof.
  intros Hin. apply any_eq_zero in Hin.
  unfold _replaceNanVwithThermalV. now rewrite Hin.
Qed.

Lemma boilerPlate_zero (T V : ndarray float64) (species : Particle * Particle) :
  In (Fin 0) (np.elements V) ->
  _boilerPlate T species (Some V) = Raise (PhysicsError msg_zero_velocity).
Proof. intros Hin. unfold _boilerPlate. now rewrite replaceNan_zero. Qed.

Lemma perp_zero (T V : ndarray float64) (species : Particle * Particle) :
  In (Fin 0) (np.elements V) ->
  impact_parameter_perp T species V = Raise (PhysicsError msg_zero_velocity).
Proof. intros Hin. unfold impact_parameter_perp. now rewrite boilerPlate_zero. Qed.

End zero_velocity.

Section fills.
Import collisions collisions_spec.
Context `{Formulary}.

Lemma any_isnan (vs : list float64) :
  np.any (np.isnan (Array vs)) = existsb fisnan vs.
Proof.
  unfold np.any, np.isnan. cbn [np.map np.elements].
  induction vs as [| v vs IH]; [reflexivity |].
  cbn [List.map existsb]. now rewrite IH.
Qed.

Lemma map_or_thermal_no_nan (y : float64) (vs : list float64) :
  existsb fisnan vs = false -> List.map (or_thermal y) vs = vs.
Proof.
  induction vs as [| v vs IH]; [reflexivity |].
  cbn [existsb List.map]. intros Hn. apply orb_false_iff in Hn as [Hv Hvs].
  rewrite IH by assumption. unfold or_thermal. now rewrite Hv.
Qed.

Lemma zip_or_thermal_no_nan (f : float64 -> float64) (vs ts : list float64) :
  length ts = length vs -> existsb fisnan vs = false ->
  zip_with (fun v t => or_thermal (f t) v) vs ts = vs.
Proof.
  revert ts. induction vs as [| v vs IH]; intros [| t ts] Hlen; simpl in *; try lia.
  - reflexivity.
  - intros Hn. apply orb_false_iff in Hn as [Hv Hvs].
    rewrite IH by (assumption || lia). unfold or_thermal. now rewrite Hv.
Qed.

(** X2. What [_replaceNanVwithThermalV] returns for a velocity without a
    zero: the thermal speeds of [T] when [V] is [None] or one
    not-a-number; [V] with every not-a-number replaced by the thermal
    speed of the one temperature, or of the temperature at the same
    position, and every other element as it was; and [IndexError] when
    [V] and [T] are arrays of different lengths and [V] holds a
    not-a-number, while such a [V] without one is returned as it is. *)
Theorem replaceNan_fills_the_gaps (m : float64) :
  let f := fun t => thermal_speed t (PStr "e-") (Some m) in
  (forall T, _replaceNanVwithThermalV None T m = Ok (np.map f T))
  /\ (forall v T, v <> Fin 0 ->
        _replaceNanVwithThermalV (Some (Scalar v)) T m
        = Ok (if fisnan v then np.map f T else Scalar v))
  /\ (forall vs t, ~ In (Fin 0) vs ->
        _replaceNanVwithThermalV (Some (Array vs)) (Scalar t) m
        = Ok (Array (List.map (or_thermal (f t)) vs)))
  /\ (forall vs ts, ~ In (Fin 0) vs -> length ts = length vs ->
        _replaceNanVwithThermalV (Some (Array vs)) (Array ts) m
        = Ok (Array (zip_with (fun v t => or_thermal (f t) v) vs ts)))
  /\ (forall vs ts, ~ In (Fin 0) vs -> length ts <> length vs ->
        _replaceNanVwithThermalV (Some (Array vs)) (Array ts) m
        = if existsb fisnan vs then Raise (IndexError np.msg_boolean_index)
          else Ok (Array vs)).
Proof.
  intros f. split; [| split; [| split; [| split]]].
  - intros T. reflexivity.
  - intros v T Hv. unfold _replaceNanVwithThermalV.
    rewrite (proj2 (any_eq_zero_false (Scalar v)))
      by (simpl; intros [Heq | []]; congruence).
    destruct v as [| | | a]; try reflexivity.
    destruct T as [t | ts]; [| reflexivity].
    simpl. fold (f t). now destruct (fisnan (f t)).
  - intros vs t Hnz. unfold _replaceNanVwithThermalV.
    rewrite (proj2 (any_eq_zero_false (Array vs))) by exact Hnz.
    rewrite any_isnan. destruct (existsb fisnan vs) eqn:Hn.
    + cbn [np.isscalar orb]. unfold thermal_speed_of. cbn [np.map]. fold (f t).
      apply setitem_isnan_scalar.
    + now rewrite map_or_thermal_no_nan.
  - intros vs ts Hnz Hlen. unfold _replaceNanVwithThermalV.
    rewrite (proj2 (any_eq_zero_false (Array vs))) by exact Hnz.
    rewrite any_isnan. destruct (existsb fisnan vs) eqn:Hn.
    + cbn [np.isscalar orb]. unfold thermal_speed_of.
      now apply setitem_isnan_arrays.
    + now rewrite zip_or_thermal_no_nan.
  - intros vs ts Hnz Hlen. unfold _replaceNanVwithThermalV.
    rewrite (proj2 (any_eq_zero_false (Array vs))) by exact Hnz.
    rewrite any_isnan. destruct (existsb fisnan vs) eqn:Hn; [| reflexivity].
    cbn [np.isscalar orb]. simpl. rewrite List.length_map.
    destruct (Nat.eqb_spec (length ts) (length vs)); [contradiction | reflexivity].
Qed.
End fills.

Section second_pass.
Import collisions collisions_spec.
Context `{Formulary}.

Lemma boilerPlate_inv T species V bp :
  _boilerPlate T species V = Ok bp ->
  _replaceNanVwithThermalV V T (reduced_mass (fst species) (snd species)) = Ok (bp_V bp)
  /\ _check_relativistic (bp_V bp) "V" = Ok tt
  /\ bp = {| bp_T := T;
             bp_masses := (mass (fst species), mass (snd species));
             bp_charges := (fabs (charge (fst species)), fabs (charge (snd species)));
             bp_reduced_mass := reduced_mass (fst species) (snd species);
             bp_V := bp_V bp |}.
Proof.
  unfold _boilerPlate. intros Hbp.
  destruct (_replaceNanVwithThermalV V T _) as [V' |]; [| discriminate].
  cbn [bind] in Hbp.
  destruct (_check_relativistic V' "V") as [[] |] eqn:Hrel; [| discriminate].
  cbn [bind] in Hbp. injection Hbp as <-. cbn [bp_V]. auto.
Qed.

(** X3. The velocity that [_boilerPlate] returns is a fixed point of the
    checks: when it holds no zero, passing it back as [V] gives the same
    tuple again, and [_replaceNanVwithThermalV] leaves it as it is. So
    [impact_parameter_perp] gives the same on a velocity [V] and on the
    velocity that [_boilerPlate] makes of it, which is what the nested
    call inside [impact_parameter] relies on. *)
Theorem boilerPlate_velocity_is_a_fixed_point
    (T : ndarray float64) (species : Particle * Particle)
    (V : option (ndarray float64)) (bp : boilerPlate) :
  _boilerPlate T species V = Ok bp ->
  ~ In (Fin 0) (np.elements (bp_V bp)) ->
  _boilerPlate T species (Some (bp_V bp)) = Ok bp
  /\ _replaceNanVwithThermalV (Some (bp_V bp)) T (bp_reduced_mass bp) = Ok (bp_V bp)
  /\ (forall v, V = Some v ->
        impact_parameter_perp T species v = impact_parameter_perp T species (bp_V bp)).
Proof.
  intros Hbp Hnz. apply any_eq_zero_false in Hnz.
  pose proof (boilerPlate_again _ _ _ _ Hbp Hnz) as Hagain.
  split; [exact Hagain |].
  destruct (boilerPlate_inv _ _ _ _ Hbp) as (Hrep & _ & Heq).
  split.
  - rewrite Heq at 2. cbn [bp_reduced_mass].
    exact (replaceNan_idem _ _ _ _ Hrep Hnz).
  - intros v ->. unfold impact_parameter_perp. now rewrite Hbp, Hagain.
Qed.

(** X4. When the velocity that [_boilerPlate] computes holds a zero,
    which a zero thermal speed brings about, the second pass of the checks
    inside [impact_parameter] refuses it: for a temperature and a density
    that hold no negative value, [impact_parameter] and
    [Coulomb_logarithm] raise [PhysicsError], although [_boilerPlate]
    itself returned and [impact_parameter_perp], which runs the checks
    once, returns its value on the same velocity. *)
Theorem zero_thermal_speed_is_refused
    (T n_e : ndarray float64) (species : Particle * Particle)
    (z_mean : ndarray float64) (V : option (ndarray float64)) (method : string)
    (bp : boilerPlate) (lambdaDe : ndarray float64) :
  not_negative T -> not_negative n_e ->
  _boilerPlate T species V = Ok bp ->
  In (Fin 0) (np.elements (bp_V bp)) ->
  (str_in method z_mean_methods = true -> np.truth (np.isnan z_mean) = Ok false) ->
  np.broadcast Debye_length T n_e = Ok lambdaDe ->
  impact_parameter T n_e species z_mean V method = Raise (PhysicsError msg_zero_velocity)
  /\ Coulomb_logarithm T n_e species z_mean V method
     = Raise (PhysicsError msg_zero_velocity)
  /\ (forall v, V = Some v ->
        impact_parameter_perp T species v
        = Ok (np.map (rho_perp (fabs (charge (fst species))) (fabs (charge (snd species)))
                        (bp_reduced_mass bp)) (bp_V bp))).
Proof.
  intros _ _ Hbp Hz Hzm HDe.
  assert (Himp : impact_parameter T n_e species z_mean V method
                 = Raise (PhysicsError msg_zero_velocity)).
  { unfold impact_parameter. rewrite Hbp. cbn [bind].
    rewrite (boilerPlate_T _ _ _ _ Hbp), HDe.
    destruct (str_in method z_mean_methods).
    - rewrite Hzm by reflexivity. cbn [bind].
      now rewrite (perp_zero _ _ _ Hz).
    - cbn [bind].
      now rewrite (perp_zero _ _ _ Hz). }
  split; [exact Himp |]. split.
  - unfold Coulomb_logarithm. now rewrite Himp.
  - intros v ->. unfold impact_parameter_perp. rewrite Hbp. cbn [bind].
    destruct (boilerPlate_inv _ _ _ _ Hbp) as (_ & _ & ->). reflexivity.
Qed.
End second_pass.

(* ================================================================== *)
(** * More about [collisions.py]: the method names *)

Section methods.
Import collisions collisions_spec.
Context `{Formulary}.

Lemma str_in_false_inv (m a : string) (l : list string) :
  str_in m (a :: l) = false -> String.eqb m a = false /\ str_in m l = false.
Proof. unfold str_in. simpl. intros Hm. now apply orb_false_iff in Hm. Qed.

(** The method branches of [impact_parameter] for a name outside the
    fourteen. *)
Lemma unknown_method_tests (method : string) :
  str_in method known_methods = false ->
  str_in method z_mean_methods = false
  /\ str_in method linear_methods = false
  /\ str_in method clamp_methods = false
  /\ str_in method hyperbolic_methods = false
  /\ String.eqb method "classical" = false /\ String.eqb method "ls" = false
  /\ String.eqb method "ls_min_interp" = false /\ String.eqb method "GMS-1" = false
  /\ String.eqb method "ls_full_interp" = false /\ String.eqb method "GMS-2" = false
  /\ String.eqb method "ls_clamp_mininterp" = false /\ String.eqb method "GMS-3" = false
  /\ String.eqb method "hls_min_interp" = false /\ String.eqb method "GMS-4" = false
  /\ String.eqb method "hls_max_interp" = false /\ String.eqb method "GMS-5" = false
  /\ String.eqb method "hls_full_interp" = false /\ String.eqb method "GMS-6" = false.
Proof.
  intros Hm. unfold known_methods, linear_methods, clamp_methods, hyperbolic_methods in Hm.
  cbn [app] in Hm.
  repeat (apply str_in_false_inv in Hm as [? Hm]).
  unfold str_in, z_mean_methods, linear_methods, clamp_methods, hyperbolic_methods.
  cbn [existsb].
  repeat match goal with E : String.eqb method _ = false |- _ => rewrite E; clear E end.
  cbn. repeat split; reflexivity.
Qed.

Lemma impact_parameter_unknown
    (T n_e : ndarray float64) (species : Particle * Particle)
    (z_mean : ndarray float64) (V : option (ndarray float64)) (method : string) :
  str_in method known_methods = false ->
  impact_parameter T n_e species z_mean V method
  = (bp <- _boilerPlate T species V ;;
     _ <- np.broadcast Debye_length (bp_T bp) n_e ;;
     _ <- impact_parameter_perp (bp_T bp) species (bp_V bp) ;;
     Raise (ValueError (msg_not_found method))).
Proof.
  intros Hm.
  destruct (unknown_method_tests _ Hm)
    as (Hz & _ & _ & _ & E1 & E2 & E3 & E4 & E5 & E6 & E7 & E8 & E9 & E10 & E11 & E12
        & E13 & E14).
  unfold impact_parameter.
  rewrite Hz, E1, E2, E3, E4, E5, E6, E7, E8, E9, E10, E11, E12, E13, E14.
  cbn [orb bind].
  destruct (_boilerPlate T species V) as [bp |]; [| reflexivity]. cbn [bind].
  destruct (np.broadcast Debye_length (bp_T bp) n_e); [| reflexivity]. cbn [bind].
  destruct (impact_parameter_perp _ _ _); reflexivity.
Qed.

(** X5. A method name outside the fourteen never gets past
    [impact_parameter]: the call of [Coulomb_logarithm] raises what
    [impact_parameter] raises, so its own "Unknown method" branch is not
    reached. When the checks of [_boilerPlate] pass, the velocity holds no
    zero and the Debye length is computed, the error is the [ValueError]
    "Method ... not found!" that carries the name. *)
Theorem unknown_method_is_refused_by_impact_parameter
    (T n_e : ndarray float64) (species : Particle * Particle)
    (z_mean : ndarray float64) (V : option (ndarray float64)) (method : string) :
  str_in method known_methods = false ->
  (exists x, impact_parameter T n_e species z_mean V method = Raise x
             /\ Coulomb_logarithm T n_e species z_mean V method = Raise x)
  /\ (forall bp lambdaDe,
        _boilerPlate T species V = Ok bp ->
        ~ In (Fin 0) (np.elements (bp_V bp)) ->
        np.broadcast Debye_length T n_e = Ok lambdaDe ->
        Coulomb_logarithm T n_e species z_mean V method
        = Raise (ValueError (msg_not_found method))).
Proof.
  intros Hm. pose proof (impact_parameter_unknown T n_e species z_mean V _ Hm) as Himp.
  split.
  - assert (Hx : exists x, impact_parameter T n_e species z_mean V method = Raise x).
    { rewrite Himp.
      destruct (_boilerPlate T species V) as [bp |]; [| eauto]. cbn [bind].
      destruct (np.broadcast Debye_length (bp_T bp) n_e); [| eauto]. cbn [bind].
      destruct (impact_parameter_perp _ _ _); cbn [bind]; eauto. }
    destruct Hx as (x & Hx). exists x. split; [exact Hx |].
    unfold Coulomb_logarithm. now rewrite Hx.
  - intros bp lambdaDe Hbp Hnz HDe. apply any_eq_zero_false in Hnz.
    unfold Coulomb_logarithm. rewrite Himp, Hbp. cbn [bind].
    rewrite (boilerPlate_T _ _ _ _ Hbp), HDe. cbn [bind].
    now rewrite (impact_parameter_perp_again _ _ _ _ Hbp Hnz).
Qed.

(** Each short name takes the branches of the name it stands for. *)
Lemma impact_parameter_alias
    (T n_e : ndarray float64) (species : Particle * Particle)
    (z_mean : ndarray float64) (V : option (ndarray float64)) (short long : string) :
  In (short, long) aliases ->
  impact_parameter T n_e species z_mean V short
  = impact_parameter T n_e species z_mean V long.
Proof.
  intros Hin. unfold aliases in Hin. cbn [In] in Hin.
  repeat (destruct Hin as [[= <- <-] | Hin];
          [unfold impact_parameter; eval_names; reflexivity |]).
  destruct Hin.
Qed.

(** X7. The short names are true aliases: [impact_parameter] returns the
    same pair, or raises the same exception, under ["ls"] and
    ["classical"], ["GMS-1"] and ["ls_min_interp"], and so on to
    ["GMS-6"], and [Coulomb_logarithm] returns the same value; only the
    text of a weak-coupling warning, which quotes the method name,
    tells them apart. *)
Theorem short_names_are_aliases
    (T n_e : ndarray float64) (species : Particle * Particle)
    (z_mean : ndarray float64) (V : option (ndarray float64)) (short long : string) :
  In (short, long) aliases ->
  impact_parameter T n_e species z_mean V short
  = impact_parameter T n_e species z_mean V long
  /\ value_of (Coulomb_logarithm T n_e species z_mean V short)
     = value_of (Coulomb_logarithm T n_e species z_mean V long).
Proof.
  intros Hin. pose proof (impact_parameter_alias T n_e species z_mean V _ _ Hin) as Himp.
  split; [exact Himp |].
  unfold value_of, Coulomb_logarithm. rewrite Himp.
  destruct (impact_parameter T n_e species z_mean V long) as [[bmin bmax] |];
    [| reflexivity].
  cbn [bind fst snd]. unfold aliases in Hin. cbn [In] in Hin.
  repeat (destruct Hin as [[= <- <-] | Hin];
          [eval_names; cbn [bind];
           try (destruct (np.divide bmax bmin); reflexivity);
           try (destruct (np.divide bmax bmin) as [q |]; cbn [bind];
                [destruct (clamp (np.log q)) |]; reflexivity);
           try (destruct (np.broadcast fdiv64 (np.map fsquare64 bmax)
                            (np.map fsquare64 bmin)); reflexivity) |]).
  destruct Hin.
Qed.

(** X8. The clamped method is the interpolated straight-line method
    followed by the clamp: on the same arguments
    ["ls_clamp_mininterp"] returns the value of ["ls_min_interp"] with
    every element below 2 replaced by 2, and raises what it raises. *)
Theorem clamped_method_is_the_clamp_of_the_interpolated_one
    (T n_e : ndarray float64) (species : Particle * Particle)
    (z_mean : ndarray float64) (V : option (ndarray float64)) :
  value_of (Coulomb_logarithm T n_e species z_mean V "ls_clamp_mininterp")
  = (ln_Lambda <- value_of (Coulomb_logarithm T n_e species z_mean V "ls_min_interp") ;;
     Ok (np.map clamp_at_2 ln_Lambda))
  /\ value_of (Coulomb_logarithm T n_e species z_mean V "GMS-3")
     = (ln_Lambda <- value_of (Coulomb_logarithm T n_e species z_mean V "GMS-1") ;;
        Ok (np.map clamp_at_2 ln_Lambda)).
Proof.
  assert (Himp : forall a b,
             In (a, b) [("ls_clamp_mininterp", "ls_min_interp"); ("GMS-3", "GMS-1")] ->
             impact_parameter T n_e species z_mean V a
             = impact_parameter T n_e species z_mean V b).
  { intros a b [[= <- <-] | [[= <- <-] | []]];
      unfold impact_parameter; eval_names; reflexivity. }
  split.
  - unfold value_of, Coulomb_logarithm. rewrite (Himp _ _ (or_introl eq_refl)).
    destruct (impact_parameter _ _ _ _ _ _) as [[bmin bmax] |]; [| reflexivity].
    cbn [bind fst snd]. eval_names. cbn [bind].
    destruct (np.divide bmax bmin) as [q |]; [| reflexivity]. cbn [bind fst].
    now rewrite clamp_map.
  - unfold value_of, Coulomb_logarithm. rewrite (Himp _ _ (or_intror (or_introl eq_refl))).
    destruct (impact_parameter _ _ _ _ _ _) as [[bmin bmax] |]; [| reflexivity].
    cbn [bind fst snd]. eval_names. cbn [bind].
    destruct (np.divide bmax bmin) as [q |]; [| reflexivity]. cbn [bind fst].
    now rewrite clamp_map.
Qed.
End methods.

Section hyperbolic_facts.
Local Open Scope R_scope.

(** [flt x 0 = false]: [x] is not a number, [+inf], or a finite number
    that is not negative. *)
Lemma not_negative_cases (x : float64) :
  flt x f0 = false <-> x = NaN \/ x = PInf \/ exists r, x = Fin r /\ 0 <= r.
Proof.
  destruct x as [| | | r]; simpl.
  - split; auto.
  - split; auto.
  - split; [discriminate | intros [? | [? | (r & ? & _)]]; discriminate].
  - unfold Rltb. destruct (Rlt_dec r 0).
    + split; [discriminate |].
      intros [? | [? | (r' & [= ->] & ?)]]; try discriminate. lra.
    + split; [| reflexivity]. intros _. right. right. exists r. split; [reflexivity | lra].
Qed.

Lemma fsquare_not_negative (x : float64) : flt (fsquare x) f0 = false.
Proof.
  destruct x as [| | | r]; try reflexivity.
  unfold fsquare. simpl. apply Rltb_false. nra.
Qed.

Lemma fdiv_not_negative (x y : float64) :
  flt x f0 = false -> flt y f0 = false -> flt (fdiv x y) f0 = false.
Proof.
  intros Hx Hy. apply not_negative_cases in Hx, Hy.
  destruct Hx as [-> | [-> | (a & -> & Ha)]], Hy as [-> | [-> | (b & -> & Hb)]];
    try reflexivity.
  - (* inf / b *)
    simpl. destruct (Req_dec_T b 0) as [-> | Hb0].
    + now rewrite Reqb_true.
    + rewrite Reqb_false by assumption. now rewrite Rsign_pos by lra.
  - (* a / inf *)
    simpl. apply Rltb_false. lra.
  - simpl. destruct (Req_dec_T b 0) as [-> | Hb0].
    + rewrite Reqb_true by reflexivity.
      destruct (Req_dec_T a 0) as [-> | Ha0].
      * now rewrite Rsign_zero.
      * now rewrite Rsign_pos by lra.
    + rewrite Reqb_false by assumption. simpl. apply Rltb_false.
      apply Rmult_le_pos; [assumption |].
      apply Rlt_le, Rinv_0_lt_compat. lra.
Qed.

Lemma half_log_1p_not_negative (x : float64) :
  flt x f0 = false -> flt (half_log_1p x) f0 = false.
Proof.
  intros Hx. apply not_negative_cases in Hx. unfold half_log_1p.
  destruct Hx as [-> | [-> | (a & -> & Ha)]].
  - reflexivity.
  - simpl. now rewrite Rsign_pos by lra.
  - simpl. rewrite Rltb_false by lra. rewrite Reqb_false by lra. simpl.
    apply Rltb_false.
    assert (0 <= ln (1 + a)).
    { rewrite <- ln_1. destruct (Req_dec_T a 0) as [-> | Ha0].
      - rewrite Rplus_0_r. lra.
      - apply Rlt_le, ln_increasing; lra. }
    nra.
Qed.

Lemma range64_not_negative (x : float64) :
  flt x f0 = false -> flt (range64 x) f0 = false.
Proof.
  intros Hx. pose proof thresholds as [[Hu _] Ho].
  apply not_negative_cases in Hx.
  destruct Hx as [-> | [-> | (a & -> & Ha)]]; try reflexivity.
  destruct (range64_cases a) as [[Hbig ->] | [[_ ->] | [_ ->]]].
  - rewrite Rabs_pos_eq in Hbig by assumption.
    now rewrite Rsign_pos by lra.
  - simpl. apply Rltb_false. lra.
  - simpl. now apply Rltb_false.
Qed.

Lemma fsquare64_not_negative (x : float64) : flt (fsquare64 x) f0 = false.
Proof. apply range64_not_negative, fsquare_not_negative. Qed.









End hyperbolic_facts.

Section hyperbolic_thms.
Import collisions collisions_spec.
Context `{Formulary}.

Lemma Coulomb_logarithm_Ok_inv
    (T n_e : ndarray float64) (species : Particle * Particle)
    (z_mean : ndarray float64) (V : option (ndarray float64)) (method : string)
    (ln_Lambda : ndarray float64) (w : list warning) :
  Coulomb_logarithm T n_e species z_mean V method = Ok (ln_Lambda, w) ->
  exists bmin bmax, impact_parameter T n_e species z_mean V method = Ok (bmin, bmax).
Proof.
  unfold Coulomb_logarithm.
  destruct (impact_parameter T n_e species z_mean V method) as [[bmin bmax] |];
    [eauto | discriminate].
Qed.

(** X6. A method of the hyperbolic family never returns a negative
    Coulomb logarithm: every element of the value is not a number or is
    at least 0, whatever the impact parameters are. *)
Theorem hyperbolic_logarithm_is_never_negative
    (T n_e : ndarray float64) (species : Particle * Particle)
    (z_mean : ndarray float64) (V : option (ndarray float64)) (method : string)
    (ln_Lambda : ndarray float64) (w : list warning) :
  str_in method hyperbolic_methods = true ->
  Coulomb_logarithm T n_e species z_mean V method = Ok (ln_Lambda, w) ->
  forall x, In x (np.elements ln_Lambda) ->
    flt x f0 = false /\ (fisnan x = false -> fle f0 x = true).
Proof.
  intros Hm Hrun x Hx.
  assert (Hneg : flt x f0 = false).
  { destruct (Coulomb_logarithm_Ok_inv _ _ _ _ _ _ _ _ Hrun) as (bmin & bmax & Himp).
    unfold Coulomb_logarithm in Hrun. rewrite Himp in Hrun. cbn [bind fst snd] in Hrun.
    replace (str_in method linear_methods) with false in Hrun
      by (str_cases Hm; reflexivity).
    replace (str_in method clamp_methods) with false in Hrun
      by (str_cases Hm; reflexivity).
    rewrite Hm in Hrun.
    destruct (np.broadcast fdiv64 (np.map fsquare64 bmax) (np.map fsquare64 bmin))
      as [q |] eqn:Hq; [| discriminate].
    cbn [bind] in Hrun. injection Hrun as <- _.
    rewrite np_elements_map in Hx. apply List.in_map_iff in Hx as (y & <- & Hy).
    apply half_log_1p_not_negative.
    destruct (broadcast_elements _ _ _ _ _ Hq Hy) as (a & b & Ha & Hb & ->).
    rewrite np_elements_map in Ha, Hb.
    apply List.in_map_iff in Ha as (a' & <- & _).
    apply List.in_map_iff in Hb as (b' & <- & _).
    apply range64_not_negative, fdiv_not_negative; apply fsquare64_not_negative. }
  split; [exact Hneg |]. intros Hnan. now apply (not_below_fle 0).
Qed.


Lemma Forall2_map_same {A B C : Type} (P : B -> C -> Prop) (f : A -> B) (g : A -> C)
    (xs : list A) :
  (forall x, In x xs -> P (f x) (g x)) -> Forall2 P (List.map f xs) (List.map g xs).
Proof.
  induction xs as [| x xs IH]; simpl; intros Hall; constructor.
  - apply Hall. now left.
  - apply IH. intros y Hy. apply Hall. now right.
Qed.

End hyperbolic_thms.

Section z_mean_arrays.
Import collisions collisions_spec.
Context `{Formulary}.

(** X28. The methods that need [z_mean] take one value of it: with an
    array of two or more values, numbers or not, the test
    [if np.isnan(z_mean)] has no truth value, and [impact_parameter] and
    [Coulomb_logarithm] raise [ValueError] once the checks of
    [_boilerPlate] have passed. The other methods never look at
    [z_mean] and accept the same array. *)
Theorem interpolated_methods_take_one_z_mean
    (T n_e : ndarray float64) (species : Particle * Particle)
    (z1 z2 : float64) (zs : list float64) (V : option (ndarray float64))
    (method : string) (bp : boilerPlate) :
  _boilerPlate T species V = Ok bp ->
  let z_mean := Array (z1 :: z2 :: zs) in
  let ambiguous :=
    ValueError
      [Lit "The truth value of an array with more than one element is ambiguous. Use a.any() or a.all()"] in
  (str_in method z_mean_methods = true ->
     impact_parameter T n_e species z_mean V method = Raise ambiguous
     /\ Coulomb_logarithm T n_e species z_mean V method = Raise ambiguous)
  /\ (str_in method z_mean_methods = false ->
      impact_parameter T n_e species z_mean V method
      = impact_parameter T n_e species (Scalar NaN) V method
      /\ Coulomb_logarithm T n_e species z_mean V method
         = Coulomb_logarithm T n_e species (Scalar NaN) V method).
Proof.
  intros Hbp z_mean ambiguous. split.
  - intros Hm.
    assert (Himp : impact_parameter T n_e species z_mean V method = Raise ambiguous).
    { unfold impact_parameter. rewrite Hbp. cbn [bind]. rewrite Hm. reflexivity. }
    split; [exact Himp |]. unfold Coulomb_logarithm. now rewrite Himp.
  - intros Hm.
    assert (Himp : impact_parameter T n_e species z_mean V method
                   = impact_parameter T n_e species (Scalar NaN) V method).
    { symmetry. now apply impact_parameter_ignores_z_mean. }
    split; [exact Himp |]. unfold Coulomb_logarithm. now rewrite Himp.
Qed.
End z_mean_arrays.


(* ================================================================== *)
(** * More about [thomson.py] *)

Section conditioning.
Import thomson thomson_spec.
Context `{Formulary}.

(** The loop stops at the first string that names no particle; the
    entries before it are converted already. *)
Lemma condition_ion_species_stops (l : loc) (s : string) (x : exception)
    (post : list particle_like) (pre : list particle_like) :
  Particle_new s = Raise x ->
  forall (done : list particle_like) (ps : list Particle) (h : heap),
    h !! l = Some (done ++ pre ++ PStr s :: post) ->
    Forall2 resolves pre ps ->
    condition_ion_species l
      (seq (length done) (length (pre ++ PStr s :: post))) h
    = (<[l := done ++ List.map PObj ps ++ PStr s :: post]> h, Raise x).
Proof.
  intros Hs. induction pre as [| y pre IH]; intros done ps h Hl Hres.
  - inversion Hres; subst.
    change ([] ++ PStr s :: post) with (PStr s :: post) in *.
    cbn [app length seq condition_ion_species List.map].
    unfold mbind at 1. unfold get_list at 1. rewrite Hl, lookup_middle.
    unfold mbind, lift. rewrite Hs. f_equal. symmetry. now apply insert_id.
  - inversion Hres as [| ? p ? ps' Hy Hps]; subst.
    change ((y :: pre) ++ PStr s :: post) with (y :: pre ++ PStr s :: post) in *.
    cbn [length seq condition_ion_species List.map].
    change ((PObj p :: List.map PObj ps') ++ PStr s :: post)
      with (PObj p :: List.map PObj ps' ++ PStr s :: post).
    unfold mbind at 1. unfold get_list at 1.
    rewrite Hl, lookup_middle.
    assert (Hnext : forall h1 : heap,
               h1 !! l = Some (done ++ PObj p :: pre ++ PStr s :: post) ->
               condition_ion_species l
                 (seq (S (length done)) (length (pre ++ PStr s :: post))) h1
               = (<[l := done ++ PObj p :: List.map PObj ps' ++ PStr s :: post]> h1,
                  Raise x)).
    { intros h1 Hh1.
      replace (S (length done)) with (length (done ++ [PObj p]))
        by (rewrite length_app; simpl; lia).
      rewrite (IH (done ++ [PObj p]) ps' h1).
      - now rewrite <- app_assoc.
      - now rewrite <- app_assoc.
      - assumption. }
    destruct y as [s' | p']; simpl in Hy.
    + unfold mbind, lift. rewrite Hy. unfold list_setitem. rewrite Hl.
      rewrite length_app. cbn [length].
      replace (length done <? length done + S (length (pre ++ PStr s :: post)))%nat
        with true by (symmetry; apply Nat.ltb_lt; lia).
      rewrite insert_middle. rewrite Hnext by apply lookup_insert_eq.
      now rewrite insert_insert_eq.
    + subst p'. now apply Hnext.
Qed.

(** The loop keeps the length of the list. *)
Lemma condition_ion_species_length (l : loc) (idxs : list nat) :
  forall (h h' : heap) (r : result unit) (xs : list particle_like),
    h !! l = Some xs ->
    condition_ion_species l idxs h = (h', r) ->
    exists xs', h' !! l = Some xs' /\ length xs' = length xs.
Proof.
  induction idxs as [| ii idxs IH]; intros h h' r xs Hl Hrun.
  - injection Hrun as <- _. eauto.
  - cbn [condition_ion_species] in Hrun. unfold mbind at 1 in Hrun.
    unfold get_list at 1 in Hrun. rewrite Hl in Hrun.
    destruct (xs !! ii) as [[s | p] |] eqn:Hii.
    + unfold mbind, lift in Hrun.
      destruct (Particle_new s) as [p |]; [| injection Hrun as <- _; eauto].
      unfold list_setitem in Hrun. rewrite Hl in Hrun.
      destruct (ii <? length xs)%nat; [| injection Hrun as <- _; eauto].
      destruct (IH _ _ _ (<[ii := PObj p]> xs) (lookup_insert_eq _ _ _) Hrun)
        as (xs' & Hxs' & Hlen).
      exists xs'. split; [assumption |]. now rewrite Hlen, length_insert.
    + eapply IH; eassumption.
    + injection Hrun as <- _. eauto.
Qed.

Lemma condition_Te_replicate (t : float64) (cnt : nat) :
  condition_Te (Array (replicate cnt t)) cnt = condition_Te (Scalar t) cnt.
Proof.
  unfold condition_Te. cbn [np.elements].
  destruct cnt as [| [| cnt]]; try reflexivity.
  cbn [replicate]. rewrite <- !replicate_S.
  cbn [replicate length]. rewrite length_replicate, Nat.eqb_refl. reflexivity.
Qed.

Lemma condition_Ti_replicate (t : float64) (cnt : nat) :
  condition_Ti (Array (replicate cnt t)) cnt = condition_Ti (Scalar t) cnt.
Proof.
  unfold condition_Ti. cbn [np.elements].
  destruct cnt as [| [| cnt]]; try reflexivity.
  cbn [replicate length]. rewrite length_replicate, Nat.eqb_refl. reflexivity.
Qed.

Lemma mbind_ret {A B : Type} (a : A) (k : A -> M B) (h : heap) :
  mbind (ret a) k h = k a h.
Proof. reflexivity. Qed.

Lemma mbind_run {A B : Type} (m : M A) (k : A -> M B) (h : heap) :
  mbind m k h
  = match m h with
    | (h', Ok a) => k a h'
    | (h', Raise x) => (h', Raise x)
    end.
Proof. reflexivity. Qed.

Lemma mbind_get_list {B : Type} (l : loc) (xs : list particle_like) (h : heap)
    (k : list particle_like -> M B) :
  h !! l = Some xs -> mbind (get_list l) k h = k xs h.
Proof. intros Hl. unfold mbind, get_list. now rewrite Hl. Qed.

Variables (wavelengths : list float64) (probe_wavelength n : float64).
Variables (efract ifract : option (list float64)).
Variables (electron_vel ion_vel : option (list vec3)) (probe_vec scatter_vec : vec3).


(** X13. A string that names no particle stops the call with the
    exception of [Particle], and the caller's list is left half
    converted: the entries before that string hold their [Particle]
    objects already, the string and the entries after it are as they
    were. *)
Theorem invalid_species_leaves_the_list_half_converted
    (Te Ti : ndarray float64) (l : loc) (h : heap)
    (pre post : list particle_like) (ps : list Particle) (s : string) (x : exception) :
  h !! l = Some (pre ++ PStr s :: post) ->
  Forall2 resolves pre ps ->
  Particle_new s = Raise x ->
  spectral_density wavelengths probe_wavelength n Te Ti efract ifract (AList l)
    electron_vel ion_vel probe_vec scatter_vec h
  = (<[l := List.map PObj ps ++ PStr s :: post]> h, Raise x).
Proof.
  intros Hl Hres Hs. unfold spectral_density. cbv zeta. unfold as_list.
  unfold mbind at 1. unfold ret at 1.
  unfold mbind at 1. unfold get_list at 1. rewrite Hl.
  unfold mbind at 1.
  destruct (Nat.eqb_spec (length (pre ++ PStr s :: post)) 0) as [Hz | _].
  { rewrite length_app in Hz. simpl in Hz. lia. }
  unfold ret at 1. unfold mbind at 1.
  pose proof (condition_ion_species_stops l s x post pre Hs [] ps h Hl Hres) as Hrun.
  cbn [length app] in Hrun. now rewrite Hrun.
Qed.

(** X14. One temperature stands for all the populations: a scalar [Te]
    gives the same call as the array that repeats it for every electron
    population, and a scalar [Ti] the same call as the array that repeats
    it for every entry of the list [ion_species]. *)
Theorem one_temperature_stands_for_all (te ti : float64) :
  (forall Ti ion_species h,
     spectral_density wavelengths probe_wavelength n (Scalar te) Ti efract ifract
       ion_species electron_vel ion_vel probe_vec scatter_vec h
     = spectral_density wavelengths probe_wavelength n
         (Array (replicate (length (fract_or_ones efract)) te)) Ti efract ifract
         ion_species electron_vel ion_vel probe_vec scatter_vec h)
  /\ (forall Te l xs h,
        h !! l = Some xs ->
        spectral_density wavelengths probe_wavelength n Te (Scalar ti) efract ifract
          (AList l) electron_vel ion_vel probe_vec scatter_vec h
        = spectral_density wavelengths probe_wavelength n Te
            (Array (replicate (length xs) ti)) efract ifract
            (AList l) electron_vel ion_vel probe_vec scatter_vec h).
Proof.
  split.
  - intros Ti ion_species h. unfold spectral_density. cbv zeta.
    now rewrite condition_Te_replicate.
  - intros Te l xs h Hl. unfold spectral_density. cbv zeta. unfold as_list.
    rewrite !mbind_ret, !(mbind_get_list _ _ _ _ Hl).
    destruct (Nat.eqb (length xs) 0); [reflexivity |].
    cbv iota. rewrite !mbind_ret.
    rewrite !(mbind_run (condition_ion_species l (seq 0 (length xs)))).
    destruct (condition_ion_species l (seq 0 (length xs)) h) as [h1 [[] | x]] eqn:Hloop;
      [| reflexivity].
    destruct (condition_ion_species_length _ _ _ _ _ _ Hl Hloop) as (xs' & Hxs' & Hlen).
    rewrite !(mbind_get_list _ _ _ _ Hxs').
    rewrite <- Hlen. now rewrite condition_Ti_replicate.
Qed.
End conditioning.

Section shape.
Import thomson thomson_spec.
Context `{Formulary}.

Lemma length_sum_axis0 (cols : nat) (rows : list (list complex128)) :
  Forall (fun r => length r = cols) rows -> length (sum_axis0 cols rows) = cols.
Proof.
  unfold sum_axis0. intros Hrows.
  assert (Hgen : forall init, length init = cols ->
             length (foldl (zip_with cadd) init rows) = cols).
  { induction Hrows as [| r rows Hr _ IH]; intros init Hinit; simpl; [assumption |].
    apply IH. rewrite length_zip_with. lia. }
  apply Hgen. apply length_replicate.
Qed.

Lemma length_row {A : Type} (cols m : nat) (rows : list (list A)) :
  Forall (fun r => length r = cols) rows -> m < length rows ->
  length (nth m rows []) = cols.
Proof.
  intros Hrows Hm. rewrite List.Forall_forall in Hrows. apply Hrows.
  now apply nth_In.
Qed.

Lemma rows_doppler_shifted (w k : list float64) (k_vec : vec3) (vel : list vec3) :
  length k = length w ->
  Forall (fun r => length r = length w) (doppler_shifted w k k_vec vel)
  /\ length (doppler_shifted w k k_vec vel) = length vel.
Proof.
  intros Hk. unfold doppler_shifted. split; [| apply List.length_map].
  apply List.Forall_forall. intros r Hr. apply List.in_map_iff in Hr.
  destruct Hr as (v & <- & _). rewrite length_zip_with. lia.
Qed.

Lemma rows_phase_velocities (cols : nat) (vT k : list float64)
    (w_pop : list (list float64)) :
  length k = cols -> Forall (fun r => length r = cols) w_pop ->
  Forall (fun r => length r = cols) (phase_velocities vT k w_pop)
  /\ length (phase_velocities vT k w_pop) = length vT `min` length w_pop.
Proof.
  intros Hk Hrows. unfold phase_velocities. split; [| apply length_zip_with].
  revert vT. induction Hrows as [| r rows Hr _ IH]; intros [| v vT]; simpl;
    constructor.
  - rewrite length_zip_with. lia.
  - apply IH.
Qed.

Lemma Forall_map_seq {A : Type} (P : A -> Prop) (f : nat -> A) (len : nat) :
  (forall m, m < len -> P (f m)) -> Forall P (List.map f (seq 0 len)).
Proof.
  intros Hf. apply List.Forall_forall. intros x Hx.
  apply List.in_map_iff in Hx as (m & <- & Hm).
  apply Hf. apply in_seq in Hm. lia.
Qed.

(** The shape of the value of [spectrum] when the population counts
    agree. *)
Lemma length_Skw (wavelengths : list float64) (probe_wavelength n : float64)
    (Te Ti efract ifract : list float64) (particles : list Particle)
    (electron_vel ion_vel : list vec3) (probe_vec scatter_vec : vec3) :
  length Te = length efract -> length electron_vel = length efract ->
  length Ti = length particles -> length ion_vel = length ifract ->
  length particles = length ifract ->
  length (snd (spectrum wavelengths probe_wavelength n Te Ti efract ifract particles
                 electron_vel ion_vel probe_vec scatter_vec))
  = length wavelengths.
Proof.
  intros HTe Hev HTi Hiv Hps. unfold spectrum. cbv zeta. cbn [snd].
  set (vTe := List.map _ Te).
  set (vTi := zip_with _ Ti particles).
  set (ion_z := List.map _ (take (length Ti) particles)).
  set (w := List.map _ (List.map angular_frequency wavelengths)).
  set (k := List.map _ (List.map _ (List.map angular_frequency wavelengths))).
  set (k_vec := vsub _ _).
  assert (Hw : length w = length wavelengths) by (unfold w; now rewrite !List.length_map).
  assert (Hk : length k = length w) by (unfold k; now rewrite Hw, !List.length_map).
  destruct (rows_doppler_shifted w k k_vec electron_vel Hk) as (Hwe & Hlwe).
  destruct (rows_doppler_shifted w k k_vec ion_vel Hk) as (Hwi & Hlwi).
  set (w_e := doppler_shifted w k k_vec electron_vel) in *.
  set (w_i := doppler_shifted w k k_vec ion_vel) in *.
  destruct (rows_phase_velocities (length w) vTe k w_e Hk Hwe) as (Hxe & Hlxe).
  destruct (rows_phase_velocities (length w) vTi k w_i Hk Hwi) as (Hxi & Hlxi).
  set (xe := phase_velocities vTe k w_e) in *.
  set (xi := phase_velocities vTi k w_i) in *.
  assert (HvTe : length vTe = length efract) by (unfold vTe; now rewrite List.length_map).
  assert (HvTi : length vTi = length ifract)
    by (unfold vTi; rewrite length_zip_with; lia).
  set (chiE := electron_susceptibilities _ _ _ _ _).
  set (chiI := ion_susceptibilities _ _ _ _ _ _).
  assert (HchiE : Forall (fun r => length r = length w) chiE).
  { unfold chiE, electron_susceptibilities. apply Forall_map_seq. intros m Hm.
    rewrite length_zip_with. unfold row_.
    rewrite (length_row (length w) m w_e Hwe) by lia. lia. }
  assert (HchiI : Forall (fun r => length r = length w) chiI).
  { unfold chiI, ion_susceptibilities. apply Forall_lookup. intros i r Hr.
    apply list_lookup_imap_Some in Hr as (ion & Hion & ->).
    apply lookup_lt_Some in Hion.
    rewrite length_zip_with. unfold row_.
    rewrite (length_row (length w) i w_i Hwi) by lia. lia. }
  pose proof (length_sum_axis0 _ _ HchiE) as HsE.
  pose proof (length_sum_axis0 _ _ HchiI) as HsI.
  set (sum_chiE := sum_axis0 (length w) chiE) in *.
  set (epsilon := zip_with cadd (List.map _ sum_chiE) (sum_axis0 (length w) chiI)).
  assert (Heps : length epsilon = length w).
  { unfold epsilon. rewrite length_zip_with, List.length_map. lia. }
  set (econtr := electron_contributions _ _ _ _ _ _).
  set (icontr := ion_contributions _ _ _ _ _ _ _).
  assert (Hec : Forall (fun r => length r = length w) econtr).
  { unfold econtr, electron_contributions. apply Forall_map_seq. intros m Hm.
    rewrite length_zip_with, !length_zip. unfold row_.
    rewrite (length_row (length w) m xe Hxe) by lia. lia. }
  assert (Hic : Forall (fun r => length r = length w) icontr).
  { unfold icontr, ion_contributions. apply Forall_map_seq. intros m Hm.
    rewrite length_zip_with, !length_zip. unfold row_.
    rewrite (length_row (length w) m xi Hxi) by lia. lia. }
  rewrite List.length_map, length_zip_with.
  rewrite (length_sum_axis0 _ _ Hec), (length_sum_axis0 _ _ Hic). lia.
Qed.

Lemma checked_spectrum_Ok_lengths (wavelengths : list float64)
    (probe_wavelength n : float64) (Te Ti : ndarray float64)
    (efract ifract : list float64) (particles : list Particle)
    (electron_vel ion_vel : list vec3) (probe_vec scatter_vec : vec3)
    (res : float64 * list float64) :
  checked_spectrum wavelengths probe_wavelength n Te Ti efract ifract particles
    electron_vel ion_vel probe_vec scatter_vec = Ok res ->
  exists Te' Ti',
    res = spectrum wavelengths probe_wavelength n Te' Ti' efract ifract particles
            electron_vel ion_vel probe_vec scatter_vec
    /\ condition_Te Te (length efract) = Ok Te'
    /\ length Te' = length efract /\ length electron_vel = length efract
    /\ length Ti' = length particles /\ length ion_vel = length ifract
    /\ length particles = length ifract.
Proof.
  unfold checked_spectrum.
  destruct (condition_Te Te _) as [Te' |] eqn:HTe; [| discriminate]. cbn [bind].
  destruct (condition_Ti Ti _) as [Ti' |] eqn:HTi; [| discriminate]. cbn [bind].
  destruct (Nat.eqb_spec (length particles) (length ifract)) as [Hps |];
    [| discriminate].
  destruct (Nat.eqb_spec (length ion_vel) (length ifract)) as [Hiv |];
    [| discriminate].
  destruct (Nat.eqb_spec (length Ti') (length ifract)) as [HTi' |];
    [| discriminate].
  cbn [negb orb bind].
  destruct (Nat.eqb_spec (length electron_vel) (length efract)) as [Hev |];
    [| discriminate].
  destruct (Nat.eqb_spec (length Te') (length efract)) as [HTe' |];
    [| discriminate].
  cbn [negb orb bind]. intros [= <-].
  exists Te', Ti'. repeat split; congruence.
Qed.

Variables (wavelengths : list float64) (probe_wavelength n : float64).

(** X10. A call that returns gives one value of [Skw] for every
    wavelength, for any number of electron and ion populations. *)
Theorem Skw_has_one_value_per_wavelength
    (Te Ti : ndarray float64) (efract ifract : option (list float64))
    (ion_species : ion_species_arg)
    (electron_vel ion_vel : option (list vec3)) (probe_vec scatter_vec : vec3)
    (h h' : heap) (res : float64 * list float64) :
  spectral_density wavelengths probe_wavelength n Te Ti efract ifract ion_species
    electron_vel ion_vel probe_vec scatter_vec h = (h', Ok res) ->
  length (snd res) = length wavelengths.
Proof.
  intros Hrun.
  apply spectral_density_Ok_inv in Hrun as (ps & Hrun).
  apply checked_spectrum_Ok_lengths in Hrun
    as (Te' & Ti' & -> & _ & HTe & Hev & HTi & Hiv & Hps).
  now apply length_Skw.
Qed.

(** X11. [alpha] depends on the wavelengths, the density, the electron
    temperatures and the two directions only: two calls that return and
    agree on these and on the number of electron populations return the
    same [alpha], whatever the ion temperatures, the species, the drift
    velocities and the values of the fractions [efract] and [ifract]
    are. In particular the mean over the electron populations is not
    weighted by [efract]. *)
Theorem alpha_ignores_ions_drifts_and_fractions
    (Te : ndarray float64) (probe_vec scatter_vec : vec3)
    (Ti1 Ti2 : ndarray float64) (efract1 efract2 ifract1 ifract2 : option (list float64))
    (ion_species1 ion_species2 : ion_species_arg)
    (electron_vel1 electron_vel2 ion_vel1 ion_vel2 : option (list vec3))
    (h1 h1' h2 h2' : heap) (res1 res2 : float64 * list float64) :
  length (fract_or_ones efract1) = length (fract_or_ones efract2) ->
  spectral_density wavelengths probe_wavelength n Te Ti1 efract1 ifract1 ion_species1
    electron_vel1 ion_vel1 probe_vec scatter_vec h1 = (h1', Ok res1) ->
  spectral_density wavelengths probe_wavelength n Te Ti2 efract2 ifract2 ion_species2
    electron_vel2 ion_vel2 probe_vec scatter_vec h2 = (h2', Ok res2) ->
  fst res1 = fst res2.
Proof.
  intros Hlen Hrun1 Hrun2.
  apply spectral_density_Ok_inv in Hrun1 as (ps1 & Hrun1).
  apply spectral_density_Ok_inv in Hrun2 as (ps2 & Hrun2).
  apply checked_spectrum_Ok_lengths in Hrun1 as (Te1 & ? & -> & HTe1 & _).
  apply checked_spectrum_Ok_lengths in Hrun2 as (Te2 & ? & -> & HTe2 & _).
  rewrite Hlen in HTe1. rewrite HTe1 in HTe2. injection HTe2 as <-.
  now rewrite !spectrum_alpha.
Qed.
End shape.

(* ================================================================== *)
(** * The collision rates and the macroscopic properties *)

Section W_facts.
Import transport.

Lemma wbind_Ok {A B : Type} (ev : list event) (a : A) (k : A -> W B) :
  wbind (ev, Ok a) k = (ev ++ fst (k a), snd (k a)).
Proof. reflexivity. Qed.

Lemma wbind_Raise {A B : Type} (ev : list event) (x : exception) (k : A -> W B) :
  wbind (ev, Raise x) k = (ev, Raise x).
Proof. reflexivity. Qed.

Lemma wbind_wlift_Ok {A B : Type} (a : A) (k : A -> W B) :
  wbind (wlift (Ok a)) k = k a.
Proof. unfold wlift. rewrite wbind_Ok. now destruct (k a). Qed.

Lemma wbind_wlift_Raise {A B : Type} (x : exception) (k : A -> W B) :
  wbind (wlift (Raise x)) k = ([], Raise x).
Proof. reflexivity. Qed.

Lemma wbind_wret {A B : Type} (a : A) (k : A -> W B) : wbind (wret a) k = k a.
Proof. apply wbind_wlift_Ok. Qed.

(** The events of a sequence: those of the first part, then those of the
    second when the first part returns. *)
Lemma events_wbind {A B : Type} (m : W A) (k : A -> W B) :
  fst (wbind m k)
  = fst m ++ match snd m with
             | Ok a => fst (k a)
             | Raise _ => []
             end.
Proof. destruct m as [ev [a | x]]; simpl; [reflexivity | now rewrite app_nil_r]. Qed.

Lemma wbind_Ok_inv {A B : Type} (m : W A) (k : A -> W B) (ev : list event) (b : B) :
  wbind m k = (ev, Ok b) ->
  exists ev1 a ev2, m = (ev1, Ok a) /\ k a = (ev2, Ok b) /\ ev = ev1 ++ ev2.
Proof.
  destruct m as [ev1 [a | x]]; simpl; [| discriminate].
  destruct (k a) as [ev2 r] eqn:Hk. simpl. intros [= <- ->]. eauto 6.
Qed.

Lemma events_warned {A : Type} (r : result (A * list warning)) (fields : message) :
  ~ In (Printed fields) (fst (warned r)).
Proof.
  destruct r as [[a ws] | x]; simpl; [| tauto].
  intros Hin. apply List.in_map_iff in Hin as (w & Hw & _). discriminate.
Qed.
End W_facts.

Lemma written_V_scalar (x : float64) (T filled : ndarray float64) :
  collisions.written_V (Scalar x) T filled = Scalar x.
Proof. unfold collisions.written_V. cbn [np.isscalar negb]. now rewrite andb_false_r. Qed.

Section collision_frequency_facts.
Import collisions collisions_spec transport.
Context `{Formulary} `{Particles}.

Variables (T n : ndarray float64) (species : string * string).
Variables (z_mean V : ndarray float64) (method : string).

Lemma with_particles_Ok {A : Type} (ps : Particle * Particle)
    (f : Particle * Particle -> result A) :
  particle_input species = Ok ps -> with_particles species f = f ps.
Proof. intros Hps. unfold with_particles. now rewrite Hps. Qed.

(** The frequency from the velocity, the collision radius and the
    Coulomb logarithm: [n * sigma * V * cou_log]. *)
Lemma collision_frequency_inv (ev : list event) (freq : ndarray float64) :
  collision_frequency T n species z_mean V method = (ev, Ok freq) ->
  exists ps bp,
    particle_input species = Ok ps /\ _boilerPlate T ps (Some V) = Ok bp.
Proof.
  unfold collision_frequency. intros Hrun.
  apply wbind_Ok_inv in Hrun as (ev1 & bp & ev2 & Hbp & _).
  unfold wlift in Hbp. injection Hbp as _ Hbp.
  unfold with_particles in Hbp.
  destruct (particle_input species) as [ps |]; [| discriminate].
  cbn [bind] in Hbp. eauto.
Qed.

Lemma collision_frequency_Raise_first (x : exception) :
  with_particles species (fun ps => _boilerPlate T ps (Some V)) = Raise x ->
  collision_frequency T n species z_mean V method = ([], Raise x).
Proof. intros Hbp. unfold collision_frequency. now rewrite Hbp. Qed.

Section checked.
Variables (ps : Particle * Particle) (bp : boilerPlate).
Hypothesis Hps : particle_input species = Ok ps.
Hypothesis Hbp : _boilerPlate T ps (Some V) = Ok bp.

Let q1 := fabs (charge (fst ps)).
Let q2 := fabs (charge (snd ps)).

Lemma replace_reduced :
  _replaceNanVwithThermalV (Some V) (bp_T bp) (bp_reduced_mass bp) = Ok (bp_V bp).
Proof using Hbp.
  destruct (boilerPlate_inv _ _ _ _ Hbp) as (Hrep & _ & Heq).
  rewrite Heq. cbn [bp_T bp_reduced_mass bp_V]. exact Hrep.
Qed.

(** What [_boilerPlate] has left in [V] goes through the checks of the
    reduced mass as the velocity [_boilerPlate] returned. *)
Lemma replace_reduced_written :
  np.any (eq_zero (Some (bp_V bp))) = false ->
  _replaceNanVwithThermalV (Some (written_V V T (bp_V bp))) (bp_T bp) (bp_reduced_mass bp)
  = Ok (bp_V bp).
Proof using Hbp.
  intros Hnz. unfold written_V.
  destruct (np.isscalar T && negb (np.isscalar V)); [| exact replace_reduced].
  exact (replaceNan_idem _ _ _ _ replace_reduced Hnz).
Qed.

(** The branch for two electrons and the branch for two ions. *)
Lemma collision_frequency_like :
  ~ In (Fin 0) (np.elements (bp_V bp)) ->
  is_electron (fst species) = is_electron (snd species) ->
  collision_frequency T n species z_mean V method
  = (_ <-- (if is_electron (fst species)
            then print (printed_arguments T n species z_mean method)
            else wret tt) ;;
     cou_log <-- warned (Coulomb_logarithm T n ps z_mean (Some (bp_V bp)) method) ;;
     wlift (a <- multiply n (Coulomb_cross_section
                               (np.map (rho_perp q1 q2 (bp_reduced_mass bp)) (bp_V bp))) ;;
            b <- multiply a (bp_V bp) ;;
            multiply b cou_log)).
Proof using Hps Hbp.
  intros Hnz Hsame. apply any_eq_zero_false in Hnz.
  unfold collision_frequency.
  rewrite (with_particles_Ok _ _ Hps), Hbp, wbind_wlift_Ok. cbv zeta.
  rewrite (replace_reduced_written Hnz), !wbind_wlift_Ok.
  rewrite (boilerPlate_T _ _ _ _ Hbp).
  repeat match goal with
    | |- context [with_particles species ?f] => rewrite (with_particles_Ok ps f Hps)
    end.
  cbv beta.
  rewrite (impact_parameter_perp_again _ _ _ _ Hbp Hnz), !wbind_wlift_Ok.
  fold q1 q2.
  rewrite <- Hsame.
  destruct (is_electron (fst species)); cbn [andb orb].
  - destruct (warned _) as [ev [L | x]];
      cbn [print wbind wret wlift fst snd app]; rewrite ?app_nil_r; reflexivity.
  - destruct (warned _) as [ev [L | x]];
      cbn [print wbind wret wlift fst snd app]; rewrite ?app_nil_r; reflexivity.
Qed.
End checked.
End collision_frequency_facts.

Section frequency.
Import collisions collisions_spec transport.
Context `{Formulary} `{Particles}.

(** X15. Two electrons, or two particles neither of which is spelled as
    an electron: once the checks pass with a velocity that holds no
    zero, the frequency is [n * sigma * V * ln_Lambda], with [V] the
    velocity of the checks (the given one, or the thermal speed of the
    reduced mass), [sigma] the cross section of the distance of closest
    approach at that velocity, and [ln_Lambda] the Coulomb logarithm at
    that velocity, whose warnings are passed on and whose exception
    ends the call. The call on two electrons prints its arguments
    first. *)
Theorem frequency_of_like_particles
    (T n : ndarray float64) (species : string * string)
    (z_mean V : ndarray float64) (method : string)
    (ps : Particle * Particle) (bp : boilerPlate) :
  particle_input species = Ok ps ->
  _boilerPlate T ps (Some V) = Ok bp ->
  ~ In (Fin 0) (np.elements (bp_V bp)) ->
  is_electron (fst species) = is_electron (snd species) ->
  let printed :=
    if is_electron (fst species)
    then [Printed (printed_arguments T n species z_mean method)] else [] in
  let sigma :=
    Coulomb_cross_section
      (np.map (rho_perp (fabs (charge (fst ps))) (fabs (charge (snd ps)))
                 (bp_reduced_mass bp)) (bp_V bp)) in
  match Coulomb_logarithm T n ps z_mean (Some (bp_V bp)) method with
  | Ok (ln_Lambda, ws) =>
      collision_frequency T n species z_mean V method
      = (printed ++ List.map Warned ws,
         a <- multiply n sigma ;; b <- multiply a (bp_V bp) ;; multiply b ln_Lambda)
  | Raise x =>
      collision_frequency T n species z_mean V method = (printed, Raise x)
  end.
Proof.
  intros Hps Hbp Hnz Hsame printed sigma.
  rewrite (collision_frequency_like T n species z_mean V method ps bp Hps Hbp Hnz Hsame).
  fold sigma. subst printed.
  destruct (Coulomb_logarithm T n ps z_mean (Some (bp_V bp)) method) as [[L ws] | x];
    destruct (is_electron (fst species)); cbn; rewrite ?app_nil_r; reflexivity.
Qed.

Lemma rho_perp_rescaled (a b mu me eps r : R) :
  mu <> 0%R -> me <> 0%R -> eps <> 0%R -> r <> 0%R -> eps0 = Fin eps ->
  (rho_perp (Fin a) (Fin b) (Fin mu) (Fin r) * Fin mu / Fin me)%f64
  = rho_perp (Fin a) (Fin b) (Fin me) (Fin r).
Proof.
  intros Hmu Hme Heps Hr He. unfold rho_perp, fsquare, f4, np.pi. rewrite He.
  pose proof PI_RGT_0 as Hpi.
  assert (Hd : forall m : R, m <> 0%R -> (4 * PI * eps * m * (r * r) <> 0)%R).
  { intros m Hm.
    assert (4 * PI <> 0)%R by lra.
    assert (r * r <> 0)%R by (apply Rmult_integral_contrapositive_currified; assumption).
    do 3 (apply Rmult_integral_contrapositive_currified; [| assumption]).
    assumption. }
  cbn [fmul]. rewrite !fdiv_Fin by auto. cbn [fmul]. rewrite fdiv_Fin by assumption.
  f_equal. field. repeat split; try assumption. lra.
Qed.

Lemma no_nan_no_zero (Ve : ndarray float64) :
  Forall (fun v => exists r : R, v = Fin r /\ r <> 0%R) (np.elements Ve) ->
  np.any (eq_zero (Some Ve)) = false /\ np.any (np.isnan Ve) = false.
Proof.
  intros Hfin. rewrite List.Forall_forall in Hfin. split.
  - apply any_eq_zero_false. intros Hin.
    destruct (Hfin _ Hin) as (r & [= <-] & Hr). now apply Hr.
  - unfold np.any, np.isnan. rewrite np_elements_map.
    destruct (existsb _ _) eqn:Hex; [| reflexivity].
    apply existsb_exists in Hex as (b & Hin & ->).
    apply List.in_map_iff in Hin as (v & Hv & Hin).
    destruct (Hfin _ Hin) as (r & -> & _). discriminate.
Qed.

(** A velocity of finite values, none of them zero, goes through the
    checks as it is. *)
Lemma boilerPlate_of_finite_velocity (T Ve : ndarray float64) (ps : Particle * Particle) :
  Forall (fun v => exists r : R, v = Fin r /\ r <> 0%R) (np.elements Ve) ->
  _check_relativistic Ve "V" = Ok tt ->
  _boilerPlate T ps (Some Ve)
  = Ok {| bp_T := T;
          bp_masses := (mass (fst ps), mass (snd ps));
          bp_charges := (fabs (charge (fst ps)), fabs (charge (snd ps)));
          bp_reduced_mass := reduced_mass (fst ps) (snd ps);
          bp_V := Ve |}.
Proof.
  intros Hfin Hrel. destruct (no_nan_no_zero _ Hfin) as (Hnz & Hnan).
  unfold _boilerPlate, _replaceNanVwithThermalV. rewrite Hnz, Hnan. cbn [bind].
  now rewrite Hrel.
Qed.

Lemma rescaled_perp (Ve : ndarray float64) (a b mu me eps : R) :
  Forall (fun v => exists r : R, v = Fin r /\ r <> 0%R) (np.elements Ve) ->
  mu <> 0%R -> me <> 0%R -> eps <> 0%R -> eps0 = Fin eps ->
  np.map (fun x => (x * Fin mu / Fin me)%f64)
    (np.map (rho_perp (Fin a) (Fin b) (Fin mu)) Ve)
  = np.map (rho_perp (Fin a) (Fin b) (Fin me)) Ve.
Proof.
  intros Hfin Hmu Hme Heps He. rewrite np_map_map. rewrite List.Forall_forall in Hfin.
  destruct Ve as [v | vs]; cbn [np.map np.elements] in *.
  - destruct (Hfin v (or_introl eq_refl)) as (r & -> & Hr).
    f_equal. now apply (rho_perp_rescaled _ _ mu me eps r).
  - f_equal. apply List.map_ext_in. intros v Hv.
    destruct (Hfin v Hv) as (r & -> & Hr).
    now apply (rho_perp_rescaled _ _ mu me eps r).
Qed.

(** The branch for one electron and one other particle. *)
Lemma collision_frequency_unlike
    (T n : ndarray float64) (species : string * string)
    (z_mean V : ndarray float64) (method : string)
    (ps : Particle * Particle) (bp : boilerPlate) :
  particle_input species = Ok ps ->
  _boilerPlate T ps (Some V) = Ok bp ->
  is_electron (fst species) <> is_electron (snd species) ->
  collision_frequency T n species z_mean V method
  = (Ve <-- wlift (_replaceNanVwithThermalV (Some (written_V V T (bp_V bp))) T m_e) ;;
     b <-- wlift (impact_parameter_perp T ps Ve) ;;
     cou_log <-- warned (Coulomb_logarithm T n ps z_mean (Some Ve) method) ;;
     wlift (a <- multiply n
                   (Coulomb_cross_section
                      (np.map (fun x => (x * bp_reduced_mass bp / m_e)%f64) b)) ;;
            b <- multiply a Ve ;;
            multiply b cou_log)).
Proof.
  intros Hps Hbp Hdiff. unfold collision_frequency.
  rewrite (with_particles_Ok _ _ _ Hps), Hbp, wbind_wlift_Ok. cbv zeta.
  assert (Hbranch : is_electron (fst species) && is_electron (snd species) = false
                    /\ is_electron (fst species) || is_electron (snd species) = true).
  { destruct (is_electron (fst species)), (is_electron (snd species));
      try (now contradiction Hdiff); auto. }
  destruct Hbranch as (-> & ->).
  rewrite (boilerPlate_T _ _ _ _ Hbp).
  destruct (_replaceNanVwithThermalV (Some (written_V V T (bp_V bp))) T m_e) as [Ve |];
    [| reflexivity].
  rewrite !wbind_wlift_Ok.
  repeat match goal with
    | |- context [with_particles species ?f] =>
        rewrite (with_particles_Ok species ps f Hps)
    end.
  cbv beta.
  destruct (impact_parameter_perp T ps Ve) as [b |]; [| reflexivity].
  rewrite !wbind_wlift_Ok.
  destruct (warned _) as [ev [L | x]];
    cbn [wbind wret wlift fst snd app]; rewrite ?app_nil_r; reflexivity.
Qed.


(** X17. [collision_frequency] prints only when both species are spelled
    ["e"] or ["e-"], and then what it prints are its arguments; the calls
    for other species leave nothing but warnings behind. *)
Theorem only_two_electrons_print
    (T n : ndarray float64) (species : string * string)
    (z_mean V : ndarray float64) (method : string) (fields : message) :
  In (Printed fields) (fst (collision_frequency T n species z_mean V method)) ->
  is_electron (fst species) = true /\ is_electron (snd species) = true
  /\ fields = printed_arguments T n species z_mean method.
Proof.
  unfold collision_frequency. rewrite events_wbind. cbn [wlift fst snd app].
  destruct (with_particles species (fun ps => _boilerPlate T ps (Some V)))
    as [bp |] eqn:Hbp; [| intros []].
  assert (HT : bp_T bp = T).
  { unfold with_particles in Hbp. destruct (particle_input species) as [ps |];
      [| discriminate]. exact (boilerPlate_T _ _ _ _ Hbp). }
  rewrite events_wbind.
  match goal with
  | |- In _ (_ ++ match ?s with Ok _ => _ | Raise _ => _ end) -> _ =>
      replace (match s with Ok _ => _ | Raise _ => [] end) with (@nil event)
        by (destruct s; reflexivity)
  end.
  rewrite app_nil_r. cbv zeta.
  destruct (is_electron (fst species)), (is_electron (snd species)); cbn [andb orb].
  - (* two electrons *)
    destruct (_replaceNanVwithThermalV _ _ _) as [V' |]; [| intros []].
    rewrite wbind_wlift_Ok.
    destruct (with_particles species (fun ps => impact_parameter_perp _ ps _))
      as [bPerp |]; [| intros []].
    rewrite wbind_wlift_Ok. unfold print. rewrite wbind_Ok. cbn [fst app].
    intros [[= <-] | Hin]; [now rewrite HT |].
    exfalso. rewrite events_wbind in Hin. apply in_app_or in Hin as [Hin | Hin].
    + now apply events_warned in Hin.
    + destruct (snd (warned _)); destruct Hin.
  - destruct (_replaceNanVwithThermalV _ _ _) as [V' |]; [| intros []].
    rewrite wbind_wlift_Ok.
    destruct (with_particles species (fun ps => impact_parameter_perp _ ps _))
      as [bPerp |]; [| intros []].
    rewrite wbind_wlift_Ok. intros Hin.
    exfalso. rewrite events_wbind in Hin. apply in_app_or in Hin as [Hin | Hin].
    + now apply events_warned in Hin.
    + destruct (snd (warned _)); destruct Hin.
  - destruct (_replaceNanVwithThermalV _ _ _) as [V' |]; [| intros []].
    rewrite wbind_wlift_Ok.
    destruct (with_particles species (fun ps => impact_parameter_perp _ ps _))
      as [bPerp |]; [| intros []].
    rewrite wbind_wlift_Ok. intros Hin.
    exfalso. rewrite events_wbind in Hin. apply in_app_or in Hin as [Hin | Hin].
    + now apply events_warned in Hin.
    + destruct (snd (warned _)); destruct Hin.
  - destruct (_replaceNanVwithThermalV _ _ _) as [V' |]; [| intros []].
    rewrite wbind_wlift_Ok.
    destruct (with_particles species (fun ps => impact_parameter_perp _ ps _))
      as [bPerp |]; [| intros []].
    rewrite wbind_wlift_Ok. intros Hin.
    exfalso. rewrite events_wbind in Hin. apply in_app_or in Hin as [Hin | Hin].
    + now apply events_warned in Hin.
    + destruct (snd (warned _)); destruct Hin.
Qed.
End frequency.

Section rates.
Import collisions collisions_spec transport.
Context `{Formulary} `{Particles}.

(** X18. No rate is computed for a velocity with a zero among its
    elements: the collision frequency, the mean free path, the Knudsen
    number, the resistivity, the mobility, the coupling parameter and the
    two fundamental frequencies raise [PhysicsError] before anything is
    printed or warned about. *)
Theorem rates_refuse_a_zero_velocity
    (T n : ndarray float64) (species : string * string)
    (z_mean V characteristic_length : ndarray float64) (method : string)
    (ps : Particle * Particle) :
  In (Fin 0) (np.elements V) ->
  particle_input species = Ok ps ->
  let refused := PhysicsError msg_zero_velocity in
  collision_frequency T n species z_mean V method = ([], Raise refused)
  /\ mean_free_path T n species z_mean V method = ([], Raise refused)
  /\ Knudsen_number characteristic_length T n species z_mean V method
     = ([], Raise refused)
  /\ Spitzer_resistivity T n species z_mean V method = ([], Raise refused)
  /\ mobility T n species z_mean V method = ([], Raise refused)
  /\ coupling_parameter T n species z_mean V method = Raise refused
  /\ (forall ion coulomb_log,
        fundamental_electron_collision_freq T n ion coulomb_log (Some V) method
        = ([], Raise refused))
  /\ (forall ion coulomb_log m_i,
        particle_mass ion = Ok m_i ->
        fundamental_ion_collision_freq T n ion coulomb_log (Some V) method
        = ([], Raise refused)).
Proof.
  intros Hz Hps refused.
  assert (Hbp : with_particles species (fun ps => _boilerPlate T ps (Some V))
                = Raise refused)
    by (rewrite (with_particles_Ok _ _ _ Hps); now apply boilerPlate_zero).
  assert (Hfreq : collision_frequency T n species z_mean V method = ([], Raise refused))
    by now apply collision_frequency_Raise_first.
  assert (Hmfp : mean_free_path T n species z_mean V method = ([], Raise refused))
    by (unfold mean_free_path; now rewrite Hfreq).
  split; [exact Hfreq |]. split; [exact Hmfp |]. split.
  { unfold Knudsen_number. now rewrite Hmfp. }
  split. { unfold Spitzer_resistivity. now rewrite Hfreq. }
  split. { unfold mobility. now rewrite Hfreq. }
  split. { unfold coupling_parameter. now rewrite Hbp. }
  split.
  - intros ion coulomb_log. unfold fundamental_electron_collision_freq.
    now rewrite replaceNan_zero.
  - intros ion coulomb_log m_i Hm. unfold fundamental_ion_collision_freq.
    rewrite Hm, wbind_wlift_Ok. now rewrite replaceNan_zero.
Qed.

(** X19. The functions built on the collision frequency pass on what it
    left behind and what it raised. When it returns, the second run of
    the checks cannot fail: the mean free path is the velocity of the
    checks, which is the thermal speed of the reduced mass when [V] is
    not set, divided by the frequency, and the Knudsen number is that
    path divided by the characteristic length. *)
Theorem rates_follow_the_collision_frequency
    (T n : ndarray float64) (species : string * string)
    (z_mean V characteristic_length : ndarray float64) (method : string)
    (ev : list event) (r : result (ndarray float64)) :
  collision_frequency T n species z_mean V method = (ev, r) ->
  match r with
  | Ok freq =>
      exists ps bp,
        particle_input species = Ok ps
        /\ _boilerPlate T ps (Some V) = Ok bp
        /\ mean_free_path T n species z_mean V method
           = (ev, np.divide (bp_V bp) freq)
        /\ Knudsen_number characteristic_length T n species z_mean V method
           = (ev, path_length <- np.divide (bp_V bp) freq ;;
                  np.divide path_length characteristic_length)
  | Raise x =>
      mean_free_path T n species z_mean V method = (ev, Raise x)
      /\ Knudsen_number characteristic_length T n species z_mean V method
         = (ev, Raise x)
      /\ Spitzer_resistivity T n species z_mean V method = (ev, Raise x)
      /\ mobility T n species z_mean V method = (ev, Raise x)
  end.
Proof.
  intros Hrun. destruct r as [freq | x].
  - destruct (collision_frequency_inv _ _ _ _ _ _ _ _ Hrun) as (ps & bp & Hps & Hbp).
    exists ps, bp. split; [exact Hps |]. split; [exact Hbp |].
    assert (Hmfp : mean_free_path T n species z_mean V method
                   = (ev, np.divide (bp_V bp) freq)).
    { unfold mean_free_path. rewrite Hrun, wbind_Ok.
      rewrite (with_particles_Ok _ _ _ Hps), Hbp, wbind_wlift_Ok.
      cbn [wlift fst snd]. now rewrite app_nil_r. }
    split; [exact Hmfp |].
    unfold Knudsen_number. rewrite Hmfp.
    destruct (np.divide (bp_V bp) freq) as [path |]; cbn; [| reflexivity].
    now rewrite app_nil_r.
  - assert (Hmfp : mean_free_path T n species z_mean V method = (ev, Raise x))
      by (unfold mean_free_path; now rewrite Hrun).
    split; [exact Hmfp |]. split; [unfold Knudsen_number; now rewrite Hmfp |].
    split; [unfold Spitzer_resistivity | unfold mobility]; now rewrite Hrun.
Qed.

(** X20. The resistivity and the mobility take one [z_mean]. With an
    array of two or more values, which [collision_frequency] accepts,
    they compute the frequency first, with its output and warnings, and
    then raise the [ValueError] of the truth value of an array. *)
Theorem resistivity_and_mobility_take_one_z_mean
    (T n : ndarray float64) (species : string * string)
    (z1 z2 : float64) (zs : list float64) (V : ndarray float64) (method : string)
    (ev : list event) (freq : ndarray float64) :
  let z_mean := Array (z1 :: z2 :: zs) in
  let ambiguous :=
    ValueError
      [Lit "The truth value of an array with more than one element is ambiguous. Use a.any() or a.all()"] in
  collision_frequency T n species z_mean V method = (ev, Ok freq) ->
  Spitzer_resistivity T n species z_mean V method = (ev, Raise ambiguous)
  /\ mobility T n species z_mean V method = (ev, Raise ambiguous).
Proof.
  intros z_mean ambiguous Hrun.
  destruct (collision_frequency_inv _ _ _ _ _ _ _ _ Hrun) as (ps & bp & Hps & Hbp).
  split.
  - unfold Spitzer_resistivity. rewrite Hrun, wbind_Ok.
    rewrite (with_particles_Ok _ _ _ Hps), Hbp, wbind_wlift_Ok.
    cbn. now rewrite app_nil_r.
  - unfold mobility. rewrite Hrun, wbind_Ok.
    rewrite (with_particles_Ok _ _ _ Hps), Hbp, wbind_wlift_Ok.
    cbn. now rewrite app_nil_r.
Qed.
End rates.

Section macroscopic.
Import collisions collisions_spec transport.
Context `{Formulary} `{Particles}.
Local Open Scope R_scope.

(** X21. With a mean charge [z_mean] the resistivity and the mobility are
    tied together: for one finite density, mean charge and frequency,
    none of them zero, the two calls return
    [nu mu / (n (z e)^2)] and [z e / (mu nu)], whose product is
    [1 / (n z e)], with the output of the frequency before them. *)
Theorem mobility_times_resistivity
    (T : ndarray float64) (species : string * string) (V : ndarray float64)
    (method : string) (ev : list event) (ps : Particle * Particle) (bp : boilerPlate)
    (N z nu mu q : R) :
  collision_frequency T (Scalar (Fin N)) species (Scalar (Fin z)) V method
  = (ev, Ok (Scalar (Fin nu))) ->
  particle_input species = Ok ps ->
  _boilerPlate T ps (Some V) = Ok bp ->
  bp_reduced_mass bp = Fin mu ->
  e = Fin q ->
  N <> 0 -> z <> 0 -> nu <> 0 -> mu <> 0 -> q <> 0 ->
  let resistivity := nu * mu / (N * (z * q * (z * q))) in
  let mobility_value := z * q / (mu * nu) in
  Spitzer_resistivity T (Scalar (Fin N)) species (Scalar (Fin z)) V method
  = (ev, Ok (Scalar (Fin resistivity)))
  /\ mobility T (Scalar (Fin N)) species (Scalar (Fin z)) V method
     = (ev, Ok (Scalar (Fin mobility_value)))
  /\ resistivity * mobility_value = 1 / (N * z * q).
Proof.
  intros Hrun Hps Hbp Hmu He HN Hz Hnu Hmu0 Hq resistivity mobility_value.
  assert (Hzq : z * q <> 0) by now apply Rmult_integral_contrapositive_currified.
  assert (Hzq2 : z * q * (z * q) <> 0)
    by now apply Rmult_integral_contrapositive_currified.
  split; [| split].
  - unfold Spitzer_resistivity. rewrite Hrun, wbind_Ok.
    rewrite (with_particles_Ok _ _ _ Hps), Hbp, wbind_wlift_Ok.
    cbn [np.isnan np.map fisnan np.truth wlift wbind fst snd]. rewrite !app_nil_r.
    rewrite Hmu, He. unfold multiply, np.divide, fsquare.
    cbn [np.broadcast np.map fmul bind].
    rewrite fdiv_Fin by now apply Rmult_integral_contrapositive_currified.
    reflexivity.
  - unfold mobility. rewrite Hrun, wbind_Ok.
    rewrite (with_particles_Ok _ _ _ Hps), Hbp, wbind_wlift_Ok.
    cbn [np.isnan np.map fisnan np.truth wlift wbind fst snd]. rewrite !app_nil_r.
    rewrite Hmu, He. unfold np.divide.
    cbn [np.broadcast np.map fmul bind].
    rewrite fdiv_Fin by now apply Rmult_integral_contrapositive_currified.
    reflexivity.
  - subst resistivity mobility_value. field. repeat split; assumption.
Qed.

(** X22. The coupling parameter knows the methods ["classical"] and
    ["quantum"] only. Any other name, the other names of
    [Coulomb_logarithm] among them, is refused with a [ValueError] that
    quotes it; the refusal comes last, after the checks of the velocity
    and after the charge numbers of the species were asked for when
    [z_mean] is not set. *)
Theorem coupling_parameter_knows_two_methods
    (T n_e : ndarray float64) (species : string * string)
    (z : float64) (V : ndarray float64) (method : string)
    (ps : Particle * Particle) (bp : boilerPlate) :
  particle_input species = Ok ps ->
  _boilerPlate T ps (Some V) = Ok bp ->
  (fisnan z = true ->
   exists Z1 Z2, charge_number_of (fst species) = Ok Z1
                 /\ charge_number_of (snd species) = Ok Z2) ->
  method <> "classical" -> method <> "quantum" ->
  coupling_parameter T n_e species (Scalar z) V method
  = Raise (ValueError (msg_coupling_method method)).
Proof.
  intros Hps Hbp Hcharges Hc Hq.
  apply String.eqb_neq in Hc, Hq.
  unfold coupling_parameter.
  rewrite (with_particles_Ok _ _ _ Hps), Hbp. cbn [bind np.isnan np.map np.truth].
  destruct (fisnan z).
  - destruct (Hcharges eq_refl) as (Z1 & Z2 & -> & ->). cbn [bind].
    now rewrite Hc, Hq.
  - unfold np.divide. destruct n_e as [x | xs]; cbn [np.broadcast bind np.map];
      now rewrite Hc, Hq.
Qed.

(** X23. With a number for [z_mean] the coupling parameter does not
    depend on the species: they only have to pass the checks of the
    velocity. The ion density is [n_e / z_mean] and the Coulomb energy is
    that of the charge [z_mean e], for any two pairs of species. *)
Theorem coupling_parameter_of_a_mean_charge_ignores_the_species
    (T n_e : ndarray float64) (species species' : string * string)
    (z_mean V : ndarray float64) (method : string)
    (ps ps' : Particle * Particle) (bp bp' : boilerPlate) :
  particle_input species = Ok ps -> _boilerPlate T ps (Some V) = Ok bp ->
  particle_input species' = Ok ps' -> _boilerPlate T ps' (Some V) = Ok bp' ->
  np.truth (np.isnan z_mean) = Ok false ->
  coupling_parameter T n_e species z_mean V method
  = coupling_parameter T n_e species' z_mean V method.
Proof.
  intros Hps Hbp Hps' Hbp' Hz. unfold coupling_parameter.
  rewrite (with_particles_Ok _ _ _ Hps), (with_particles_Ok _ _ _ Hps'), Hbp, Hbp'.
  cbn [bind]. rewrite Hz. cbn [bind].
  now rewrite (boilerPlate_T _ _ _ _ Hbp), (boilerPlate_T _ _ _ _ Hbp').
Qed.

Lemma any_nonzero_zeros (c : ndarray float64) :
  Forall (fun x => x = Fin 0) (np.elements c) -> any_nonzero (Some c) = false.
Proof.
  intros Hc. unfold any_nonzero. induction Hc as [| x xs -> _ IH]; [reflexivity |].
  cbn [existsb]. rewrite IH. cbn. now rewrite Reqb_true.
Qed.

(** X24. A Coulomb logarithm of zero is not used: the two fundamental
    frequencies test the argument [coulomb_log] by [np.any], so the
    number 0, or an array of zeros, gives the call made with [None], which
    computes the logarithm itself. *)
Theorem a_zero_coulomb_log_is_ignored
    (T n : ndarray float64) (ion : string) (c : ndarray float64)
    (V : option (ndarray float64)) (method : string) :
  Forall (fun x => x = Fin 0) (np.elements c) ->
  fundamental_electron_collision_freq T n ion (Some c) V method
  = fundamental_electron_collision_freq T n ion None V method
  /\ fundamental_ion_collision_freq T n ion (Some c) V method
     = fundamental_ion_collision_freq T n ion None V method.
Proof.
  intros Hc. apply any_nonzero_zeros in Hc.
  assert (Hfreq : forall coeff species Z_i V',
             fundamental_freq coeff T n species Z_i (Some c) V' method
             = fundamental_freq coeff T n species Z_i None V' method).
  { intros. unfold fundamental_freq. now rewrite Hc. }
  split.
  - unfold fundamental_electron_collision_freq.
    destruct (_replaceNanVwithThermalV V T m_e) as [V' |]; [| reflexivity].
    rewrite !wbind_wlift_Ok.
    destruct (charge_number_of ion) as [Z_i |]; [| reflexivity].
    rewrite !wbind_wlift_Ok. apply Hfreq.
  - unfold fundamental_ion_collision_freq.
    destruct (particle_mass ion) as [m_i |]; [| reflexivity].
    rewrite !wbind_wlift_Ok.
    destruct (_replaceNanVwithThermalV V T m_i) as [V' |]; [| reflexivity].
    rewrite !wbind_wlift_Ok.
    destruct (charge_number_of ion) as [Z_i |]; [| reflexivity].
    rewrite !wbind_wlift_Ok. apply Hfreq.
Qed.
End macroscopic.

Section given_logarithm.
Import collisions collisions_spec transport.
Context `{Formulary} `{Particles}.
Local Open Scope R_scope.

Lemma replaceNan_of_a_number (T : ndarray float64) (m : float64) (v : R) :
  v <> 0 -> _replaceNanVwithThermalV (Some (Scalar (Fin v))) T m = Ok (Scalar (Fin v)).
Proof.
  intros Hv. unfold _replaceNanVwithThermalV. cbn. now rewrite Reqb_false.
Qed.

Lemma rho_perp_Fin (a b m eps v : R) :
  m <> 0 -> eps <> 0 -> v <> 0 -> eps0 = Fin eps ->
  rho_perp (Fin a) (Fin b) (Fin m) (Fin v) = Fin (a * b / (4 * PI * eps * m * (v * v))).
Proof.
  intros Hm Heps Hv He. unfold rho_perp, fsquare, f4, np.pi. rewrite He.
  pose proof PI_RGT_0 as Hpi. cbn [fmul]. apply fdiv_Fin.
  assert (4 * PI <> 0) by lra.
  assert (v * v <> 0) by (apply Rmult_integral_contrapositive_currified; assumption).
  do 3 (apply Rmult_integral_contrapositive_currified; [| assumption]).
  assumption.
Qed.

(** X26. A Coulomb logarithm that the caller gives takes the place of the
    computed one. For an ion that is not spelled as an electron and
    finite scalar arguments, [fundamental_electron_collision_freq]
    returns [coeff * n * sigma * V * coulomb_log], in which the computed
    logarithm has cancelled; the logarithm is nevertheless computed
    twice, once inside [collision_frequency] and once to divide by, so
    its warnings come twice. *)
Theorem a_given_coulomb_log_replaces_the_computed_one
    (T : ndarray float64) (ion : string) (V : option (ndarray float64))
    (method : string) (ps : Particle * Particle) (bp : boilerPlate) (Z_i : Z)
    (ws : list warning) (N c v l me mu eps c1 c2 : R) :
  _replaceNanVwithThermalV V T m_e = Ok (Scalar (Fin v)) ->
  charge_number_of ion = Ok Z_i ->
  particle_input (ion, "e-") = Ok ps ->
  is_electron ion = false ->
  _boilerPlate T ps (Some (Scalar (Fin v))) = Ok bp ->
  Coulomb_logarithm T (Scalar (Fin N)) ps (Scalar (Fin (IZR Z_i)))
    (Some (Scalar (Fin v))) method
  = Ok (Scalar (Fin l), ws) ->
  m_e = Fin me -> bp_reduced_mass bp = Fin mu -> eps0 = Fin eps ->
  charge (fst ps) = Fin c1 -> charge (snd ps) = Fin c2 ->
  v <> 0 -> l <> 0 -> c <> 0 -> me <> 0 -> mu <> 0 -> eps <> 0 ->
  let sigma :=
    (np.pi * fsquare (f2 * rho_perp (Fin (Rabs c1)) (Fin (Rabs c2)) m_e (Fin v)))%f64 in
  fundamental_electron_collision_freq T (Scalar (Fin N)) ion (Some (Scalar (Fin c)))
    V method
  = (List.map Warned ws ++ List.map Warned ws,
     Ok (Scalar (electron_coeff * (Fin N * sigma * Fin v * Fin c))%f64)).
Proof.
  intros HV HZ Hps Hion Hbp HL Hme Hmu Heps Hc1 Hc2 Hv Hl Hc Hme0 Hmu0 Heps0 sigma.
  assert (Hfin : Forall (fun x => exists r : R, x = Fin r /\ r <> 0)
                   (np.elements (Scalar (Fin v)))).
  { constructor; [eauto | constructor]. }
  destruct (boilerPlate_inv _ _ _ _ Hbp) as (Hrep & Hrel & Hrec).
  rewrite (replaceNan_of_a_number _ _ _ Hv) in Hrep. injection Hrep as Hrep.
  rewrite <- Hrep in Hrel.
  assert (Hrm : reduced_mass (fst ps) (snd ps) = Fin mu)
    by (rewrite <- Hmu, Hrec; reflexivity).
  assert (Hperp : impact_parameter_perp T ps (Scalar (Fin v))
                  = Ok (Scalar (rho_perp (Fin (Rabs c1)) (Fin (Rabs c2)) (Fin mu) (Fin v)))).
  { unfold impact_parameter_perp.
    rewrite (boilerPlate_of_finite_velocity T _ ps Hfin Hrel).
    cbn [bind bp_charges bp_reduced_mass bp_V fst snd np.map].
    rewrite Hc1, Hc2, Hrm. reflexivity. }
  assert (Hdiff : is_electron (fst (ion, "e-"%string))
                  <> is_electron (snd (ion, "e-"%string))).
  { cbn [fst snd]. rewrite Hion. discriminate. }
  unfold fundamental_electron_collision_freq.
  rewrite HV, wbind_wlift_Ok, HZ, wbind_wlift_Ok. unfold fundamental_freq.
  rewrite (collision_frequency_unlike T _ _ _ _ method ps bp Hps Hbp Hdiff).
  rewrite written_V_scalar.
  rewrite (replaceNan_of_a_number _ _ _ Hv), wbind_wlift_Ok, Hperp, wbind_wlift_Ok.
  rewrite (with_particles_Ok _ _ _ Hps), HL, Hmu, Hme.
  pose proof (rescaled_perp (Scalar (Fin v)) (Rabs c1) (Rabs c2) mu me eps
                Hfin Hmu0 Hme0 Heps0 Heps) as Hscaled.
  cbn [np.map] in Hscaled. injection Hscaled as Hscaled.
  subst sigma. rewrite Hme.
  rewrite (rho_perp_Fin _ _ me eps v Hme0 Heps0 Hv Heps) in *.
  cbn [warned wbind wlift wret fst snd app np.map Coulomb_cross_section].
  rewrite Hscaled.
  unfold any_nonzero. cbn [np.elements existsb feq f0]. rewrite (Reqb_false c 0 Hc).
  change (default (Scalar NaN) (Some (Scalar (Fin c)))) with (Scalar (Fin c)).
  cbn [negb orb warned wbind wlift wret fst snd app np.map multiply np.divide
       np.broadcast bind fmul fsquare f2 np.pi].
  rewrite fdiv_Fin by assumption.
  rewrite !app_nil_r.
  assert (Hcancel : forall a : R, a * l * c / l = a * c) by (intros; field; assumption).
  now rewrite Hcancel.
Qed.

(** X27. The method ["quantum"] of the coupling parameter gets as far as
    [chemical_potential], which is called for every input once the checks,
    the radius and the Coulomb energy are done: when [chemical_potential]
    raises, as the function of [plasmapy.formulary.quantum] does on every
    call, [coupling_parameter] raises the same exception, with a number
    for [z_mean], whatever the species, the temperature and the density
    are. *)
Theorem quantum_coupling_stops_at_the_chemical_potential
    (T n_e : ndarray float64) (species : string * string)
    (z : float64) (V : ndarray float64) (ps : Particle * Particle) (bp : boilerPlate)
    (x : exception) :
  not_negative T -> not_negative n_e ->
  particle_input species = Ok ps ->
  _boilerPlate T ps (Some V) = Ok bp ->
  fisnan z = false ->
  chemical_potential n_e T = Raise x ->
  quantum_kinetic_energy T n_e = Raise x
  /\ coupling_parameter T n_e species (Scalar z) V "quantum" = Raise x.
Proof.
  intros _ _ Hps Hbp Hz Hchem.
  assert (Hkin : quantum_kinetic_energy T n_e = Raise x).
  { unfold quantum_kinetic_energy. now rewrite Hchem. }
  split; [exact Hkin |].
  unfold coupling_parameter.
  rewrite (with_particles_Ok _ _ _ Hps), Hbp. cbn [bind np.isnan np.map np.truth].
  rewrite Hz. cbn [bind]. rewrite (boilerPlate_T _ _ _ _ Hbp).
  change (String.eqb "quantum" "classical") with false.
  change (String.eqb "quantum" "quantum") with true. cbv iota.
  unfold np.divide.
  destruct n_e as [x0 | xs]; cbn [np.broadcast bind np.map]; now rewrite Hkin.
Qed.
End given_logarithm.

(* ================================================================== *)
(** * Concrete calls of the rates *)

Section unit_runs.
Import collisions collisions_spec run transport transport_run.
Local Open Scope R_scope.

Lemma unit_electron : unit_particle natural_units.electron.
Proof. split; [reflexivity |]. cbn. unfold f1. f_equal. rewrite Rabs_left; lra. Qed.

Lemma unit_positron : unit_particle natural_units.positron.
Proof. split; [reflexivity |]. cbn. unfold f1. f_equal. rewrite Rabs_pos_eq; lra. Qed.

Lemma reduced_mass_unit (ps : Particle * Particle) :
  unit_particle (fst ps) -> unit_particle (snd ps) ->
  @reduced_mass nu (fst ps) (snd ps) = fhalf.
Proof.
  intros (Hm1 & _) (Hm2 & _). cbn. unfold natural_units.reduced_mass.
  rewrite Hm1, Hm2. unfold f1, fhalf. cbn. rewrite Reqb_false by lra. f_equal. lra.
Qed.

Lemma check_relativistic_one :
  @_check_relativistic nu V_one "V" = Ok tt.
Proof.
  cbn. unfold natural_units._check_relativistic. float_eval. reflexivity.
Qed.

Lemma finite_V_one :
  Forall (fun v => exists r : R, v = Fin r /\ r <> 0) (np.elements V_one).
Proof. constructor; [| constructor]. exists 1. split; [reflexivity | lra]. Qed.

Lemma boilerPlate_unit (T : ndarray float64) (ps : Particle * Particle) :
  unit_particle (fst ps) -> unit_particle (snd ps) ->
  _boilerPlate (H := nu) T ps (Some V_one)
  = Ok {| bp_T := T; bp_masses := (f1, f1); bp_charges := (f1, f1);
          bp_reduced_mass := fhalf; bp_V := V_one |}.
Proof.
  intros H1 H2.
  rewrite (boilerPlate_of_finite_velocity (H := nu) T V_one ps finite_V_one
             check_relativistic_one).
  rewrite (reduced_mass_unit ps H1 H2).
  destruct H1 as (-> & ->), H2 as (-> & ->). reflexivity.
Qed.

Lemma Debye_T256 :
  np.broadcast (@collisions.Debye_length nu) T256 n1 = Ok (Scalar (Fin 16)).
Proof.
  unfold T256, n1. cbn. unfold natural_units.Debye_length. float_eval.
  do 3 f_equal. apply sqrt_of_square; lra.
Qed.

Lemma impact_parameter_unit_T256 (ps : Particle * Particle) (z : ndarray float64) :
  unit_particle (fst ps) -> unit_particle (snd ps) ->
  impact_parameter (H := nu) T256 n1 ps z (Some V_one) "classical"
  = Ok (Scalar (Fin 1), Scalar (Fin 16)).
Proof.
  intros H1 H2.
  rewrite (table_classical T256 n1 ps z (Some V_one) _ (Scalar (Fin 16))
             (boilerPlate_unit T256 ps H1 H2)).
  - cbn [bp_V bp_reduced_mass V_one np.map fit_to].
    destruct H1 as (_ & ->), H2 as (_ & ->). now rewrite bmin_classical_1.
  - cbn. now rewrite Reqb_false by lra.
  - apply Debye_T256.
  - reflexivity.
Qed.

Lemma Coulomb_logarithm_unit_T256 (ps : Particle * Particle) (z : ndarray float64) :
  unit_particle (fst ps) -> unit_particle (snd ps) ->
  Coulomb_logarithm (H := nu) T256 n1 ps z (Some V_one) "classical"
  = Ok (ln_Lambda_256, strong_16).
Proof.
  intros H1 H2.
  rewrite (Coulomb_logarithm_linear T256 n1 ps z (Some V_one) "classical"
             (Scalar (Fin 1)) (Scalar (Fin 16)) (Scalar (Fin 16))).
  - cbn [np.map]. rewrite flog_Fin by lra. fold ln_Lambda_256.
    unfold coupling_warnings. pose proof ln_16_bounds as (Hlo & Hhi).
    assert (Hany2 : np.any (less_than f2 ln_Lambda_256) = false).
    { cbn. now rewrite Rltb_false by lra. }
    assert (Hany4 : np.any (less_than f4 ln_Lambda_256) = true).
    { cbn. now rewrite Rltb_true by lra. }
    rewrite Hany2, Hany4. reflexivity.
  - now apply impact_parameter_unit_T256.
  - cbn. rewrite Reqb_false by lra. do 3 f_equal. lra.
  - reflexivity.
Qed.
End unit_runs.

Section freq_runs.
Import collisions collisions_spec run transport transport_run.
Local Open Scope R_scope.

Lemma b_run_pos : 0 < b_run.
Proof.
  unfold b_run. pose proof PI_RGT_0.
  apply Rdiv_lt_0_compat; nra.
Qed.

Lemma freq_run_pos : 0 < freq_run.
Proof.
  unfold freq_run, sigma_run. pose proof b_run_pos. pose proof PI_RGT_0.
  pose proof ln_16_bounds as (Hlo & _).
  assert (Hb : 0 < 2 * b_run * (2 * b_run)) by nra.
  assert (Hs : 0 < PI * (2 * b_run * (2 * b_run))) by now apply Rmult_lt_0_compat.
  assert (Hl : 0 < ln 16) by lra.
  replace (1 * (PI * (2 * b_run * (2 * b_run))) * 1 * ln 16)
    with (PI * (2 * b_run * (2 * b_run)) * ln 16) by ring.
  now apply Rmult_lt_0_compat.
Qed.

(** The frequency of a unit particle that is spelled as an electron on
    one that is not. *)
Lemma collision_frequency_unit_run (species : string * string)
    (ps : Particle * Particle) (z : ndarray float64) :
  @particle_input particles species = Ok ps ->
  unit_particle (fst ps) -> unit_particle (snd ps) ->
  is_electron (fst species) <> is_electron (snd species) ->
  collision_frequency (H := nu) (H0 := particles) T256 n1 species z V_one "classical"
  = (List.map Warned strong_16, Ok (Scalar (Fin freq_run))).
Proof.
  intros Hps H1 H2 Hdiff.
  rewrite (collision_frequency_unlike (H := nu) (H0 := particles) T256 n1 species z
             V_one "classical" ps _ Hps (boilerPlate_unit T256 ps H1 H2) Hdiff).
  assert (Hrep : _replaceNanVwithThermalV (H := nu) (Some V_one) T256
                   (@m_e particles) = Ok V_one).
  { apply replaceNan_of_a_number. lra. }
  unfold V_one at 1. rewrite written_V_scalar. fold V_one.
  rewrite Hrep, wbind_wlift_Ok.
  unfold impact_parameter_perp. rewrite (boilerPlate_unit T256 ps H1 H2).
  cbn [bind bp_charges bp_reduced_mass bp_V fst snd]. rewrite wbind_wlift_Ok.
  rewrite (Coulomb_logarithm_unit_T256 ps z H1 H2).
  fold (@rho_perp nu f1 f1 fhalf). unfold V_one, n1, ln_Lambda_256.
  cbn [np.map]. rewrite rho_perp_1.
  cbn [warned wbind wlift wret fst snd app Coulomb_cross_section np.map multiply
       np.broadcast bind].
  change (@m_e particles) with f1. unfold f1, f2, fhalf, np.pi, fsquare.
  cbn [fmul]. rewrite fdiv_Fin by lra. cbn [fmul].
  rewrite app_nil_r. do 4 f_equal.
  unfold freq_run, sigma_run, b_run. pose proof PI_RGT_0. field. lra.
Qed.
End freq_runs.

(* ================================================================== *)
(** * The theorems above on concrete calls *)

Section core_witnesses.
Import collisions collisions_spec run transport_run.
Local Open Scope R_scope.


Lemma replaceNan_fills_the_gaps_witness :
  _replaceNanVwithThermalV (H := nu) (Some (Array [NaN; Fin 1])) (Array [Fin 1; Fin 4]) f1
  = Ok (Array (zip_with
                 (fun v t => or_thermal (@thermal_speed nu t (PStr "e-") (Some f1)) v)
                 [NaN; Fin 1] [Fin 1; Fin 4])).
Proof.
  apply (proj1 (proj2 (proj2 (proj2 (replaceNan_fills_the_gaps (H := nu) f1))))).
  - intros [Hin | [Hin | []]]; [discriminate | injection Hin; lra].
  - reflexivity.
Defined.

Lemma boilerPlate_velocity_is_a_fixed_point_witness :
  _boilerPlate (H := nu) T2 pair (Some (bp_V (bp1 T2))) = Ok (bp1 T2)
  /\ _replaceNanVwithThermalV (H := nu) (Some (bp_V (bp1 T2))) T2
       (bp_reduced_mass (bp1 T2))
     = Ok (bp_V (bp1 T2))
  /\ impact_parameter_perp (H := nu) T2 pair (Scalar (Fin 1))
     = impact_parameter_perp (H := nu) T2 pair (bp_V (bp1 T2)).
Proof.
  assert (Hno : ~ In (Fin 0) (np.elements (bp_V (bp1 T2)))).
  { cbn. intros [Hin | []]. injection Hin. lra. }
  destruct (boilerPlate_velocity_is_a_fixed_point (H := nu) T2 pair V1 (bp1 T2)
              (boilerPlate_V1 T2) Hno) as (Hbp & Hfill & Hperp).
  split; [exact Hbp | split; [exact Hfill | exact (Hperp _ eq_refl)]].
Defined.
End core_witnesses.

Section cold.
Import collisions collisions_spec run transport_run.
Local Open Scope R_scope.

Lemma boilerPlate_cold :
  _boilerPlate (H := nu) (Scalar (Fin 0)) pair (Some (Scalar NaN))
  = Ok {| bp_T := Scalar (Fin 0); bp_masses := (f1, f1); bp_charges := (f1, f1);
          bp_reduced_mass := fhalf; bp_V := Scalar (Fin 0) |}.
Proof.
  unfold _boilerPlate. rewrite (reduced_mass_unit pair unit_electron unit_positron).
  unfold _replaceNanVwithThermalV. cbn [eq_zero np.any np.elements existsb np.map feq f0 orb np.isnan fisnan np.isscalar].
  unfold thermal_speed_of. cbn [np.map thermal_speed nu natural_units.collisions_formulary].
  unfold natural_units.thermal_speed, natural_units.mass_of, fhalf, f2.
  cbn [fmul]. rewrite fdiv_Fin by lra.
  replace (2 * 0 / (1 / 2)) with 0 by lra.
  cbn [fsqrt]. rewrite Rltb_false by lra. rewrite sqrt_0.
  cbn [bind]. 
  assert (Hrel : @_check_relativistic nu (Scalar (Fin 0)) "V" = Ok tt).
  { cbn. unfold natural_units._check_relativistic. float_eval. reflexivity. }
  cbn [np.setitem np.isnan np.map fisnan np.values_for bind].
  cbn [orb bind replicate]. rewrite Hrel. cbn [bind].
  destruct unit_electron as (_ & He), unit_positron as (_ & Hp).
  cbn [pair fst snd]. rewrite He, Hp. reflexivity.
Qed.

Lemma not_negative_cold : not_negative (Scalar (Fin 0)).
Proof.
  intros x [<- | []]. cbn. apply Rltb_false. lra.
Qed.

Lemma zero_thermal_speed_is_refused_witness :
  impact_parameter (H := nu) (Scalar (Fin 0)) n1 pair unset (Some (Scalar NaN))
    "classical"
  = Raise (PhysicsError msg_zero_velocity)
  /\ Coulomb_logarithm (H := nu) (Scalar (Fin 0)) n1 pair unset (Some (Scalar NaN))
       "classical"
     = Raise (PhysicsError msg_zero_velocity)
  /\ impact_parameter_perp (H := nu) (Scalar (Fin 0)) pair (Scalar NaN)
     = Ok (np.map (rho_perp (H := nu) (fabs (charge (fst pair))) (fabs (charge (snd pair)))
                     fhalf) (Scalar (Fin 0))).
Proof.
  destruct (zero_thermal_speed_is_refused (H := nu) (Scalar (Fin 0)) n1 pair unset
              (Some (Scalar NaN)) "classical" _
              (Scalar (@Debye_length nu (Fin 0) (Fin 1)))
              not_negative_cold (proj2 (proj2 not_negative_T1)) boilerPlate_cold
              (or_introl eq_refl) ltac:(discriminate) eq_refl)
    as (Himp & Hlog & Hperp).
  split; [exact Himp | split; [exact Hlog | exact (Hperp _ eq_refl)]].
Defined.

Lemma unknown_method_is_refused_by_impact_parameter_witness :
  exists x, impact_parameter (H := nu) T1 n1 pair unset V1 "spitzer" = Raise x
            /\ Coulomb_logarithm (H := nu) T1 n1 pair unset V1 "spitzer" = Raise x.
Proof.
  apply (unknown_method_is_refused_by_impact_parameter (H := nu) T1 n1 pair unset V1
           "spitzer").
  reflexivity.
Defined.

Lemma hyperbolic_logarithm_is_never_negative_witness :
  let x := hyperbolic (Fin 1 / bmin_interp (H := nu) f1 f1 fhalf (Fin 1))%f64 in
  flt x f0 = false /\ (fisnan x = false -> fle f0 x = true).
Proof.
  apply (hyperbolic_logarithm_is_never_negative (H := nu) T1 n1 pair unset V1
           "hls_min_interp" _ _ eq_refl
           (Coulomb_logarithm_hyperbolic T1 n1 pair unset V1 "hls_min_interp" _ _ _
              (impact_parameter_min_interp_T1 "hls_min_interp" eq_refl) eq_refl
              (proj1 interp_T1_in_range) (proj1 (proj2 interp_T1_in_range))
              (proj2 (proj2 interp_T1_in_range)) eq_refl)).
  left. reflexivity.
Defined.

Lemma short_names_are_aliases_witness :
  impact_parameter (H := nu) T1 n1 pair unset V1 "GMS-3"
  = impact_parameter (H := nu) T1 n1 pair unset V1 "ls_clamp_mininterp"
  /\ value_of (Coulomb_logarithm (H := nu) T1 n1 pair unset V1 "GMS-3")
     = value_of (Coulomb_logarithm (H := nu) T1 n1 pair unset V1 "ls_clamp_mininterp").
Proof.
  apply (short_names_are_aliases (H := nu) T1 n1 pair unset V1).
  right. right. right. left. reflexivity.
Defined.

End cold.

Section thomson_more_witnesses.
Import thomson thomson_spec thomson_run.
Local Open Scope R_scope.

Lemma Skw_has_one_value_per_wavelength_witness :
  length (snd (spectrum (H := nu) [lambda0] lambda0 f1 [fhalf; f2] [f1] half_half [f1]
                 [natural_units.proton] [zero_vel; zero_vel] [zero_vel]
                 default_probe_vec default_scatter_vec))
  = length [lambda0].
Proof.
  exact (Skw_has_one_value_per_wavelength (H := nu) [lambda0] lambda0 f1 Te2 (Scalar f1)
           (Some half_half) None (AList l0) None None default_probe_vec
           default_scatter_vec heap_H _ _ spectral_density_Te2).
Defined.

(** The same wavelengths and electron temperatures with other electron
    fractions, another ion temperature and a drift of the ions. *)
Lemma spectral_density_Te2_drift :
  spectral_density (H := nu) [lambda0] lambda0 f1 Te2 (Scalar f2)
    (Some [f1; f2]) None (AList l0) None (Some [default_probe_vec])
    default_probe_vec default_scatter_vec heap_H
  = ({[ l0 := [PObj natural_units.proton] ]},
     Ok (spectrum (H := nu) [lambda0] lambda0 f1 [fhalf; f2] [f2] [f1; f2] [f1]
           [natural_units.proton] [zero_vel; zero_vel] [default_probe_vec]
           default_probe_vec default_scatter_vec)).
Proof.
  rewrite (spectral_density_on_list (H := nu) _ _ _ _ _ _ _ _ _ _ _ l0
             [PStr "H+"] [natural_units.proton] heap_H).
  - reflexivity.
  - apply lookup_singleton_eq.
  - discriminate.
  - apply resolves_H.
Qed.

Lemma alpha_ignores_ions_drifts_and_fractions_witness :
  fst (spectrum (H := nu) [lambda0] lambda0 f1 [fhalf; f2] [f1] half_half [f1]
         [natural_units.proton] [zero_vel; zero_vel] [zero_vel]
         default_probe_vec default_scatter_vec)
  = fst (spectrum (H := nu) [lambda0] lambda0 f1 [fhalf; f2] [f2] [f1; f2] [f1]
           [natural_units.proton] [zero_vel; zero_vel] [default_probe_vec]
           default_probe_vec default_scatter_vec).
Proof.
  exact (alpha_ignores_ions_drifts_and_fractions (H := nu) [lambda0] lambda0 f1 Te2
           default_probe_vec default_scatter_vec (Scalar f1) (Scalar f2)
           (Some half_half) (Some [f1; f2]) None None (AList l0) (AList l0)
           None None None (Some [default_probe_vec]) heap_H _ heap_H _ _ _
           eq_refl spectral_density_Te2 spectral_density_Te2_drift).
Defined.


Lemma invalid_species_leaves_the_list_half_converted_witness :
  spectral_density (H := nu) [lambda0] lambda0 f1 Te2 (Scalar f1) (Some half_half) None
    (AList l0) None None default_probe_vec default_scatter_vec
    {[ l0 := [PStr "H+"; PStr "Xx"; PStr "e+"] ]}
  = (<[ l0 := [PObj natural_units.proton; PStr "Xx"; PStr "e+"] ]>
       {[ l0 := [PStr "H+"; PStr "Xx"; PStr "e+"] ]},
     Raise (InvalidParticleError
              [Str "Xx"; Lit " does not correspond to a valid particle."])).
Proof.
  apply (invalid_species_leaves_the_list_half_converted (H := nu) [lambda0] lambda0 f1
           (Some half_half) None None None default_probe_vec default_scatter_vec
           Te2 (Scalar f1) l0 _ [PStr "H+"] [PStr "e+"] [natural_units.proton] "Xx").
  - apply lookup_singleton_eq.
  - apply resolves_H.
  - reflexivity.
Defined.

Lemma one_temperature_stands_for_all_witness :
  spectral_density (H := nu) [lambda0] lambda0 f1 Te2 (Scalar f1) (Some half_half) None
    (AList l0) None None default_probe_vec default_scatter_vec heap_H
  = spectral_density (H := nu) [lambda0] lambda0 f1 Te2
      (Array (replicate (length [PStr "H+"]) f1)) (Some half_half) None
      (AList l0) None None default_probe_vec default_scatter_vec heap_H.
Proof.
  apply (proj2 (one_temperature_stands_for_all (H := nu) [lambda0] lambda0 f1
                  (Some half_half) None None None default_probe_vec default_scatter_vec
                  f1 f1)).
  apply lookup_singleton_eq.
Defined.
End thomson_more_witnesses.

Section transport_witnesses.
Import collisions collisions_spec run transport transport_run.
Local Open Scope R_scope.

Lemma input_ee :
  @particle_input particles ("e-", "e-")%string
  = Ok (natural_units.electron, natural_units.electron).
Proof. reflexivity. Qed.

Lemma input_ep : @particle_input particles ("e-", "e+")%string = Ok pair.
Proof. reflexivity. Qed.

Lemma input_pe :
  @particle_input particles ("e+", "e-")%string
  = Ok (natural_units.positron, natural_units.electron).
Proof. reflexivity. Qed.

Lemma no_zero_V_one : ~ In (Fin 0) (np.elements V_one).
Proof. cbn. intros [Hin | []]. injection Hin. lra. Qed.

Lemma frequency_of_like_particles_witness :
  collision_frequency (H := nu) (H0 := particles) T256 n1 ("e-", "e-")%string unset V_one
    "classical"
  = ([Printed (printed_arguments T256 n1 ("e-", "e-")%string unset "classical")]
     ++ List.map Warned strong_16,
     a <- multiply n1
            (Coulomb_cross_section
               (np.map (rho_perp (H := nu) (fabs (charge natural_units.electron))
                          (fabs (charge natural_units.electron)) fhalf) V_one)) ;;
     b <- multiply a V_one ;;
     multiply b ln_Lambda_256).
Proof.
  pose proof (frequency_of_like_particles (H := nu) (H0 := particles) T256 n1
                ("e-", "e-")%string unset V_one "classical" _ _ input_ee
                (boilerPlate_unit T256 (natural_units.electron, natural_units.electron)
                   unit_electron unit_electron)
                no_zero_V_one eq_refl) as Hw.
  cbn [bp_V bp_reduced_mass fst snd] in Hw.
  rewrite (Coulomb_logarithm_unit_T256 (natural_units.electron, natural_units.electron)
             unset unit_electron unit_electron) in Hw.
  exact Hw.
Defined.

End transport_witnesses.

Section transport_witnesses2.
Import collisions collisions_spec run transport transport_run.
Local Open Scope R_scope.

Lemma run_ep (z : ndarray float64) :
  collision_frequency (H := nu) (H0 := particles) T256 n1 ("e-", "e+")%string z V_one
    "classical"
  = (List.map Warned strong_16, Ok (Scalar (Fin freq_run))).
Proof.
  apply (collision_frequency_unit_run ("e-", "e+")%string pair z input_ep
           unit_electron unit_positron).
  discriminate.
Qed.

Lemma only_two_electrons_print_witness :
  is_electron "e-" = true /\ is_electron "e-" = true
  /\ printed_arguments T256 n1 ("e-", "e-")%string unset "classical"
     = printed_arguments T256 n1 ("e-", "e-")%string unset "classical".
Proof.
  apply (only_two_electrons_print (H := nu) (H0 := particles) T256 n1
           ("e-", "e-")%string unset V_one "classical").
  rewrite (collision_frequency_like (H := nu) (H0 := particles) T256 n1
             ("e-", "e-")%string unset V_one "classical" _ _ input_ee
             (boilerPlate_unit T256 (natural_units.electron, natural_units.electron)
                unit_electron unit_electron)
             no_zero_V_one eq_refl).
  left. reflexivity.
Defined.

Lemma rates_refuse_a_zero_velocity_witness :
  collision_frequency (H := nu) (H0 := particles) T256 n1 ("e-", "e+")%string unset
    (Scalar (Fin 0)) "classical"
  = ([], Raise (PhysicsError msg_zero_velocity))
  /\ mean_free_path (H := nu) (H0 := particles) T256 n1 ("e-", "e+")%string unset
       (Scalar (Fin 0)) "classical"
     = ([], Raise (PhysicsError msg_zero_velocity)).
Proof.
  destruct (rates_refuse_a_zero_velocity (H := nu) (H0 := particles) T256 n1
              ("e-", "e+")%string unset (Scalar (Fin 0)) (Scalar (Fin 1)) "classical"
              pair (or_introl eq_refl) input_ep) as (Hf & Hm & _).
  split; assumption.
Defined.

Lemma rates_follow_the_collision_frequency_witness :
  exists ps bp,
    @particle_input particles ("e-", "e+")%string = Ok ps
    /\ _boilerPlate (H := nu) T256 ps (Some V_one) = Ok bp
    /\ mean_free_path (H := nu) (H0 := particles) T256 n1 ("e-", "e+")%string unset V_one
         "classical"
       = (List.map Warned strong_16, np.divide (bp_V bp) (Scalar (Fin freq_run)))
    /\ Knudsen_number (H := nu) (H0 := particles) (Scalar (Fin 2)) T256 n1
         ("e-", "e+")%string unset V_one "classical"
       = (List.map Warned strong_16,
          path_length <- np.divide (bp_V bp) (Scalar (Fin freq_run)) ;;
          np.divide path_length (Scalar (Fin 2))).
Proof.
  exact (rates_follow_the_collision_frequency (H := nu) (H0 := particles) T256 n1
           ("e-", "e+")%string unset V_one (Scalar (Fin 2)) "classical" _ _
           (run_ep unset)).
Defined.

Lemma resistivity_and_mobility_take_one_z_mean_witness :
  Spitzer_resistivity (H := nu) (H0 := particles) T256 n1 ("e-", "e+")%string
    (Array [Fin 1; Fin 1]) V_one "classical"
  = (List.map Warned strong_16,
     Raise (ValueError
       [Lit "The truth value of an array with more than one element is ambiguous. Use a.any() or a.all()"]))
  /\ mobility (H := nu) (H0 := particles) T256 n1 ("e-", "e+")%string
       (Array [Fin 1; Fin 1]) V_one "classical"
     = (List.map Warned strong_16,
        Raise (ValueError
          [Lit "The truth value of an array with more than one element is ambiguous. Use a.any() or a.all()"])).
Proof.
  exact (resistivity_and_mobility_take_one_z_mean (H := nu) (H0 := particles) T256 n1
           ("e-", "e+")%string (Fin 1) (Fin 1) [] V_one "classical" _ _
           (run_ep (Array [Fin 1; Fin 1]))).
Defined.

Lemma mobility_times_resistivity_witness :
  Spitzer_resistivity (H := nu) (H0 := particles) T256 (Scalar (Fin 1))
    ("e-", "e+")%string (Scalar (Fin 1)) V_one "classical"
  = (List.map Warned strong_16,
     Ok (Scalar (Fin (freq_run * (1 / 2) / (1 * (1 * 1 * (1 * 1)))))))
  /\ mobility (H := nu) (H0 := particles) T256 (Scalar (Fin 1))
       ("e-", "e+")%string (Scalar (Fin 1)) V_one "classical"
     = (List.map Warned strong_16, Ok (Scalar (Fin (1 * 1 / (1 / 2 * freq_run)))))
  /\ freq_run * (1 / 2) / (1 * (1 * 1 * (1 * 1))) * (1 * 1 / (1 / 2 * freq_run))
     = 1 / (1 * 1 * 1).
Proof.
  pose proof freq_run_pos as Hpos.
  apply (mobility_times_resistivity (H := nu) (H0 := particles) T256
           ("e-", "e+")%string V_one "classical" _ pair _ 1 1 freq_run (1 / 2) 1
           (run_ep (Scalar (Fin 1))) input_ep
           (boilerPlate_unit T256 pair unit_electron unit_positron) eq_refl eq_refl);
    lra.
Defined.

Lemma coupling_parameter_knows_two_methods_witness :
  coupling_parameter (H := nu) (H0 := particles) T256 n1 ("e-", "e+")%string
    (Scalar (Fin 1)) V_one "ls"
  = Raise (ValueError (msg_coupling_method "ls")).
Proof.
  apply (coupling_parameter_knows_two_methods (H := nu) (H0 := particles) T256 n1
           ("e-", "e+")%string (Fin 1) V_one "ls" pair _ input_ep
           (boilerPlate_unit T256 pair unit_electron unit_positron));
    discriminate.
Defined.

Lemma coupling_parameter_of_a_mean_charge_ignores_the_species_witness :
  coupling_parameter (H := nu) (H0 := particles) T256 n1 ("e-", "e+")%string
    (Scalar (Fin 2)) V_one "classical"
  = coupling_parameter (H := nu) (H0 := particles) T256 n1 ("e-", "e-")%string
      (Scalar (Fin 2)) V_one "classical".
Proof.
  exact (coupling_parameter_of_a_mean_charge_ignores_the_species (H := nu)
           (H0 := particles) T256 n1 ("e-", "e+")%string ("e-", "e-")%string
           (Scalar (Fin 2)) V_one "classical" _ _ _ _ input_ep
           (boilerPlate_unit T256 pair unit_electron unit_positron) input_ee
           (boilerPlate_unit T256 (natural_units.electron, natural_units.electron)
              unit_electron unit_electron)
           eq_refl).
Defined.

Lemma a_zero_coulomb_log_is_ignored_witness :
  fundamental_electron_collision_freq (H := nu) (H0 := particles) T256 n1 "e+"
    (Some (Array [Fin 0; Fin 0])) None "classical"
  = fundamental_electron_collision_freq (H := nu) (H0 := particles) T256 n1 "e+"
      None None "classical"
  /\ fundamental_ion_collision_freq (H := nu) (H0 := particles) T256 n1 "e+"
       (Some (Array [Fin 0; Fin 0])) None "classical"
     = fundamental_ion_collision_freq (H := nu) (H0 := particles) T256 n1 "e+"
         None None "classical".
Proof.
  apply (a_zero_coulomb_log_is_ignored (H := nu) (H0 := particles)).
  repeat constructor.
Defined.

Lemma a_given_coulomb_log_replaces_the_computed_one_witness :
  fundamental_electron_collision_freq (H := nu) (H0 := particles) T256 (Scalar (Fin 1))
    "e+" (Some (Scalar (Fin 10))) (Some V_one) "classical"
  = (List.map Warned strong_16 ++ List.map Warned strong_16,
     Ok (Scalar
           (electron_coeff
            * (Fin 1
               * (np.pi * fsquare (f2 * rho_perp (H := nu) (Fin (Rabs 1)) (Fin (Rabs (-1)))
                                         (@m_e particles) (Fin 1)))
               * Fin 1 * Fin 10))%f64)).
Proof.
  pose proof ln_16_bounds as (Hlo & _).
  apply (a_given_coulomb_log_replaces_the_computed_one (H := nu) (H0 := particles)
           T256 "e+" (Some V_one) "classical"
           (natural_units.positron, natural_units.electron) _ 1%Z strong_16
           1 10 1 (ln 16) 1 (1 / 2) 1 1 (-1)
           (replaceNan_of_a_number (H := nu) T256 (@m_e particles) 1 ltac:(lra))
           eq_refl input_pe eq_refl
           (boilerPlate_unit T256 (natural_units.positron, natural_units.electron)
              unit_positron unit_electron)
           (Coulomb_logarithm_unit_T256 (natural_units.positron, natural_units.electron)
              (Scalar (Fin (IZR 1))) unit_positron unit_electron)
           eq_refl eq_refl eq_refl eq_refl eq_refl); lra.
Defined.
End transport_witnesses2.

Section quantum_witness.
Import collisions collisions_spec run transport transport_run.
Local Open Scope R_scope.

Lemma quantum_coupling_stops_at_the_chemical_potential_witness :
  quantum_kinetic_energy (H0 := particles) n1 n1 = Raise (NotImplementedError [])
  /\ coupling_parameter (H := nu) (H0 := particles) n1 n1 ("e-", "e+")%string
       (Scalar (Fin 1)) V_one "quantum"
     = Raise (NotImplementedError []).
Proof.
  apply (quantum_coupling_stops_at_the_chemical_potential (H := nu) (H0 := particles)
           n1 n1 ("e-", "e+")%string (Fin 1) V_one pair _ _
           (proj2 (proj2 not_negative_T1)) (proj2 (proj2 not_negative_T1)) input_ep
           (boilerPlate_unit n1 pair unit_electron unit_positron) eq_refl eq_refl).
Defined.
End quantum_witness.

Section z_mean_arrays_witness.
Import collisions collisions_spec run.

Lemma interpolated_methods_take_one_z_mean_witness :
  impact_parameter (H := nu) T2 n1 pair (Array [Fin 1; Fin 2]) V1 "GMS-6"
  = Raise (ValueError
      [Lit "The truth value of an array with more than one element is ambiguous. Use a.any() or a.all()"])
  /\ Coulomb_logarithm (H := nu) T2 n1 pair (Array [Fin 1; Fin 2]) V1 "GMS-6"
     = Raise (ValueError
         [Lit "The truth value of an array with more than one element is ambiguous. Use a.any() or a.all()"]).
Proof.
  apply (proj1 (interpolated_methods_take_one_z_mean (H := nu) T2 n1 pair
                  (Fin 1) (Fin 2) [] V1 "GMS-6" (bp1 T2) (boilerPlate_V1 T2))).
  reflexivity.
Defined.
End z_mean_arrays_witness.
